(** * SailingRegatta4P: race store, wind store and per-frame simulation

    A shallow embedding of the race progression engine of the sailing
    simulator: the race store ([useRace.tsx]), the wind store
    ([useWind.tsx]) and the physics, collision and stage-tracking code of
    the frame callback [draw] of [SimpleGameCanvas.tsx].

    Conventions of the embedding.
    - A JavaScript [number] that holds a coordinate, an angle, a speed or
      an efficiency is a real number ([R]): arithmetic is exact, and
      rounding, NaN and the infinities of IEEE doubles are outside the
      model.  Millisecond clock readings, user ids and ranks are integers
      ([Z]).
    - A zustand store is a record; an action is a function from the store
      to the store.  React refs and the values a frame reads from its
      closure are explicit arguments.
    - [Math.random()] and [Date.now()] are inputs of the function that
      calls them. *)

From Stdlib Require Import ZArith List Bool String Ascii Lia DecimalString.
From Stdlib Require Import Reals Lra Permutation Sorted.
Import ListNotations.

(* ------------------------------------------------------------------ *)
(** * JavaScript helpers used by the race store *)

Module JS.

Local Open Scope string_scope.

(** [s.split(sep)] for a one-character separator. *)
Fixpoint split (sep : ascii) (s : string) : list string :=
  match s with
  | EmptyString => [EmptyString]
  | String c rest =>
      if Ascii.eqb c sep then EmptyString :: split sep rest
      else match split sep rest with
           | [] => [String c EmptyString]
           | h :: t => String c h :: t
           end
  end.

(** White space skipped by [parseInt] (the ASCII part of StrWhiteSpaceChar). *)
Definition isWhiteSpace (c : ascii) : bool :=
  let n := nat_of_ascii c in
  Nat.eqb n 32 || (Nat.leb 9 n && Nat.leb n 13).

Fixpoint skipWhiteSpace (s : string) : string :=
  match s with
  | String c rest => if isWhiteSpace c then skipWhiteSpace rest else s
  | EmptyString => s
  end.

(** Value of a digit in the given radix (10 or 16), if it is one. *)
Definition digitValue (radix : Z) (c : ascii) : option Z :=
  let n := Z.of_nat (nat_of_ascii c) in
  let v :=
    if (48 <=? n)%Z && (n <=? 57)%Z then Some (n - 48)%Z
    else if (97 <=? n)%Z && (n <=? 122)%Z then Some (n - 87)%Z
    else if (65 <=? n)%Z && (n <=? 90)%Z then Some (n - 55)%Z
    else None in
  match v with
  | Some d => if (d <? radix)%Z then Some d else None
  | None => None
  end.

(** Longest prefix of digits, accumulated left to right; [None] when the
    prefix is empty. *)
Fixpoint parseDigits (radix : Z) (acc : option Z) (s : string) : option Z :=
  match s with
  | EmptyString => acc
  | String c rest =>
      match digitValue radix c with
      | Some d =>
          parseDigits radix
            (Some (match acc with Some a => a * radix + d | None => d end)%Z)
            rest
      | None => acc
      end
  end.

(** [parseInt(x)] without a radix argument; [None] in the argument is
    [undefined], [None] in the result is [NaN]. *)
Definition parseInt (x : option string) : option Z :=
  let s := skipWhiteSpace (match x with Some s => s | None => "undefined" end) in
  let '(sign, s) :=
    match s with
    | String "-" rest => ((-1)%Z, rest)
    | String "+" rest => (1%Z, rest)
    | _ => (1%Z, s)
    end in
  let '(radix, s) :=
    match s with
    | String "0" (String "x" rest) => (16%Z, rest)
    | String "0" (String "X" rest) => (16%Z, rest)
    | _ => (10%Z, s)
    end in
  match parseDigits radix None s with
  | Some v => Some (sign * v)%Z
  | None => None
  end.

(** [a === b] on numbers: [NaN] equals nothing. *)
Definition numStrictEq (a b : option Z) : bool :=
  match a, b with
  | Some x, Some y => Z.eqb x y
  | _, _ => false
  end.

(** Template literal [`${n}`] of an integer. *)
Definition showZ (n : Z) : string :=
  DecimalString.NilZero.string_of_int (Z.to_int n).

End JS.

(* ------------------------------------------------------------------ *)
(** * The race store ([useRace.tsx]) *)

Module Boat.
(** The fields of [interface Boat] that the store actions below read.
    The kinematic fields of the store's boats are only written by
    [updateBoat]; the playable simulation keeps its boats in the canvas
    component. *)
Record t := mk {
  id : string;
  userId : Z;
  username : string;
  isLocalPlayer : bool
}.
End Boat.

Module RaceResult.
Record t := mk {
  userId : Z;
  username : string;
  finishTime : Z;
  position : Z;
  boatNumber : option Z   (* a number; [None] is NaN *)
}.

Definition withPosition (p : Z) (r : t) : t :=
  mk (userId r) (username r) (finishTime r) p (boatNumber r).
End RaceResult.

Inductive RacePhase := PreStart | Starting | Racing | PhaseFinished.

Inductive RaceStage :=
  | NotStarted | StartLeg | UpwindLeg | DownwindLeg
  | SecondUpwindLeg | FinishLeg | Finished.

Definition RaceStage_eqb (a b : RaceStage) : bool :=
  match a, b with
  | NotStarted, NotStarted | StartLeg, StartLeg | UpwindLeg, UpwindLeg
  | DownwindLeg, DownwindLeg | SecondUpwindLeg, SecondUpwindLeg
  | FinishLeg, FinishLeg | Finished, Finished => true
  | _, _ => false
  end.

Definition RacePhase_eqb (a b : RacePhase) : bool :=
  match a, b with
  | PreStart, PreStart | Starting, Starting | Racing, Racing
  | PhaseFinished, PhaseFinished => true
  | _, _ => false
  end.

(** Position of a stage in the order of the course. *)
Definition stageIndex (s : RaceStage) : nat :=
  match s with
  | NotStarted => 0 | StartLeg => 1 | UpwindLeg => 2 | DownwindLeg => 3
  | SecondUpwindLeg => 4 | FinishLeg => 5 | Finished => 6
  end.

Record RaceState := mkRaceState {
  phase : RacePhase;
  startTime : option Z;
  timeRemaining : Z;
  raceTime : Z;
  boats : list Boat.t;
  results : list RaceResult.t;
  boat1Stage : RaceStage;
  boat2Stage : RaceStage;
  boat3Stage : RaceStage;
  boat4Stage : RaceStage
}.

(** Partial updates [set({ field: v })] of the store. *)
Definition set_phase (p : RacePhase) (st : RaceState) : RaceState :=
  mkRaceState p (startTime st) (timeRemaining st) (raceTime st) (boats st)
    (results st) (boat1Stage st) (boat2Stage st) (boat3Stage st) (boat4Stage st).

Definition set_results (rs : list RaceResult.t) (st : RaceState) : RaceState :=
  mkRaceState (phase st) (startTime st) (timeRemaining st) (raceTime st)
    (boats st) rs (boat1Stage st) (boat2Stage st) (boat3Stage st) (boat4Stage st).

Definition set_boat1Stage (s : RaceStage) (st : RaceState) : RaceState :=
  mkRaceState (phase st) (startTime st) (timeRemaining st) (raceTime st)
    (boats st) (results st) s (boat2Stage st) (boat3Stage st) (boat4Stage st).

Definition set_boat2Stage (s : RaceStage) (st : RaceState) : RaceState :=
  mkRaceState (phase st) (startTime st) (timeRemaining st) (raceTime st)
    (boats st) (results st) (boat1Stage st) s (boat3Stage st) (boat4Stage st).

Definition set_boat3Stage (s : RaceStage) (st : RaceState) : RaceState :=
  mkRaceState (phase st) (startTime st) (timeRemaining st) (raceTime st)
    (boats st) (results st) (boat1Stage st) (boat2Stage st) s (boat4Stage st).

Definition set_boat4Stage (s : RaceStage) (st : RaceState) : RaceState :=
  mkRaceState (phase st) (startTime st) (timeRemaining st) (raceTime st)
    (boats st) (results st) (boat1Stage st) (boat2Stage st) (boat3Stage st) s.

(** The initial value of the store. *)
Definition initialRaceState : RaceState :=
  mkRaceState PreStart None 180 0 [] []
    NotStarted NotStarted NotStarted NotStarted.

Definition createInitialBoat (userId : Z) (username : string) (index : Z)
    (isLocalPlayer : bool) : Boat.t :=
  let boatNumber := (index + 1)%Z in
  let boatId := ("boat-" ++ JS.showZ boatNumber)%string in
  Boat.mk boatId userId username isLocalPlayer.

(** What [initializeRace] reads from the other stores: the id of the
    authenticated user (or 1), the four boat names after their defaults,
    and the boat count of the game settings. *)
Record RaceSetup := mkRaceSetup {
  actualUserId : Z;
  boat1Name : string;
  boat2Name : string;
  boat3Name : string;
  boat4Name : string;
  settingsBoatCount : Z
}.

Definition initialBoats (cfg : RaceSetup) : list Boat.t :=
  let u := actualUserId cfg in
  let boatCount := settingsBoatCount cfg in
  [createInitialBoat u (boat1Name cfg) 0 true]
  ++ (if (boatCount >? 1)%Z then
        [createInitialBoat u (boat2Name cfg) 1 false]
        ++ (if (boatCount >? 2)%Z then
              [createInitialBoat u (boat3Name cfg) 2 false]
              ++ (if (boatCount >? 3)%Z then
                    [createInitialBoat u (boat4Name cfg) 3 false]
                  else [])
            else [])
      else []).

Definition initializeRace (cfg : RaceSetup) (st : RaceState) : RaceState :=
  mkRaceState PreStart (startTime st) 180 (raceTime st) (initialBoats cfg) []
    NotStarted NotStarted NotStarted NotStarted.

Definition startCountdown (st : RaceState) : RaceState :=
  mkRaceState Starting None 180 (raceTime st) (boats st) (results st)
    (boat1Stage st) (boat2Stage st) (boat3Stage st) (boat4Stage st).

(** [now] is the reading of [Date.now()]. *)
Definition startRace (now : Z) (st : RaceState) : RaceState :=
  mkRaceState Racing (Some now) (timeRemaining st) (raceTime st) (boats st)
    (results st) (boat1Stage st) (boat2Stage st) (boat3Stage st) (boat4Stage st).

Definition resetRace (st : RaceState) : RaceState :=
  mkRaceState PreStart None 180 0 [] []
    NotStarted NotStarted NotStarted NotStarted.

(** [allResults.sort((a, b) => a.finishTime - b.finishTime)]: the sort of
    the language is stable, so an element stays in front of the later
    elements with the same finish time. *)
Fixpoint insertByFinishTime (r : RaceResult.t) (l : list RaceResult.t)
    : list RaceResult.t :=
  match l with
  | [] => [r]
  | h :: t =>
      if (RaceResult.finishTime r <=? RaceResult.finishTime h)%Z
      then r :: h :: t
      else h :: insertByFinishTime r t
  end.

Definition sortByFinishTime (l : list RaceResult.t) : list RaceResult.t :=
  fold_right insertByFinishTime [] l.

(** [allResults.map((result, index) => ({...result, position: index + 1}))],
    [index] being the index of the head of [l]. *)
Fixpoint assignPositions (index : Z) (l : list RaceResult.t)
    : list RaceResult.t :=
  match l with
  | [] => []
  | r :: t =>
      RaceResult.withPosition (index + 1) r :: assignPositions (index + 1) t
  end.

Definition reachedFinishLeg (s : RaceStage) : bool :=
  RaceStage_eqb s FinishLeg || RaceStage_eqb s Finished.

(** The chain [if (boatId === "boat-1") ... else if ...] that writes
    ["Finished"] into the stage of the boat named by [boatId]. *)
Definition markFinished (boatId : string) (st : RaceState) : RaceState :=
  if String.eqb boatId "boat-1" then set_boat1Stage Finished st
  else if String.eqb boatId "boat-2" then set_boat2Stage Finished st
  else if String.eqb boatId "boat-3" then set_boat3Stage Finished st
  else if String.eqb boatId "boat-4" then set_boat4Stage Finished st
  else st.

(** [parseInt(boatId.split('-')[1])]. *)
Definition boatNumberOfId (boatId : string) : option Z :=
  JS.parseInt (nth_error (JS.split "-" boatId) 1).

(** [results.some(r => r.userId === boat.userId && r.boatNumber === boatNumber)]. *)
Definition alreadyHasResult (boat : Boat.t) (boatNumber : option Z)
    (st : RaceState) : bool :=
  existsb
    (fun r => Z.eqb (RaceResult.userId r) (Boat.userId boat)
              && JS.numStrictEq (RaceResult.boatNumber r) boatNumber)
    (results st).

(** The value of the local [hasCompletedAllStages] after the chain of
    tests on [boatId]. *)
Definition hasCompletedAllStages (boatId : string) (st : RaceState) : bool :=
  if String.eqb boatId "boat-1" then reachedFinishLeg (boat1Stage st)
  else if String.eqb boatId "boat-2" then reachedFinishLeg (boat2Stage st)
  else if String.eqb boatId "boat-3" then reachedFinishLeg (boat3Stage st)
  else if String.eqb boatId "boat-4" then reachedFinishLeg (boat4Stage st)
  else false.

(** The local [updatedResults]: the old results and the new one, sorted and
    ranked. *)
Definition updatedResults (boat : Boat.t) (boatId : string) (time : Z)
    (st : RaceState) : list RaceResult.t :=
  let allResults :=
    results st
    ++ [RaceResult.mk (Boat.userId boat) (Boat.username boat) time 0
          (boatNumberOfId boatId)] in
  assignPositions 0 (sortByFinishTime allResults).

Definition finishRace (boatId : string) (time : Z) (st : RaceState)
    : RaceState :=
  match find (fun b => String.eqb (Boat.id b) boatId) (boats st) with
  | None => st
  | Some boat =>
      let boatNumber := boatNumberOfId boatId in
      if alreadyHasResult boat boatNumber st then st
      else if negb (hasCompletedAllStages boatId st) then markFinished boatId st
      else
        let updates :=
          markFinished boatId
            (set_results (updatedResults boat boatId time st) st) in
        let activeBoatCount := List.length (boats st) in
        let finishedBoatsCount := (List.length (results st) + 1)%nat in
        if (activeBoatCount <=? finishedBoatsCount)%nat
        then set_phase PhaseFinished updates
        else updates
  end.

(* ------------------------------------------------------------------ *)
(** * Comparisons of numbers as booleans *)

Definition Rltb (a b : R) : bool := if Rlt_dec a b then true else false.
Definition Rleb (a b : R) : bool := if Rle_dec a b then true else false.
Definition Rgtb (a b : R) : bool := Rltb b a.
Definition Rgeb (a b : R) : bool := Rleb b a.
Definition Reqb (a b : R) : bool := if Req_dec_T a b then true else false.

(* ------------------------------------------------------------------ *)
(** * Stage tracking of the frame callback ([SimpleGameCanvas.tsx]) *)

Module BoatState.
(** [boatState], [boat2State], [boat3State], [boat4State]. *)
Record t := mk { x : R; y : R; rotation : R; speed : R }.
End BoatState.

Module StartLine.
Record t := mk { x1 : R; y1 : R; x2 : R; y2 : R }.
End StartLine.

Module Mark.
Record t := mk { x : R; y : R; radius : R }.
End Mark.

(** The four boats of the canvas. *)
Inductive BoatIx := B1 | B2 | B3 | B4.

Definition boatNumberOf (ix : BoatIx) : Z :=
  match ix with B1 => 1 | B2 => 2 | B3 => 3 | B4 => 4 end.

Definition boatIdOf (ix : BoatIx) : string :=
  match ix with
  | B1 => "boat-1" | B2 => "boat-2" | B3 => "boat-3" | B4 => "boat-4"
  end.

Definition stageOf (ix : BoatIx) (st : RaceState) : RaceStage :=
  match ix with
  | B1 => boat1Stage st | B2 => boat2Stage st
  | B3 => boat3Stage st | B4 => boat4Stage st
  end.

(** [useRace.setState({ boatNStage: s })]. *)
Definition setStage (ix : BoatIx) (s : RaceStage) (st : RaceState) : RaceState :=
  match ix with
  | B1 => set_boat1Stage s st | B2 => set_boat2Stage s st
  | B3 => set_boat3Stage s st | B4 => set_boat4Stage s st
  end.

(** [boat1FinishedRef] to [boat4FinishedRef]. *)
Record Refs := mkRefs {
  boat1FinishedRef : bool;
  boat2FinishedRef : bool;
  boat3FinishedRef : bool;
  boat4FinishedRef : bool
}.

Definition initialRefs : Refs := mkRefs false false false false.

Definition finishedRef (ix : BoatIx) (r : Refs) : bool :=
  match ix with
  | B1 => boat1FinishedRef r | B2 => boat2FinishedRef r
  | B3 => boat3FinishedRef r | B4 => boat4FinishedRef r
  end.

Definition setFinishedRef (ix : BoatIx) (r : Refs) : Refs :=
  match ix with
  | B1 => mkRefs true (boat2FinishedRef r) (boat3FinishedRef r) (boat4FinishedRef r)
  | B2 => mkRefs (boat1FinishedRef r) true (boat3FinishedRef r) (boat4FinishedRef r)
  | B3 => mkRefs (boat1FinishedRef r) (boat2FinishedRef r) true (boat4FinishedRef r)
  | B4 => mkRefs (boat1FinishedRef r) (boat2FinishedRef r) (boat3FinishedRef r) true
  end.

Module Puff.
(** An element of [windPuffs]. *)
Record t := mk {
  x : R; y : R; width : R; height : R; speedBoost : R; opacity : R
}.
End Puff.

Module Current.
(** The component state [current]. *)
Record t := mk { direction : R; speed : R }.
End Current.

(** What one frame reads besides the race store: the settings, the
    component state, the course refs, the canvas, the clock, and the
    constants [boat3Stage] and [boat4Stage] of the render that made its
    closure. *)
Record FrameInput := mkFrameInput {
  boatCount : Z;
  singleBoatMode : bool;
  isPaused : bool;
  deltaTime : R;
  boatRadius : R;
  canvasWidth : R;
  canvasHeight : R;
  windDirection : R;
  windPuffs : list Puff.t;
  current : Current.t;
  luffing : BoatIx -> bool;   (* the luff key of the boat is down *)
  startLineRef : StartLine.t;
  topMarkRef : Mark.t;
  bottomMarkRef : Mark.t;
  boatStateOf : BoatIx -> BoatState.t;
  raceStartTime : option Z;
  dateNow : BoatIx -> Z;   (* [Date.now()] in the finish branch of a boat *)
  closureBoat3Stage : RaceStage;
  closureBoat4Stage : RaceStage
}.

(** The state the frames work on: the refs of the component and the store. *)
Definition System : Type := Refs * RaceState.

(** The test of the start line: near the line, between the posts with a
    margin of one boat radius, heading north-ish. *)
Definition crossesStartLine (f : FrameInput) (ix : BoatIx) : bool :=
  let b := boatStateOf f ix in
  let startLine := startLineRef f in
  let isNearStartLine :=
    Rltb (Rabs (BoatState.y b - StartLine.y1 startLine)) (boatRadius f * 3) in
  let isBetweenPosts :=
    Rgeb (BoatState.x b) (StartLine.x1 startLine - boatRadius f)
    && Rleb (BoatState.x b) (StartLine.x2 startLine + boatRadius f) in
  let isMovingUpward :=
    Rgtb (BoatState.rotation b) 260 || Rltb (BoatState.rotation b) 100 in
  isNearStartLine && isBetweenPosts && isMovingUpward.

(** The test of the top mark: at or above the mark, within two boat radii
    of its x. *)
Definition roundsTopMark (f : FrameInput) (ix : BoatIx) : bool :=
  let b := boatStateOf f ix in
  let topMark := topMarkRef f in
  let xDistanceFromMark := Rabs (BoatState.x b - Mark.x topMark) in
  Rleb (BoatState.y b) (Mark.y topMark)
  && Rleb xDistanceFromMark (boatRadius f * 2).

(** The test of the bottom mark: at or below the mark, within two boat
    radii of its x. *)
Definition roundsBottomMark (f : FrameInput) (ix : BoatIx) : bool :=
  let b := boatStateOf f ix in
  let bottomMark := bottomMarkRef f in
  let xDistanceFromMark := Rabs (BoatState.x b - Mark.x bottomMark) in
  Rgeb (BoatState.y b) (Mark.y bottomMark)
  && Rleb xDistanceFromMark (boatRadius f * 2).

(** The test of the finish line: between the posts, within 20 of the y of
    the line; the heading is computed in the source and not tested. *)
Definition isAtFinishLine (f : FrameInput) (ix : BoatIx) : bool :=
  let b := boatStateOf f ix in
  let startLine := startLineRef f in
  let hasMatchingYPosition :=
    Rltb (Rabs (BoatState.y b - StartLine.y1 startLine)) 20 in
  let isBetweenPosts :=
    Rgeb (BoatState.x b) (StartLine.x1 startLine)
    && Rleb (BoatState.x b) (StartLine.x2 startLine) in
  isBetweenPosts && hasMatchingYPosition.

(** The five checks of one boat, in the order of the source.  [stage] is
    the constant the checks compare: [boat1Stage] and [boat2Stage] are read
    from the store at the head of the block, [boat3Stage] and [boat4Stage]
    come from the closure of the render. *)
Definition boatProgression (ix : BoatIx) (f : FrameInput) (stage : RaceStage)
    (sys : System) : System :=
  (* Start Leg: crossing of the start line *)
  let sys :=
    if RaceStage_eqb stage StartLeg then
      if crossesStartLine f ix
      then (fst sys, setStage ix UpwindLeg (snd sys))
      else sys
    else sys in
  (* Upwind Leg: rounding of the top mark *)
  let sys :=
    if RaceStage_eqb stage UpwindLeg then
      if roundsTopMark f ix
      then (fst sys, setStage ix DownwindLeg (snd sys))
      else sys
    else sys in
  (* Downwind Leg: rounding of the bottom mark *)
  let sys :=
    if RaceStage_eqb stage DownwindLeg then
      if roundsBottomMark f ix
      then (fst sys, setStage ix SecondUpwindLeg (snd sys))
      else sys
    else sys in
  (* Second Upwind Leg: second rounding of the top mark *)
  let sys :=
    if RaceStage_eqb stage SecondUpwindLeg then
      if roundsTopMark f ix
      then (fst sys, setStage ix FinishLeg (snd sys))
      else sys
    else sys in
  (* Finish Leg: the finish line *)
  if RaceStage_eqb stage FinishLeg && negb (finishedRef ix (fst sys)) then
    if isAtFinishLine f ix then
      let st := setStage ix Finished (snd sys) in
      let refs := setFinishedRef ix (fst sys) in
      let finishTime :=
        (dateNow f ix - match raceStartTime f with Some t => t | None => 0 end)%Z in
      match find (fun b => String.eqb (Boat.id b) (boatIdOf ix)) (boats st) with
      | Some _ => (refs, finishRace (boatIdOf ix) finishTime st)
      | None => (refs, st)
      end
    else sys
  else sys.

(** The four blocks that force a boat that is still Not Started into the
    Start Leg; every test reads [raceState], the store as it was before the
    first of them. *)
Definition forceStartLeg (f : FrameInput) (raceState : RaceState) : RaceState :=
  let st := raceState in
  let st :=
    if RaceStage_eqb (boat1Stage raceState) NotStarted
    then set_boat1Stage StartLeg st else st in
  let st :=
    if (boatCount f >=? 2)%Z && RaceStage_eqb (boat2Stage raceState) NotStarted
    then set_boat2Stage StartLeg st else st in
  let st :=
    if (boatCount f >=? 3)%Z && RaceStage_eqb (boat3Stage raceState) NotStarted
    then set_boat3Stage StartLeg st else st in
  if (boatCount f >=? 4)%Z && RaceStage_eqb (boat4Stage raceState) NotStarted
  then set_boat4Stage StartLeg st else st.

(** The block [if (phase === "racing")] at the end of the physics of a
    frame, inside [if (phase === "racing" && !isPaused)].  [cPhase],
    [cBoat3Stage] and [cBoat4Stage] are the values of the closure.  The
    component state [raceStage], the transition effects, the sounds and
    the leaderboard of the component are display only and left out. *)
Definition stageTracking (f : FrameInput) (cPhase : RacePhase)
    (cBoat3Stage cBoat4Stage : RaceStage) (sys : System) : System :=
  if RacePhase_eqb cPhase Racing && negb (isPaused f) then
    let st := forceStartLeg f (snd sys) in
    let boat1Stage := boat1Stage st in
    let boat2Stage := boat2Stage st in
    let sys := boatProgression B1 f boat1Stage (fst sys, st) in
    let sys :=
      if (boatCount f >=? 2)%Z then boatProgression B2 f boat2Stage sys else sys in
    let sys :=
      if (boatCount f >=? 3)%Z then boatProgression B3 f cBoat3Stage sys else sys in
    if (boatCount f >=? 4)%Z then boatProgression B4 f cBoat4Stage sys else sys
  else sys.

(** The constant a frame holds for the stage of boat 3 or boat 4.  The
    frame callback is made anew by the drawing effect when the phase, the
    time remaining, the keys, the pause or the state of boat 1 have
    changed, and every unpaused racing frame ends with a write of the
    state of boat 1: the closure of a frame is of a render that has seen
    the store as the frame before left it.  The one write to the stages
    that can follow that render is the effect that initializes the stages,
    which leaves the Start Leg in the store and calls for no new closure;
    the frame then still holds the constant of the render before the
    effect, [closureStage]: Not Started at the start of a race, the leg
    the boat was in when the boat count has changed during the race. *)
Definition renderedStage (closureStage storeStage : RaceStage) : RaceStage :=
  if RaceStage_eqb storeStage StartLeg then closureStage else storeStage.

(** The stage the checks of boat [ix] compare with, as the store [st] at
    the head of the frame gives it: boats 1 and 2 read the store, after the
    forced start; boats 3 and 4 use the constants of the closure. *)
Definition comparedStage (f : FrameInput) (ix : BoatIx) (st : RaceState)
    : RaceStage :=
  match ix with
  | B1 | B2 => stageOf ix (forceStartLeg f st)
  | B3 => renderedStage (closureBoat3Stage f) (boat3Stage st)
  | B4 => renderedStage (closureBoat4Stage f) (boat4Stage st)
  end.

(** A frame.  The phase is a dependency of the drawing effect, so the
    closure holds the phase of the store. *)
Definition frame (f : FrameInput) (sys : System) : System :=
  stageTracking f (phase (snd sys))
    (comparedStage f B3 (snd sys)) (comparedStage f B4 (snd sys)) sys.

(** The frame [f] with the constants of a render that has seen the store
    [st]. *)
Definition withClosureOf (st : RaceState) (f : FrameInput) : FrameInput :=
  mkFrameInput (boatCount f) (singleBoatMode f) (isPaused f) (deltaTime f)
    (boatRadius f) (canvasWidth f) (canvasHeight f) (windDirection f)
    (windPuffs f) (current f) (luffing f) (startLineRef f) (topMarkRef f)
    (bottomMarkRef f) (boatStateOf f) (raceStartTime f) (dateNow f)
    (boat3Stage st) (boat4Stage st).

(** Frames that follow one another with no other write to the store in
    between: each has the closure of a render of the store that the frame
    before has left. *)
Definition freshFrames (fs : list FrameInput) (sys : System) : System :=
  fold_left (fun s f => frame (withClosureOf (snd s) f) s) fs sys.

(** The effect of the component that initializes the stages, run after a
    render in which the phase or the boat count has changed: in the racing
    phase, if a boat in play is Not Started, every boat in play is put into
    the Start Leg, whatever its stage and whether or not it has a result.
    [boatCount] is the boat count of the settings. *)
Definition initializeStages (boatCount : Z) (st : RaceState) : RaceState :=
  if RacePhase_eqb (phase st) Racing then
    let needsInit :=
      RaceStage_eqb (boat1Stage st) NotStarted
      || ((boatCount >=? 2)%Z && RaceStage_eqb (boat2Stage st) NotStarted)
      || ((boatCount >=? 3)%Z && RaceStage_eqb (boat3Stage st) NotStarted)
      || ((boatCount >=? 4)%Z && RaceStage_eqb (boat4Stage st) NotStarted) in
    if needsInit then
      let st := set_boat1Stage StartLeg st in
      let st := if (boatCount >=? 2)%Z then set_boat2Stage StartLeg st else st in
      let st := if (boatCount >=? 3)%Z then set_boat3Stage StartLeg st else st in
      if (boatCount >=? 4)%Z then set_boat4Stage StartLeg st else st
    else st
  else st.

(** What happens to the race: the actions of the store, the effect that
    initializes the stages and the stage tracking of a frame.  [updateBoat] and the writes of [timeRemaining] and
    [raceTime] change no field of the model. *)
Inductive Event :=
  | EvInitializeRace (cfg : RaceSetup)
  | EvResetRace
  | EvInitializeStages (boatCount : Z)
  | EvStartCountdown
  | EvStartRace (now : Z)
  | EvFinishRace (boatId : string) (time : Z)
  | EvFrame (f : FrameInput).

Definition applyEvent (e : Event) (sys : System) : System :=
  match e with
  | EvInitializeRace cfg => (fst sys, initializeRace cfg (snd sys))
  | EvResetRace => (fst sys, resetRace (snd sys))
  | EvInitializeStages boatCount => (fst sys, initializeStages boatCount (snd sys))
  | EvStartCountdown => (fst sys, startCountdown (snd sys))
  | EvStartRace now => (fst sys, startRace now (snd sys))
  | EvFinishRace boatId time => (fst sys, finishRace boatId time (snd sys))
  | EvFrame f => frame f sys
  end.

Definition run (evs : list Event) (sys : System) : System :=
  fold_left (fun s e => applyEvent e s) evs sys.


Definition initialSystem : System := (initialRefs, initialRaceState).

(** The states of the race that the events produce.  Every event can
    happen in every state: the effect that initializes the stages runs at
    the start of a race and whenever the boat count is changed, which the
    standings panel offers once a first result is recorded. *)
Inductive reachable : System -> Prop :=
  | reachable_initial : reachable initialSystem
  | reachable_event e sys : reachable sys -> reachable (applyEvent e sys).

(* ------------------------------------------------------------------ *)
(** * Properties of the race store used as invariants *)


(** The boats of the store are those [initializeRace] made, if any. *)
Definition boatsWellFormed (st : RaceState) : Prop :=
  boats st = [] \/ exists cfg, boats st = initialBoats cfg.

(** A result belongs to a boat of the race; no two results belong to one
    boat; the race is over only when as many results as boats are
    recorded. *)
Definition Inv (st : RaceState) : Prop :=
  boatsWellFormed st
  /\ (forall r, In r (results st) ->
        exists ix,
          RaceResult.boatNumber r = Some (boatNumberOf ix)
          /\ In (boatIdOf ix) (map Boat.id (boats st))
          /\ forall b, In b (boats st) -> RaceResult.userId r = Boat.userId b)
  /\ NoDup (map RaceResult.boatNumber (results st))
  /\ (phase st = PhaseFinished ->
      (List.length (boats st) <= List.length (results st))%nat).


Local Open Scope R_scope.

(* ------------------------------------------------------------------ *)
(** * Wind shadow, wind efficiency and speed ([SimpleGameCanvas.tsx]) *)

Module Point.
Record t := mk { x : R; y : R }.
End Point.

(** [isInTurbulenceZone] of the component; [singleBoatMode] is the value
    of its closure. *)
Definition isInTurbulenceZone (singleBoatMode : bool)
    (boatPos blockingBoatPos : Point.t) (blockingBoatRotation : R)
    (shadowLength : R) : bool :=
  if singleBoatMode then false
  else if Rleb (Point.y boatPos) (Point.y blockingBoatPos) then false
  else
    let distance :=
      sqrt ((Point.x boatPos - Point.x blockingBoatPos) ^ 2
            + (Point.y boatPos - Point.y blockingBoatPos) ^ 2) in
    if Rgtb distance shadowLength then false
    else
      let shadowWidth := shadowLength * 0.5 in
      let widthAtDistance := (distance / shadowLength) * shadowWidth in
      Rltb (Rabs (Point.x boatPos - Point.x blockingBoatPos)) widthAtDistance.

(** [Math.abs(windDirection - boatDirection)], turned into [360 - angle]
    above 180. *)
Definition relativeAngle (windDirection boatDirection : R) : R :=
  let relativeAngle := Rabs (windDirection - boatDirection) in
  if Rgtb relativeAngle 180 then 360 - relativeAngle else relativeAngle.

(** The five bands of the wind efficiency. *)
Definition bandEfficiency (relativeAngle : R) : R :=
  if Rltb relativeAngle 30 then 0
  else if Rltb relativeAngle 60 then 0.5
  else if Rltb relativeAngle 120 then 1.0
  else if Rltb relativeAngle 150 then 0.8
  else 0.6.

(** One call of the shadow test of a frame: [ix] is tested against the
    blocking boat [jx], with a shadow of six boat radii. *)
Definition shadowedBy (f : FrameInput) (ix jx : BoatIx) : bool :=
  let b := boatStateOf f ix in
  let o := boatStateOf f jx in
  isInTurbulenceZone (singleBoatMode f)
    (Point.mk (BoatState.x b) (BoatState.y b))
    (Point.mk (BoatState.x o) (BoatState.y o))
    (BoatState.rotation o)
    (boatRadius f * 6).

(** The value of [isInWindShadow] of boat [ix] after its three tests.
    Boat 1 tests a boat only if it is in play; the other boats test boat 1
    first, whatever the boat count. *)
Definition isInWindShadow (f : FrameInput) (ix : BoatIx) : bool :=
  let test (s : bool) (active : bool) (jx : BoatIx) : bool :=
    if negb s && active then shadowedBy f ix jx else s in
  let n := boatCount f in
  match ix with
  | B1 =>
      let s := false in
      let s := test s (n >=? 2)%Z B2 in
      let s := test s (n >=? 3)%Z B3 in
      test s (n >=? 4)%Z B4
  | B2 =>
      let s := shadowedBy f B2 B1 in
      let s := test s (n >=? 3)%Z B3 in
      test s (n >=? 4)%Z B4
  | B3 =>
      let s := shadowedBy f B3 B1 in
      let s := test s (n >=? 2)%Z B2 in
      test s (n >=? 4)%Z B4
  | B4 =>
      let s := shadowedBy f B4 B1 in
      let s := test s (n >=? 2)%Z B2 in
      test s (n >=? 3)%Z B3
  end.

(** The frame [f] under another wind direction. *)
Definition withWindDirection (w : R) (f : FrameInput) : FrameInput :=
  mkFrameInput (boatCount f) (singleBoatMode f) (isPaused f) (deltaTime f)
    (boatRadius f) (canvasWidth f) (canvasHeight f) w (windPuffs f)
    (current f) (luffing f) (startLineRef f) (topMarkRef f) (bottomMarkRef f)
    (boatStateOf f) (raceStartTime f) (dateNow f)
    (closureBoat3Stage f) (closureBoat4Stage f).

(** The wind efficiency of boat [ix] after the wind shadow penalty. *)
Definition shadowedEfficiency (f : FrameInput) (ix : BoatIx) : R :=
  let windEfficiency :=
    bandEfficiency
      (relativeAngle (windDirection f) (BoatState.rotation (boatStateOf f ix))) in
  if isInWindShadow f ix then Rmax 0.1 (windEfficiency - 0.2)
  else windEfficiency.

(** The loop over [windPuffs]: the first puff that holds the boat adds its
    boost, unless the boat is in irons, and ends the loop. *)
Fixpoint applyWindPuffs (relativeAngle bx by_ windEfficiency : R)
    (puffs : list Puff.t) : R :=
  match puffs with
  | [] => windEfficiency
  | puff :: rest =>
      let distance :=
        sqrt (((bx - Puff.x puff) / (Puff.width puff / 2)) ^ 2
              + ((by_ - Puff.y puff) / (Puff.height puff / 2)) ^ 2) in
      if Rltb distance 1 then
        if Rgeb relativeAngle 30 then windEfficiency + Puff.speedBoost puff
        else windEfficiency
      else applyWindPuffs relativeAngle bx by_ windEfficiency rest
  end.

(** The value of [windEfficiency] of boat [ix] when its maximum speed is
    computed. *)
Definition windEfficiencyOf (f : FrameInput) (ix : BoatIx) : R :=
  let b := boatStateOf f ix in
  applyWindPuffs
    (relativeAngle (windDirection f) (BoatState.rotation b))
    (BoatState.x b) (BoatState.y b) (shadowedEfficiency f ix) (windPuffs f).

Definition maxSpeedOf (f : FrameInput) (ix : BoatIx) : R :=
  50 * windEfficiencyOf f ix.

(** The speed the frame writes for boat [ix], from the speed [prev] of the
    state before. *)
Definition updatedSpeed (f : FrameInput) (ix : BoatIx) (prev : R) : R :=
  let acceleration := 50 * deltaTime f in
  if negb (luffing f ix)
  then Rmin (maxSpeedOf f ix) (prev + acceleration * windEfficiencyOf f ix)
  else Rmax 0 (prev - acceleration * 3).

(* ------------------------------------------------------------------ *)
(** * Movement and boundary of the canvas *)

Definition boundaryMargin (f : FrameInput) : R := boatRadius f * 2.

(** The integer part of a number, rounded toward zero. *)
Definition truncate (x : R) : Z :=
  if Rle_dec 0 x then Int_part x else (- Int_part (- x))%Z.

(** [boatRadius], from the size of the window. *)
Definition boatRadiusOfWindow (innerWidth innerHeight : R) : R :=
  Rmin innerWidth innerHeight * 0.015.

(** [canvas.width] and [canvas.height] as the frame reads them after
    [handleResize] has assigned [window.innerWidth * 1.1] and
    [window.innerHeight * 1.1]: the two attributes of a canvas are
    integers, and an assignment keeps the integer part of the number (for
    a window below 2^31 / 1.1 on each side). *)
Definition canvasWidthOfWindow (innerWidth : R) : R :=
  IZR (truncate (innerWidth * 1.1)).
Definition canvasHeightOfWindow (innerHeight : R) : R :=
  IZR (truncate (innerHeight * 1.1)).

(** The tentative position of boat [ix]: its position, its own movement
    and the movement of the current. *)
Definition tentativePosition (f : FrameInput) (ix : BoatIx) : R * R :=
  let b := boatStateOf f ix in
  let radians := (BoatState.rotation b * PI) / 180 in
  let vx := sin radians * BoatState.speed b * deltaTime f in
  let vy := - cos radians * BoatState.speed b * deltaTime f in
  let currentRadians := ((Current.direction (current f) + 180) * PI) / 180 in
  let currentVx :=
    sin currentRadians * Current.speed (current f) * 10 * deltaTime f in
  let currentVy :=
    - cos currentRadians * Current.speed (current f) * 10 * deltaTime f in
  (BoatState.x b + vx + currentVx, BoatState.y b + vy + currentVy).

(** The two tests on one coordinate: [limit] is the width or the height
    of the canvas. *)
Definition boundaryConstraint (margin limit v : R) : R :=
  if Rltb v margin then margin
  else if Rgtb v (limit - margin) then limit - margin
  else v.

(** [newBoatNX] and [newBoatNY] when the collision code starts.  The
    constraints of boats 3 and 4 are applied only when the boat is in
    play. *)
Definition candidatePosition (f : FrameInput) (ix : BoatIx) : R * R :=
  let p := tentativePosition f ix in
  let constrained :=
    (boundaryConstraint (boundaryMargin f) (canvasWidth f) (fst p),
     boundaryConstraint (boundaryMargin f) (canvasHeight f) (snd p)) in
  match ix with
  | B1 | B2 => constrained
  | B3 => if (boatCount f >=? 3)%Z then constrained else p
  | B4 => if (boatCount f >=? 4)%Z then constrained else p
  end.

(* ------------------------------------------------------------------ *)
(** * Collisions between boats *)

(** [Math.atan2(y, x)]. *)
Definition atan2 (y x : R) : R :=
  if Rltb 0 x then atan (y / x)
  else if Rltb x 0 then
    if Rleb 0 y then atan (y / x) + PI else atan (y / x) - PI
  else if Rltb 0 y then PI / 2
  else if Rltb y 0 then - (PI / 2)
  else 0.

Module BoatCollisionInfo.
(** An element of [activeBoats]; [needsAdjustment] is kept with the
    adjustments below. *)
Record t := mk { id : BoatIx; x : R; y : R; speed : R }.
End BoatCollisionInfo.

Module Adjustment.
(** [newBoatNXWithMarks], [newBoatNYWithMarks], [boatNSpeedAdjusted] and
    [boatNNeedsAdjustment] of one boat. *)
Record t := mk {
  newXWithMarks : R;
  newYWithMarks : R;
  speedAdjusted : R;
  needsAdjustment : bool
}.
End Adjustment.

Definition BoatIx_eqb (a b : BoatIx) : bool :=
  match a, b with
  | B1, B1 | B2, B2 | B3, B3 | B4, B4 => true
  | _, _ => false
  end.

Definition Adjustments : Type := BoatIx -> Adjustment.t.

Definition setAdjustment (ix : BoatIx) (a : Adjustment.t) (adj : Adjustments)
    : Adjustments :=
  fun jx => if BoatIx_eqb jx ix then a else adj jx.

Definition centerDistance (b1 b2 : BoatCollisionInfo.t) : R :=
  sqrt ((BoatCollisionInfo.x b1 - BoatCollisionInfo.x b2) ^ 2
        + (BoatCollisionInfo.y b1 - BoatCollisionInfo.y b2) ^ 2).

Definition pushDistance (boatRadius distance : R) : R :=
  Rmax ((boatRadius * 2 - distance) * 0.75) (boatRadius * 0.25).

(** The body of the loop over the pairs of [activeBoats]. *)
Definition resolvePair (boatRadius : R) (boat1 boat2 : BoatCollisionInfo.t)
    (adj : Adjustments) : Adjustments :=
  let distance := centerDistance boat1 boat2 in
  if Rltb distance (boatRadius * 2) then
    let collisionAngle :=
      atan2 (BoatCollisionInfo.y boat2 - BoatCollisionInfo.y boat1)
            (BoatCollisionInfo.x boat2 - BoatCollisionInfo.x boat1) in
    let pushDistance := pushDistance boatRadius distance in
    let pushX := cos collisionAngle * pushDistance in
    let pushY := sin collisionAngle * pushDistance in
    let adj :=
      setAdjustment (BoatCollisionInfo.id boat1)
        (Adjustment.mk (BoatCollisionInfo.x boat1 - pushX)
           (BoatCollisionInfo.y boat1 - pushY)
           (BoatCollisionInfo.speed boat1 * 0.95) true) adj in
    setAdjustment (BoatCollisionInfo.id boat2)
      (Adjustment.mk (BoatCollisionInfo.x boat2 + pushX)
         (BoatCollisionInfo.y boat2 + pushY)
         (BoatCollisionInfo.speed boat2 * 0.95) true) adj
  else adj.

(** [for (i ...) for (j = i + 1 ...)] over the list of the active boats. *)
Fixpoint pairLoop (boatRadius : R) (activeBoats : list BoatCollisionInfo.t)
    (adj : Adjustments) : Adjustments :=
  match activeBoats with
  | [] => adj
  | boat1 :: rest =>
      pairLoop boatRadius rest
        (fold_left (fun a boat2 => resolvePair boatRadius boat1 boat2 a)
           rest adj)
  end.

Definition collisionInfo (f : FrameInput) (ix : BoatIx) : BoatCollisionInfo.t :=
  BoatCollisionInfo.mk ix (fst (candidatePosition f ix))
    (snd (candidatePosition f ix)) (BoatState.speed (boatStateOf f ix)).

Definition activeBoats (f : FrameInput) : list BoatCollisionInfo.t :=
  [collisionInfo f B1; collisionInfo f B2]
  ++ (if (boatCount f >=? 3)%Z then [collisionInfo f B3] else [])
  ++ (if (boatCount f >=? 4)%Z then [collisionInfo f B4] else []).

(** The adjustments before the collision code: the candidate position,
    the speed of the state and no adjustment. *)
Definition initialAdjustments (f : FrameInput) : Adjustments :=
  fun ix =>
    Adjustment.mk (fst (candidatePosition f ix)) (snd (candidatePosition f ix))
      (BoatState.speed (boatStateOf f ix)) false.

(** The collision detection between the active boats of a frame. *)
Definition boatBoatCollisions (f : FrameInput) : Adjustments :=
  if (boatCount f >=? 2)%Z
  then pairLoop (boatRadius f) (activeBoats f) (initialAdjustments f)
  else initialAdjustments f.

(* ------------------------------------------------------------------ *)
(** * The wind store ([useWind.tsx]) *)

Inductive Season := sanfrancisco | longbeach | newportharbor.

Inductive WindChangeSpeed := slow | medium | rapid.
Inductive PuffFrequency := pfLow | pfMedium | pfHigh.
Inductive PuffDistribution := pdRandom | pdBiased.

Record LocationWindSettings := mkLocationWindSettings {
  windDirectionRange : R;
  windChangeSpeed : WindChangeSpeed;
  puffFrequency : PuffFrequency;
  puffDistribution : PuffDistribution;
  currentMin : R;
  currentMax : R;
  baseWindStrength : R;
  windMaxStrength : R
}.

Definition locationSettings (s : Season) : LocationWindSettings :=
  match s with
  | sanfrancisco =>
      mkLocationWindSettings 10 medium pfMedium pdRandom 2.0 5.0 16 28
  | longbeach =>
      mkLocationWindSettings 10 medium pfMedium pdBiased 0.0 1.5 5 28
  | newportharbor =>
      mkLocationWindSettings 20 rapid pfHigh pdRandom 0.0 0.0 5 12
  end.

Module WindCell.
Record t := mk { id : Z; x : R; y : R; radius : R; strength : R }.
End WindCell.

Record WindState := mkWindState {
  baseStrength : R;
  direction : R;
  cells : list WindCell.t;
  currentDirection : R;
  currentStrength : R;
  tick : Z
}.

(** [x % m]: the remainder has the sign of [x]. *)
Definition remainder (x m : R) : R := x - m * IZR (truncate (x / m)).

Definition Season_eqb (a b : Season) : bool :=
  match a, b with
  | sanfrancisco, sanfrancisco | longbeach, longbeach
  | newportharbor, newportharbor => true
  | _, _ => false
  end.

(** The shift of one call, from the two readings [random1] and [random2]
    of [Math.random()] in the order of the calls. *)
Definition randomShift (currentSeason : Season) (random1 random2 : R) : R :=
  let settings := locationSettings currentSeason in
  let shiftMagnitude :=
    match windChangeSpeed settings with
    | medium => 1.0
    | rapid => if Season_eqb currentSeason newportharbor then 4.0 else 2.0
    | slow => 0.5
    end in
  if Season_eqb currentSeason newportharbor then
    if Rgtb random1 0.5 then 2.0 else - 2.0
  else if Season_eqb currentSeason sanfrancisco then
    if Rltb random1 0.6 then - (random2 * shiftMagnitude + 0.5)
    else random2 * shiftMagnitude + 0.5
  else if Season_eqb currentSeason longbeach then
    (if Rgtb random1 0.5 then 1 else -1) * (random2 * shiftMagnitude)
  else random1 * 2 * shiftMagnitude - shiftMagnitude.

(** [(state.direction + randomShift) % 360], plus 360 when negative. *)
Definition normalizedDirection (direction randomShift : R) : R :=
  let newDirection := remainder (direction + randomShift) 360 in
  if Rltb newDirection 0 then newDirection + 360 else newDirection.

(** The tests that keep the direction within [range] degrees of North. *)
Definition cappedDirection (range newDirection : R) : R :=
  if Reqb newDirection 0 || Reqb newDirection 360 then 0
  else if Rgtb newDirection 0 && Rleb newDirection 180 then
    if Rgtb newDirection range then range else newDirection
  else
    if Rltb newDirection 360 && Rgtb newDirection 180
       && Rltb newDirection (360 - range)
    then 360 - range
    else newDirection.

(** The direction after the shift. *)
Definition shiftedDirection (range direction randomShift : R) : R :=
  cappedDirection range (normalizedDirection direction randomShift).

Definition updateWindDirection (currentSeason : Season) (random1 random2 : R)
    (state : WindState) : WindState :=
  let settings := locationSettings currentSeason in
  let newDirection :=
    shiftedDirection (windDirectionRange settings) (direction state)
      (randomShift currentSeason random1 random2) in
  mkWindState (baseStrength state) newDirection (cells state)
    (currentDirection state) (currentStrength state) (tick state + 1).

(** The calls of [updateWindDirection] of a race at one venue, each with
    its two random readings. *)
Definition updateWindDirections (currentSeason : Season)
    (randoms : list (R * R)) (state : WindState) : WindState :=
  fold_left
    (fun st r => updateWindDirection currentSeason (fst r) (snd r) st)
    randoms state.

(** The directions within [range] degrees of North. *)
Definition withinRange (range d : R) : Prop :=
  (0 <= d <= range) \/ (360 - range <= d < 360).

(* ------------------------------------------------------------------ *)
(** * Sample races and frames *)

(** A race of two boats of user 7, started at clock reading 1000. *)
Definition sampleSetup : RaceSetup :=
  mkRaceSetup 7 "Ann" "Boat 2" "Boat 3" "Boat 4" 2.

Definition sampleEvents : list Event :=
  [EvInitializeRace sampleSetup; EvStartCountdown; EvStartRace 1000].

Definition sampleSystem : System := run sampleEvents initialSystem.

(** The race of [sampleSystem] after the effect has put its two boats into
    the Start Leg and boat 1 has been recorded: a first call of
    [finishRace] ends the legs of boat 1, a second call records it. *)
Definition recordedSystem : System :=
  run [EvInitializeStages 2; EvFinishRace "boat-1" 5000;
       EvFinishRace "boat-1" 6000] sampleSystem.

(** The boat count of the settings is then set to 3 with the button of
    the standings, and the effect that initializes the stages runs
    again. *)
Definition restartedSystem : System :=
  applyEvent (EvInitializeStages 3) recordedSystem.

(** Boat 2 is recorded as well, in the race of [recordedSystem]. *)
Definition finishedSystem : System :=
  run [EvFinishRace "boat-2" 7000; EvFinishRace "boat-2" 8000] recordedSystem.

Definition sampleCourseLine : StartLine.t := StartLine.mk 300 350 700 350.

(** Two boats on a canvas of 1100 by 880 with a boat radius of 10: boat 1
    heads into a northerly wind, 30 below boat 2 and inside a puff. *)
Definition shadowFrame : FrameInput :=
  mkFrameInput 2 false false (1 / 60) 10 1100 880 0
    [Puff.mk 500 380 100 100 0.3 0.5]
    (Current.mk 0 0)
    (fun _ => false)
    sampleCourseLine (Mark.mk 500 100 7) (Mark.mk 500 600 7)
    (fun ix =>
       match ix with
       | B1 => BoatState.mk 500 380 0 0
       | B2 => BoatState.mk 500 350 0 0
       | _ => BoatState.mk 0 0 0 0
       end)
    (Some 1000%Z)
    (fun _ => 61000%Z)
    NotStarted NotStarted.

(** Boat 1 one unit south of the start line, midway between the posts,
    heading north; boat 2 away from the line. *)
Definition startFrame : FrameInput :=
  mkFrameInput 2 false false (1 / 60) 10 1100 880 0 []
    (Current.mk 0 0)
    (fun _ => false)
    (StartLine.mk 300 350 700 350) (Mark.mk 500 100 7) (Mark.mk 500 600 7)
    (fun ix =>
       match ix with
       | B1 => BoatState.mk 500 349 0 20
       | _ => BoatState.mk 900 700 0 0
       end)
    (Some 1000%Z)
    (fun _ => 61000%Z)
    NotStarted NotStarted.



Definition sampleWind : WindState := mkWindState 8 19 [] 0 0 0.

Local Close Scope R_scope.

Local Open Scope R_scope.

(* ------------------------------------------------------------------ *)
(** * The game settings store ([useGameSettings]) *)

Module GameSettings.

Record t := mk { boatCount : Z }.

(** The default of the store: two boats. *)
Definition initial : t := mk 2.

Definition setBoatCount (count : Z) (state : t) : t :=
  mk (Z.min (Z.max count 1) 4).

Definition incrementBoatCount (state : t) : t :=
  mk (Z.min (boatCount state + 1) 4).

Definition decrementBoatCount (state : t) : t :=
  mk (Z.max (boatCount state - 1) 1).

Definition toggleBoatMode (state : t) : t :=
  if (boatCount state =? 1)%Z then mk 2 else mk 1.

Inductive Action :=
  | SetBoatCount (count : Z)
  | IncrementBoatCount
  | DecrementBoatCount
  | ToggleBoatMode.

Definition act (a : Action) (state : t) : t :=
  match a with
  | SetBoatCount count => setBoatCount count state
  | IncrementBoatCount => incrementBoatCount state
  | DecrementBoatCount => decrementBoatCount state
  | ToggleBoatMode => toggleBoatMode state
  end.

Definition acts (l : list Action) (state : t) : t :=
  fold_left (fun s a => act a s) l state.

End GameSettings.

(** The setup [initializeRace] reads when the game settings are [s]. *)
Definition setupWith (s : GameSettings.t) (cfg : RaceSetup) : RaceSetup :=
  mkRaceSetup (actualUserId cfg) (boat1Name cfg) (boat2Name cfg)
    (boat3Name cfg) (boat4Name cfg) (GameSettings.boatCount s).

(* ------------------------------------------------------------------ *)
(** * The display of a time ([formatTime] of [SimpleGameCanvas.tsx]) *)

(** [s.padStart(targetLength, c)] for a pad string of one character. *)
Definition padStart (targetLength : nat) (c : ascii) (s : string) : string :=
  (fold_right String EmptyString
     (repeat c (targetLength - String.length s)%nat)
   ++ s)%string.

(** [ms] is a whole number of milliseconds; [%] is the remainder with the
    sign of the dividend. *)
Definition formatTime (ms : Z) : string :=
  let totalSeconds := (ms / 1000)%Z in
  let minutes := (totalSeconds / 60)%Z in
  let seconds := Z.rem totalSeconds 60 in
  let milliseconds := (Z.rem ms 1000 / 10)%Z in
  (padStart 2 "0"%char (JS.showZ minutes) ++ ":"
   ++ padStart 2 "0"%char (JS.showZ seconds) ++ "."
   ++ padStart 2 "0"%char (JS.showZ milliseconds))%string.

(** The two decimal digits of a number below 100. *)
Definition twoDigits (n : Z) : string :=
  String (ascii_of_nat (48 + Z.to_nat (n / 10)%Z)%nat)
    (String (ascii_of_nat (48 + Z.to_nat (n mod 10)%Z)%nat) EmptyString).

(* ------------------------------------------------------------------ *)
(** * The venues of the canvas ([useSeason.tsx]) *)

Module SeasonConfig.
(** The fields of an entry of [seasonConfig] that the frame reads; the
    two colours are not used. *)
Record t := mk {
  windShiftRange : R;
  windShiftSpeed : R;
  gusts : bool;
  gustProbability : R;
  gustStrength : R;
  puffFrequency : R;
  puffSize : R;
  puffOpacity : R;
  windVariability : R
}.
End SeasonConfig.

Definition seasonConfig (s : Season) : SeasonConfig.t :=
  match s with
  | sanfrancisco => SeasonConfig.mk 25 0.9 true 0.4 1.8 0.25 0.9 0.9 0.9
  | longbeach => SeasonConfig.mk 10 0.5 false 0.05 1.0 0.1 1.0 0.6 0.4
  | newportharbor => SeasonConfig.mk 15 0.7 true 0.2 1.3 0.15 1.2 0.7 0.7
  end.

(* ------------------------------------------------------------------ *)
(** * Wind puffs of the canvas *)

(** The readings of [Math.random()] that make one puff: the width, the
    ratio of the height, the place, the gust and the strength.  The
    reading of the curve factor and the fields [strength] and
    [curveFactor] of a puff are used by the drawing only. *)
Record PuffRandoms := mkPuffRandoms {
  rWidth : R;
  rRatio : R;
  rX : R;
  rGust : R;
  rStrength : R
}.

Definition newPuff (cfg : SeasonConfig.t) (boundaryMargin canvasWidth : R)
    (r : PuffRandoms) : Puff.t :=
  let basePuffWidth := (rWidth r * 100 + 50) * 1.8 in
  let puffWidth := basePuffWidth * SeasonConfig.puffSize cfg in
  let heightRatio := 0.5 + rRatio r * 0.4 in
  let puffHeight := puffWidth * heightRatio in
  let minX := boundaryMargin + puffWidth / 2 in
  let maxX := canvasWidth - boundaryMargin - puffWidth / 2 in
  let puffX := rX r * (maxX - minX) + minX in
  let isGust :=
    SeasonConfig.gusts cfg
    && Rltb (rGust r) (SeasonConfig.gustProbability cfg) in
  let windStrength :=
    0.3 + rStrength r * 0.7 * SeasonConfig.windVariability cfg in
  let windStrength :=
    if isGust
    then Rmin 1.0 (windStrength * SeasonConfig.gustStrength cfg)
    else windStrength in
  let speedBoost := 0.2 + windStrength * 0.2 in
  Puff.mk puffX (- puffHeight) puffWidth puffHeight speedBoost
    (SeasonConfig.puffOpacity cfg).

(** What the frame reads about the puffs besides [f]: the phase of the
    closure, the reading of [Math.random()] that decides whether a puff is
    made, and the readings that make it. *)
Record PuffTick := mkPuffTick {
  tickFrame : FrameInput;
  tickPhase : RacePhase;
  tickChance : R;
  tickRandoms : PuffRandoms
}.

(** [setWindPuffs((prev) => [...prev, newPuff])] under its condition. *)
Definition generatePuff (cfg : SeasonConfig.t) (t : PuffTick)
    (prev : list Puff.t) : list Puff.t :=
  let f := tickFrame t in
  if RacePhase_eqb (tickPhase t) Racing && negb (isPaused f)
     && Rltb (tickChance t) ((0.016 * SeasonConfig.puffFrequency cfg) / 0.1)
  then prev ++ [newPuff cfg (boundaryMargin f) (canvasWidth f) (tickRandoms t)]
  else prev.

(** The puffs move down and leave the list below the canvas. *)
Definition advancePuffs (t : PuffTick) (prev : list Puff.t) : list Puff.t :=
  let f := tickFrame t in
  if RacePhase_eqb (tickPhase t) Racing then
    if negb (isPaused f) then
      filter
        (fun puff => Rltb (Puff.y puff) (canvasHeight f + Puff.height puff))
        (map
           (fun puff =>
              Puff.mk (Puff.x puff) (Puff.y puff + 34.5 * deltaTime f)
                (Puff.width puff) (Puff.height puff) (Puff.speedBoost puff)
                (Puff.opacity puff))
           prev)
    else prev
  else prev.

(** The two updates of [windPuffs] of one frame, and of a list of
    frames. *)
Definition puffFrame (cfg : SeasonConfig.t) (t : PuffTick)
    (prev : list Puff.t) : list Puff.t :=
  advancePuffs t (generatePuff cfg t prev).

Definition puffFrames (cfg : SeasonConfig.t) (ts : list PuffTick)
    (prev : list Puff.t) : list Puff.t :=
  fold_left (fun puffs t => puffFrame cfg t puffs) ts prev.

(** A reading of [Math.random()]. *)
Definition isRandom (r : R) : Prop := 0 <= r < 1.

Definition puffRandomsOk (r : PuffRandoms) : Prop :=
  isRandom (rWidth r) /\ isRandom (rRatio r) /\ isRandom (rX r)
  /\ isRandom (rGust r) /\ isRandom (rStrength r).

(** A puff as [newPuff] makes it: a boost from 0.26 to 0.4 and an oval
    wider than high. *)
Definition puffOk (p : Puff.t) : Prop :=
  0.26 <= Puff.speedBoost p <= 0.4
  /\ 0 < Puff.height p < Puff.width p.

(* ------------------------------------------------------------------ *)
(** * The wind of the canvas *)

(** The component state [windDirection] and the ref [windTrendRef]. *)
Record CanvasWind := mkCanvasWind {
  canvasWindDirection : R;
  windTrend : R
}.

Definition initialCanvasWind : CanvasWind := mkCanvasWind 0 1.

(** The update of the wind direction of a frame; [random] is the reading
    of [Math.random()] that decides whether the wind shifts. *)
Definition shiftWind (currentSeason : Season) (f : FrameInput)
    (phase : RacePhase) (random : R) (w : CanvasWind) : CanvasWind :=
  let cfg := seasonConfig currentSeason in
  if RacePhase_eqb phase Racing && negb (isPaused f) then
    let shiftSpeed := SeasonConfig.windShiftSpeed cfg in
    let shiftRange := SeasonConfig.windShiftRange cfg in
    let updateFrequency :=
      if Season_eqb currentSeason sanfrancisco then 0.07
      else if Season_eqb currentSeason longbeach then 0.07
      else if Season_eqb currentSeason newportharbor then 0.15
      else 0.1 in
    if Rltb random
         (updateFrequency * deltaTime f * SeasonConfig.windVariability cfg)
    then
      let newDirection :=
        canvasWindDirection w + windTrend w * 0.5 * shiftSpeed in
      if Rgeb newDirection shiftRange then mkCanvasWind shiftRange (-1)
      else if Rleb newDirection (- shiftRange)
           then mkCanvasWind (- shiftRange) 1
           else mkCanvasWind newDirection (windTrend w)
    else w
  else w.

(** The updates of a list of frames, each with its phase and reading. *)
Definition shiftWinds (currentSeason : Season)
    (ticks : list (FrameInput * RacePhase * R)) (w : CanvasWind)
    : CanvasWind :=
  fold_left
    (fun w t => shiftWind currentSeason (fst (fst t)) (snd (fst t)) (snd t) w)
    ticks w.

(* ------------------------------------------------------------------ *)
(** * Steering *)

(** The two updates of the rotation of a boat: the key that turns left and
    the key that turns right. *)
Definition turnLeft (rotationSpeed rotation : R) : R :=
  let newRotation := rotation - rotationSpeed in
  if Rltb newRotation 0 then newRotation + 360 else newRotation.

Definition turnRight (rotationSpeed rotation : R) : R :=
  remainder (rotation + rotationSpeed) 360.

(** The rotation of a boat after the controls of a frame: the update of
    the left key is queued before the update of the right key. *)
Definition steer (f : FrameInput) (leftKey rightKey : bool) (rotation : R)
    : R :=
  let rotationSpeed := 60 * deltaTime f in
  let rotation :=
    if leftKey then turnLeft rotationSpeed rotation else rotation in
  if rightKey then turnRight rotationSpeed rotation else rotation.

(* ------------------------------------------------------------------ *)
(** * The course drawn by a frame *)

(** The values the frame stores into [startLineRef], [topMarkRef] and
    [bottomMarkRef], and its two buoys of the start line. *)
Definition courseStartLine (canvasWidth canvasHeight : R) : StartLine.t :=
  let centerX := canvasWidth / 2 in
  let startLineY := canvasHeight * 0.85 in
  let lineWidth := canvasWidth * 0.5 in
  StartLine.mk (centerX - lineWidth / 2) startLineY
    (centerX + lineWidth / 2) startLineY.

Definition courseTopMark (canvasWidth canvasHeight : R) : Mark.t :=
  let centerX := canvasWidth / 2 in
  let markRadius := Rmin canvasWidth canvasHeight * 0.01 in
  Mark.mk centerX (canvasHeight * 0.15) markRadius.

Definition courseBottomMark (canvasWidth canvasHeight boatRadius : R)
    : Mark.t :=
  let centerX := canvasWidth / 2 in
  let startLineY := canvasHeight * 0.85 in
  let markRadius := Rmin canvasWidth canvasHeight * 0.01 in
  let markSpacing := boatRadius * 2 in
  Mark.mk centerX (startLineY - markSpacing) markRadius.

Definition leftBuoyRef (f : FrameInput) : Mark.t :=
  let centerX := canvasWidth f / 2 in
  let startLineY := canvasHeight f * 0.85 in
  let lineWidth := canvasWidth f * 0.5 in
  let buoySize := Rmin (canvasWidth f) (canvasHeight f) * 0.015 in
  Mark.mk (centerX - lineWidth / 2) startLineY (buoySize / 2).

Definition rightBuoyRef (f : FrameInput) : Mark.t :=
  let centerX := canvasWidth f / 2 in
  let startLineY := canvasHeight f * 0.85 in
  let lineWidth := canvasWidth f * 0.5 in
  let buoySize := Rmin (canvasWidth f) (canvasHeight f) * 0.015 in
  Mark.mk (centerX + lineWidth / 2) startLineY (buoySize / 2).

(** The initial values of [boatState] to [boat4State]. *)
Definition initialBoatState (innerWidth innerHeight : R) (ix : BoatIx)
    : BoatState.t :=
  match ix with
  | B1 => BoatState.mk (innerWidth * 0.45) (innerHeight * 0.95) 0 0
  | B2 => BoatState.mk (innerWidth * 0.55) (innerHeight * 0.95) 0 0
  | B3 => BoatState.mk (innerWidth * 0.45) (innerHeight * 0.95) 0 0
  | B4 => BoatState.mk (innerWidth * 0.55) (innerHeight * 0.95) 0 0
  end.

(** A frame on the window [innerWidth] by [innerHeight]: the boat radius
    and the canvas are made from the window, and the refs hold the course
    the frame has drawn. *)
Definition onWindow (innerWidth innerHeight : R) (f : FrameInput) : Prop :=
  boatRadius f = boatRadiusOfWindow innerWidth innerHeight
  /\ canvasWidth f = canvasWidthOfWindow innerWidth
  /\ canvasHeight f = canvasHeightOfWindow innerHeight
  /\ startLineRef f = courseStartLine (canvasWidth f) (canvasHeight f)
  /\ topMarkRef f = courseTopMark (canvasWidth f) (canvasHeight f)
  /\ bottomMarkRef f
     = courseBottomMark (canvasWidth f) (canvasHeight f) (boatRadius f).

(* ------------------------------------------------------------------ *)
(** * Collisions with the marks and the buoys *)

Definition markDistance (px py : R) (o : Mark.t) : R :=
  sqrt ((px - Mark.x o) ^ 2 + (py - Mark.y o) ^ 2).

Definition markPushDistance (boatRadius : R) (o : Mark.t) (distance : R) : R :=
  Rmax ((boatRadius + Mark.radius o - distance) * 0.75) (boatRadius * 0.25).

(** One of the four tests of a boat: the boat at the candidate position
    [(px, py)], with the speed [speed] of its state, against [o]. *)
Definition obstacleCollision (boatRadius px py speed : R) (o : Mark.t)
    (a : Adjustment.t) : Adjustment.t :=
  let distance := markDistance px py o in
  if Rltb distance (boatRadius + Mark.radius o) then
    let collisionAngle := atan2 (py - Mark.y o) (px - Mark.x o) in
    let pushDistance := markPushDistance boatRadius o distance in
    Adjustment.mk (px + cos collisionAngle * pushDistance)
      (py + sin collisionAngle * pushDistance) (speed * 0.95) true
  else a.

(** The obstacles in the order of the tests. *)
Definition obstacles (f : FrameInput) : list Mark.t :=
  [topMarkRef f; bottomMarkRef f; leftBuoyRef f; rightBuoyRef f].

(** The four tests of boat [ix]. *)
Definition markCollisionsOf (f : FrameInput) (ix : BoatIx)
    (a : Adjustment.t) : Adjustment.t :=
  let p := candidatePosition f ix in
  let speed := BoatState.speed (boatStateOf f ix) in
  let a := obstacleCollision (boatRadius f) (fst p) (snd p) speed
             (topMarkRef f) a in
  let a := obstacleCollision (boatRadius f) (fst p) (snd p) speed
             (bottomMarkRef f) a in
  let a := obstacleCollision (boatRadius f) (fst p) (snd p) speed
             (leftBuoyRef f) a in
  obstacleCollision (boatRadius f) (fst p) (snd p) speed (rightBuoyRef f) a.

(** The condition around the four tests of a boat. *)
Definition checksMarks (f : FrameInput) (ix : BoatIx) : bool :=
  match ix with
  | B1 => true
  | B2 => (boatCount f =? 2)%Z
  | B3 => (boatCount f >=? 3)%Z
  | B4 => (boatCount f >=? 4)%Z
  end.

Definition markCollisions (f : FrameInput) (adj : Adjustments) : Adjustments :=
  fun ix => if checksMarks f ix then markCollisionsOf f ix (adj ix) else adj ix.

(** The adjustments at the end of the collision code of a frame. *)
Definition collisions (f : FrameInput) : Adjustments :=
  markCollisions f (boatBoatCollisions f).

(** The speed of every adjustment is 0.95 times the speed of the state
    of its boat. *)
Definition speedRule (f : FrameInput) (adj : Adjustments) : Prop :=
  forall k, Adjustment.needsAdjustment (adj k) = true ->
            Adjustment.speedAdjusted (adj k)
            = BoatState.speed (boatStateOf f k) * 0.95.

(** The condition around the update of the state of a boat. *)
Definition inPlay (f : FrameInput) (ix : BoatIx) : bool :=
  match ix with
  | B1 => true
  | B2 => (boatCount f >=? 2)%Z
  | B3 => (boatCount f >=? 3)%Z
  | B4 => (boatCount f >=? 4)%Z
  end.

(** The update of the position at the end of the physics: [prev] is the
    state the earlier updates of the frame have made. *)
Definition movedBoat (f : FrameInput) (ix : BoatIx) (prev : BoatState.t)
    : BoatState.t :=
  if inPlay f ix then
    let a := collisions f ix in
    let p := candidatePosition f ix in
    BoatState.mk
      (if Adjustment.needsAdjustment a then Adjustment.newXWithMarks a
       else fst p)
      (if Adjustment.needsAdjustment a then Adjustment.newYWithMarks a
       else snd p)
      (BoatState.rotation prev)
      (if Adjustment.needsAdjustment a then Adjustment.speedAdjusted a
       else BoatState.speed prev)
  else prev.

(** The updates of the state of boat [ix] a frame queues, in their order:
    the two steering keys, the speed, the position.  [leftKey] and
    [rightKey] tell which steering keys are down. *)
Definition nextBoatState (f : FrameInput) (phase : RacePhase)
    (leftKey rightKey : BoatIx -> bool) (ix : BoatIx) (prev : BoatState.t)
    : BoatState.t :=
  if RacePhase_eqb phase Racing && negb (isPaused f) then
    let steered :=
      if inPlay f ix then
        BoatState.mk (BoatState.x prev) (BoatState.y prev)
          (steer f (leftKey ix) (rightKey ix) (BoatState.rotation prev))
          (BoatState.speed prev)
      else prev in
    let sped :=
      if inPlay f ix then
        BoatState.mk (BoatState.x steered) (BoatState.y steered)
          (BoatState.rotation steered)
          (updatedSpeed f ix (BoatState.speed steered))
      else steered in
    movedBoat f ix sped
  else prev.

(* ------------------------------------------------------------------ *)
(** * The rest of the wind store ([useWind.tsx]) *)

Module WindInfo.
Record t := mk { strength : R; direction : R }.
End WindInfo.

(** The loop of [getWindAt] over the cells. *)
Definition strengthModifier (cells : list WindCell.t) (x y : R) : R :=
  fold_left
    (fun strengthModifier cell =>
       let distance :=
         sqrt ((x - WindCell.x cell) ^ 2 + (y - WindCell.y cell) ^ 2) in
       if Rltb distance (WindCell.radius cell) then
         let weight := 1 - distance / WindCell.radius cell in
         strengthModifier + WindCell.strength cell * weight
       else strengthModifier)
    cells 0.

Definition getWindAt (state : WindState) (x y : R) : WindInfo.t :=
  let finalStrength :=
    Rmax 1 (Rmin 10 (baseStrength state + strengthModifier (cells state) x y)) in
  WindInfo.mk finalStrength (direction state).

Definition getCurrentAt (state : WindState) (x y : R) : WindInfo.t :=
  WindInfo.mk (currentStrength state) (currentDirection state).

(** The component state [current] the canvas makes from the wind store:
    the speed is the strength in knots divided by 10. *)
Definition currentOfStore (state : WindState) : Current.t :=
  Current.mk (currentDirection state) (currentStrength state / 10).

(** The readings of one turn of the loop of [createWindCells]: the four
    readings of [Math.random()] for [x], [y], the radius and the strength,
    the second reading for [x] of a biased venue, and the clock. *)
Record CellDraw := mkCellDraw {
  rCellX : R;
  rCellXBiased : R;
  rCellY : R;
  rCellRadius : R;
  rCellStrength : R;
  cellNow : Z
}.

Definition cellDrawOk (d : CellDraw) : Prop :=
  isRandom (rCellX d) /\ isRandom (rCellXBiased d) /\ isRandom (rCellY d)
  /\ isRandom (rCellRadius d) /\ isRandom (rCellStrength d).

Definition PuffDistribution_eqb (a b : PuffDistribution) : bool :=
  match a, b with
  | pdRandom, pdRandom | pdBiased, pdBiased => true
  | _, _ => false
  end.

Definition PuffFrequency_eqb (a b : PuffFrequency) : bool :=
  match a, b with
  | pfLow, pfLow | pfMedium, pfMedium | pfHigh, pfHigh => true
  | _, _ => false
  end.

(** The cell of turn [i]. *)
Definition windCell (locationSetting : LocationWindSettings) (i : nat)
    (d : CellDraw) : WindCell.t :=
  let canvasWidth := 1000 in
  let canvasHeight := 800 in
  let x := rCellX d * canvasWidth in
  let x :=
    if PuffDistribution_eqb (puffDistribution locationSetting) pdBiased then
      let favorLeftSide := (Z.rem (cellNow d / 60000) 2 =? 0)%Z in
      if favorLeftSide then rCellXBiased d * (canvasWidth * 0.7)
      else canvasWidth * 0.3 + rCellXBiased d * (canvasWidth * 0.7)
    else x in
  WindCell.mk (Z.of_nat i) x (rCellY d * canvasHeight)
    (50 + rCellRadius d * 100)
    (IZR (Int_part (rCellStrength d * 5)) - 2).

(** [count] is a whole number: [Math.floor(count * 0.6)] is the quotient
    of [count * 6] by 10, and [Math.floor(count * 1.5)] that of
    [count * 15]. *)
Definition adjustedCount (count : Z) (locationSetting : LocationWindSettings)
    : Z :=
  let adjustedCount := count in
  let adjustedCount :=
    if PuffFrequency_eqb (puffFrequency locationSetting) pfLow
    then (count * 6 / 10)%Z else adjustedCount in
  if PuffFrequency_eqb (puffFrequency locationSetting) pfHigh
  then (count * 15 / 10)%Z else adjustedCount.

Definition createWindCells (count : Z) (locationSetting : LocationWindSettings)
    (draws : nat -> CellDraw) : list WindCell.t :=
  map (fun i => windCell locationSetting i (draws i))
    (seq 0 (Z.to_nat (adjustedCount count locationSetting))).

(** The readings of [initializeWind] before the cells. *)
Record WindDraw := mkWindDraw {
  rCurrentDirection : R;
  rCurrentStrength : R;
  rWindStrength : R;
  rSide : R;
  rDirection : R
}.

Definition windDrawOk (d : WindDraw) : Prop :=
  isRandom (rCurrentDirection d) /\ isRandom (rCurrentStrength d)
  /\ isRandom (rWindStrength d) /\ isRandom (rSide d)
  /\ isRandom (rDirection d).

Definition initializeWind (currentSeason : Season) (d : WindDraw)
    (draws : nat -> CellDraw) (state : WindState) : WindState :=
  let settings := locationSettings currentSeason in
  let randomCurrentDirection := rCurrentDirection d * 360 in
  let currentStrength :=
    if Reqb (currentMin settings) (currentMax settings)
    then currentMin settings
    else currentMin settings
         + rCurrentStrength d * (currentMax settings - currentMin settings) in
  let randomWindStrength :=
    if negb (Reqb (windMaxStrength settings) 0)
    then baseWindStrength settings
         + rWindStrength d
           * (windMaxStrength settings - baseWindStrength settings)
    else baseWindStrength settings in
  let initialWindDirection :=
    if Rgtb (rSide d) 0.5
    then rDirection d * windDirectionRange settings
    else 360 - rDirection d * windDirectionRange settings in
  mkWindState randomWindStrength initialWindDirection
    (createWindCells 10 settings draws)
    randomCurrentDirection currentStrength 0.

(** The readings of [updateWindCells] for one cell. *)
Record CellUpdateDraw := mkCellUpdateDraw {
  rDriftX : R;
  rDriftY : R;
  rChange : R;
  rUp : R
}.

Definition cellUpdateDrawOk (d : CellUpdateDraw) : Prop :=
  isRandom (rDriftX d) /\ isRandom (rDriftY d) /\ isRandom (rChange d)
  /\ isRandom (rUp d).

Definition updateCell (settings : LocationWindSettings) (d : CellUpdateDraw)
    (cell : WindCell.t) : WindCell.t :=
  let driftX := rDriftX d * 2 - 1 in
  let driftY := rDriftY d * 2 - 1 in
  let strengthChangeProb := 0.1 in
  let strengthChangeProb :=
    if PuffFrequency_eqb (puffFrequency settings) pfLow
    then 0.05 else strengthChangeProb in
  let strengthChangeProb :=
    if PuffFrequency_eqb (puffFrequency settings) pfHigh
    then 0.15 else strengthChangeProb in
  let newStrength :=
    if Rltb (rChange d) strengthChangeProb
    then Rmax (-2)
           (Rmin 2 (WindCell.strength cell
                    + (if Rgtb (rUp d) 0.5 then 1 else -1)))
    else WindCell.strength cell in
  WindCell.mk (WindCell.id cell) (WindCell.x cell + driftX)
    (WindCell.y cell + driftY) (WindCell.radius cell) newStrength.

(** [state.cells.map(...)]: [draws i] holds the readings for the cell at
    index [i]. *)
Fixpoint updateCellsFrom (settings : LocationWindSettings)
    (draws : nat -> CellUpdateDraw) (i : nat) (cells : list WindCell.t)
    : list WindCell.t :=
  match cells with
  | [] => []
  | cell :: rest =>
      updateCell settings (draws i) cell
      :: updateCellsFrom settings draws (S i) rest
  end.

Definition updateWindCells (currentSeason : Season)
    (draws : nat -> CellUpdateDraw) (state : WindState) : WindState :=
  let settings := locationSettings currentSeason in
  mkWindState (baseStrength state) (direction state)
    (updateCellsFrom settings draws 0 (cells state))
    (currentDirection state) (currentStrength state) (tick state).

(** The calls of [updateWindCells] of a race at one venue. *)
Definition updateWindCellsMany (currentSeason : Season)
    (drawss : list (nat -> CellUpdateDraw)) (state : WindState) : WindState :=
  fold_left (fun st draws => updateWindCells currentSeason draws st)
    drawss state.

(** A cell as [createWindCells] makes it: a radius from 50 to 150 and a
    whole strength from -2 to 2. *)
Definition cellOk (c : WindCell.t) : Prop :=
  50 <= WindCell.radius c < 150
  /\ exists k : Z, WindCell.strength c = IZR k /\ (-2 <= k <= 2)%Z.

(* ------------------------------------------------------------------ *)
(** * Wind helpers ([windUtils.ts]) *)

Module WindUtils.

Definition calculateWindEffect (position : Point.t)
    (windDirection windStrength deltaTime : R) : Point.t :=
  let windRad := (windDirection * PI) / 180 in
  let windForceX := sin windRad * windStrength in
  let windForceY := cos windRad * windStrength in
  let dx := windForceX * deltaTime in
  let dy := windForceY * deltaTime in
  Point.mk (Point.x position + dx) (Point.y position + dy).

Definition isInTurbulenceZone (position boatPosition : Point.t)
    (boatDirection windDirection : R) : bool :=
  let turbulenceLength := 160 in
  let turbulenceWidth := 20 in
  let turbulenceRad := (windDirection * PI) / 180 in
  let turbulenceEndX :=
    Point.x boatPosition + sin turbulenceRad * turbulenceLength in
  let turbulenceEndY :=
    Point.y boatPosition + cos turbulenceRad * turbulenceLength in
  let dx := Point.x position - Point.x boatPosition in
  let dy := Point.y position - Point.y boatPosition in
  let turbulenceLineX := turbulenceEndX - Point.x boatPosition in
  let turbulenceLineY := turbulenceEndY - Point.y boatPosition in
  let lineLengthSquared :=
    turbulenceLineX * turbulenceLineX + turbulenceLineY * turbulenceLineY in
  let t := (dx * turbulenceLineX + dy * turbulenceLineY) / lineLengthSquared in
  if Rltb t 0 || Rgtb t 1 then false
  else
    let closestX := Point.x boatPosition + t * turbulenceLineX in
    let closestY := Point.y boatPosition + t * turbulenceLineY in
    let distanceSquared :=
      (Point.x position - closestX) ^ 2 + (Point.y position - closestY) ^ 2 in
    Rleb distanceSquared (turbulenceWidth * turbulenceWidth).

(** A boat of the argument [boats]: its position and its rotation. *)
Fixpoint getEffectiveWindStrength (position : Point.t) (baseStrength : R)
    (boats : list (Point.t * R)) (windDirection : R) : R :=
  match boats with
  | [] => baseStrength
  | boat :: rest =>
      if isInTurbulenceZone position (fst boat) (snd boat) windDirection
      then Rmax 1 (baseStrength - 1)
      else getEffectiveWindStrength position baseStrength rest windDirection
  end.

Definition getWindArrowRotation (windDirection : R) : R := windDirection + 180.

End WindUtils.

(** The wind a boat of [GameCanvas.tsx] sails in: the wind of the store at
    its position, less the turbulence of the other boats. *)
Definition effectiveWind (state : WindState) (position : Point.t)
    (others : list (Point.t * R)) : R :=
  let windInfo := getWindAt state (Point.x position) (Point.y position) in
  WindUtils.getEffectiveWindStrength position (WindInfo.strength windInfo)
    others (WindInfo.direction windInfo).

(* ------------------------------------------------------------------ *)
(** * Sample values of the further code *)

(** A window of 1000 by 800 and the first racing frame on it: four boats
    at their initial places, no wind puff, no current. *)
Definition firstFrame : FrameInput :=
  mkFrameInput 4 false false (1 / 60)
    (boatRadiusOfWindow 1000 800)
    (canvasWidthOfWindow 1000) (canvasHeightOfWindow 800) 0 []
    (Current.mk 0 0)
    (fun _ => false)
    (courseStartLine (canvasWidthOfWindow 1000) (canvasHeightOfWindow 800))
    (courseTopMark (canvasWidthOfWindow 1000) (canvasHeightOfWindow 800))
    (courseBottomMark (canvasWidthOfWindow 1000) (canvasHeightOfWindow 800)
       (boatRadiusOfWindow 1000 800))
    (initialBoatState 1000 800)
    (Some 1000%Z)
    (fun _ => 1016%Z)
    NotStarted NotStarted.

(** Boat 1 of [startFrame] put 12 east of the top mark, which has a radius
    of 7; three boats in play. *)
Definition markFrame : FrameInput :=
  mkFrameInput 3 false false 0 10 1100 880 0 []
    (Current.mk 0 0)
    (fun _ => false)
    (StartLine.mk 300 350 700 350) (Mark.mk 500 100 7) (Mark.mk 500 600 7)
    (fun ix =>
       match ix with
       | B1 => BoatState.mk 512 100 0 20
       | B2 => BoatState.mk 500 600 0 10
       | _ => BoatState.mk 900 700 0 0
       end)
    (Some 1000%Z)
    (fun _ => 61000%Z)
    NotStarted NotStarted.

(** Four boats in play after the boat count was raised from 3 during the
    race: boat 3 is above the top mark, and the closure of the frame still
    holds the Second Upwind Leg for it. *)
Definition staleFrame : FrameInput :=
  mkFrameInput 4 false false (1 / 60) 10 1100 880 0 []
    (Current.mk 0 0)
    (fun _ => false)
    (StartLine.mk 300 350 700 350) (Mark.mk 500 100 7) (Mark.mk 500 600 7)
    (fun ix =>
       match ix with
       | B3 => BoatState.mk 500 90 0 20
       | _ => BoatState.mk 900 700 0 0
       end)
    (Some 1000%Z)
    (fun _ => 61000%Z)
    SecondUpwindLeg NotStarted.

Definition samplePuffRandoms : PuffRandoms := mkPuffRandoms 0.5 0.5 0.5 0.1 0.5.

Definition samplePuffTick : PuffTick :=
  mkPuffTick startFrame Racing 0 samplePuffRandoms.

Definition sampleCellDraw : CellDraw := mkCellDraw 0.5 0.5 0.5 0.5 0.5 0.

Definition sampleWindDraw : WindDraw := mkWindDraw 0.5 0.5 0.5 0.75 0.5.

Definition sampleCellUpdateDraw : CellUpdateDraw :=
  mkCellUpdateDraw 0.5 0.5 0.05 0.75.

Local Close Scope R_scope.
(* ------------------------------------------------------------------ *)
(** * Facts about the race store *)

Lemma stageOf_setStage_same ix s st : stageOf ix (setStage ix s st) = s.
Proof. destruct ix; reflexivity. Qed.

Lemma stageOf_setStage_other ix jx s st :
  ix <> jx -> stageOf jx (setStage ix s st) = stageOf jx st.
Proof. destruct ix, jx; intros H; try reflexivity; now elim H. Qed.

Lemma stageOf_set_phase ix p st : stageOf ix (set_phase p st) = stageOf ix st.
Proof. destruct ix; reflexivity. Qed.

Lemma stageOf_set_results ix rs st :
  stageOf ix (set_results rs st) = stageOf ix st.
Proof. destruct ix; reflexivity. Qed.

Lemma markFinished_boatIdOf ix st :
  markFinished (boatIdOf ix) st = setStage ix Finished st.
Proof. destruct ix; reflexivity. Qed.

(** [markFinished] writes nothing but ["Finished"], into one stage. *)
Lemma markFinished_stageOf boatId ix st :
  stageOf ix (markFinished boatId st) = stageOf ix st
  \/ stageOf ix (markFinished boatId st) = Finished.
Proof.
  unfold markFinished.
  repeat match goal with
         | |- context [if ?c then _ else _] => destruct c
         end; destruct ix; simpl; auto.
Qed.

Lemma markFinished_fields boatId st :
  phase (markFinished boatId st) = phase st
  /\ boats (markFinished boatId st) = boats st
  /\ results (markFinished boatId st) = results st.
Proof.
  unfold markFinished.
  repeat match goal with
         | |- context [if ?c then _ else _] => destruct c
         end; simpl; auto.
Qed.

(** The four ways through [finishRace]. *)
Lemma finishRace_cases boatId time st :
  (find (fun b => String.eqb (Boat.id b) boatId) (boats st) = None
   /\ finishRace boatId time st = st)
  \/ (exists boat,
        find (fun b => String.eqb (Boat.id b) boatId) (boats st) = Some boat
        /\ alreadyHasResult boat (boatNumberOfId boatId) st = true
        /\ finishRace boatId time st = st)
  \/ (exists boat,
        find (fun b => String.eqb (Boat.id b) boatId) (boats st) = Some boat
        /\ alreadyHasResult boat (boatNumberOfId boatId) st = false
        /\ hasCompletedAllStages boatId st = false
        /\ finishRace boatId time st = markFinished boatId st)
  \/ (exists boat,
        find (fun b => String.eqb (Boat.id b) boatId) (boats st) = Some boat
        /\ alreadyHasResult boat (boatNumberOfId boatId) st = false
        /\ hasCompletedAllStages boatId st = true
        /\ finishRace boatId time st =
           let updates :=
             markFinished boatId
               (set_results (updatedResults boat boatId time st) st) in
           if (List.length (boats st) <=? List.length (results st) + 1)%nat
           then set_phase PhaseFinished updates else updates).
Proof.
  unfold finishRace.
  destruct (find _ (boats st)) as [boat|]; [|now left].
  right.
  destruct (alreadyHasResult boat _ st) eqn:Hdup;
    [left; now exists boat|right].
  destruct (hasCompletedAllStages boatId st) eqn:Hc; cbn [negb];
    [right | left]; now exists boat.
Qed.

Lemma finishRace_stageOf boatId time ix st :
  stageOf ix (finishRace boatId time st) = stageOf ix st
  \/ stageOf ix (finishRace boatId time st) = Finished.
Proof.
  destruct (finishRace_cases boatId time st)
    as [[_ ->] | [(b & _ & _ & ->) | [(b & _ & _ & _ & ->)
                                     | (b & _ & _ & _ & ->)]]]; auto.
  - apply markFinished_stageOf.
  - cbv zeta. destruct (_ <=? _)%nat; rewrite ?stageOf_set_phase;
      match goal with
      | |- context [markFinished ?i ?s] =>
          destruct (markFinished_stageOf i ix s) as [H|H]
      end; rewrite H, ?stageOf_set_results; auto.
Qed.

Lemma finishRace_boats boatId time st :
  boats (finishRace boatId time st) = boats st.
Proof.
  destruct (finishRace_cases boatId time st)
    as [[_ ->] | [(b & _ & _ & ->) | [(b & _ & _ & _ & ->)
                                     | (b & _ & _ & _ & ->)]]]; auto.
  - now destruct (markFinished_fields boatId st) as (_ & -> & _).
  - cbv zeta. destruct (_ <=? _)%nat; cbn [set_phase boats];
      match goal with
      | |- context [markFinished ?i ?s] =>
          destruct (markFinished_fields i s) as (_ & -> & _)
      end; reflexivity.
Qed.



(* ------------------------------------------------------------------ *)
(** * Facts about the stage tracking *)

Ltac split_ifs :=
  repeat match goal with
         | |- context [if ?c then _ else _] => destruct c
         end.

Lemma finishRace_boatIdOf_other ix jx time st :
  ix <> jx ->
  stageOf jx (finishRace (boatIdOf ix) time st) = stageOf jx st.
Proof.
  intros Hne.
  destruct (finishRace_cases (boatIdOf ix) time st)
    as [[_ ->] | [(b & _ & _ & ->) | [(b & _ & _ & _ & ->)
                                     | (b & _ & _ & _ & ->)]]]; auto.
  - now rewrite markFinished_boatIdOf, stageOf_setStage_other.
  - cbv zeta. destruct (_ <=? _)%nat; rewrite ?stageOf_set_phase;
      rewrite markFinished_boatIdOf, stageOf_setStage_other by assumption;
      apply stageOf_set_results.
Qed.

Lemma finishRace_keeps_Finished boatId time ix st :
  stageOf ix st = Finished ->
  stageOf ix (finishRace boatId time st) = Finished.
Proof.
  intros H. destruct (finishRace_stageOf boatId time ix st) as [E|E];
    congruence.
Qed.

(** The checks of boat [ix] leave the stages of the other boats alone. *)
Lemma boatProgression_other ix jx f stage sys :
  ix <> jx ->
  stageOf jx (snd (boatProgression ix f stage sys)) = stageOf jx (snd sys).
Proof.
  intros Hne. unfold boatProgression.
  destruct stage; cbn [RaceStage_eqb andb];
    split_ifs; cbn [fst snd];
    rewrite ?stageOf_setStage_other by assumption; try reflexivity.
  all: rewrite ?finishRace_boatIdOf_other by assumption;
    rewrite ?stageOf_setStage_other by assumption; reflexivity.
Qed.


(** Started with the stage of the closure of a boat that the frame has
    just moved from Not Started to Start Leg, the checks do nothing. *)
Lemma boatProgression_NotStarted ix f sys :
  boatProgression ix f NotStarted sys = sys.
Proof. reflexivity. Qed.

(** One run of the checks of boat [ix], whatever the constant [stage] they
    compare, leaves the stage of the store or writes the stage that
    follows [stage]. *)
Lemma boatProgression_writes ix f stage sys :
  stageOf ix (snd (boatProgression ix f stage sys)) = stageOf ix (snd sys)
  \/ stageIndex (stageOf ix (snd (boatProgression ix f stage sys)))
     = S (stageIndex stage).
Proof.
  unfold boatProgression.
  destruct stage; cbn [RaceStage_eqb andb];
    split_ifs; cbn [fst snd]; rewrite ?stageOf_setStage_same; auto.
  all: right;
    rewrite ?finishRace_keeps_Finished, ?stageOf_setStage_same;
    rewrite ?stageOf_setStage_same; reflexivity.
Qed.


Lemma RaceStage_eqb_eq a b : RaceStage_eqb a b = true <-> a = b.
Proof. destruct a, b; simpl; split; intros H; try reflexivity; discriminate. Qed.

Lemma forceStartLeg_stageOf f st jx :
  stageOf jx (forceStartLeg f st) = stageOf jx st
  \/ (stageOf jx st = NotStarted /\ stageOf jx (forceStartLeg f st) = StartLeg).
Proof.
  unfold forceStartLeg.
  destruct (RaceStage_eqb (boat1Stage st) NotStarted) eqn:E1;
    destruct ((boatCount f >=? 2)%Z
              && RaceStage_eqb (boat2Stage st) NotStarted) eqn:E2;
    destruct ((boatCount f >=? 3)%Z
              && RaceStage_eqb (boat3Stage st) NotStarted) eqn:E3;
    destruct ((boatCount f >=? 4)%Z
              && RaceStage_eqb (boat4Stage st) NotStarted) eqn:E4;
    destruct jx; cbn; auto; right; split; auto;
    repeat match goal with
           | H : _ && _ = true |- _ => apply andb_prop in H as [_ H]
           end;
    now apply RaceStage_eqb_eq.
Qed.





Lemma initializeStages_fields n st :
  phase (initializeStages n st) = phase st
  /\ boats (initializeStages n st) = boats st
  /\ results (initializeStages n st) = results st.
Proof.
  unfold initializeStages.
  destruct (RacePhase_eqb (phase st) Racing); [|auto].
  destruct (_ || _); [|auto].
  destruct (n >=? 2)%Z, (n >=? 3)%Z, (n >=? 4)%Z; cbn; auto.
Qed.


(* ------------------------------------------------------------------ *)
(** * Sorting and ranking of the results *)

Lemma insertByFinishTime_perm r l :
  Permutation (insertByFinishTime r l) (r :: l).
Proof.
  induction l as [|h t IH]; cbn; [reflexivity|].
  destruct (_ <=? _)%Z; [reflexivity|].
  rewrite IH. apply perm_swap.
Qed.

Lemma sortByFinishTime_perm l : Permutation (sortByFinishTime l) l.
Proof.
  induction l as [|r l IH]; cbn; [reflexivity|].
  rewrite insertByFinishTime_perm. now constructor.
Qed.



Lemma assignPositions_length i l :
  List.length (assignPositions i l) = List.length l.
Proof. revert i; induction l; intros; cbn; auto. Qed.

Lemma assignPositions_finishTime i l :
  map RaceResult.finishTime (assignPositions i l)
  = map RaceResult.finishTime l.
Proof. revert i; induction l; intros; cbn; f_equal; auto. Qed.

Lemma assignPositions_boatNumber i l :
  map RaceResult.boatNumber (assignPositions i l)
  = map RaceResult.boatNumber l.
Proof. revert i; induction l; intros; cbn; f_equal; auto. Qed.

Lemma assignPositions_userId i l :
  map RaceResult.userId (assignPositions i l) = map RaceResult.userId l.
Proof. revert i; induction l; intros; cbn; f_equal; auto. Qed.


(** Every ranked result is an input result with a new position. *)
Lemma assignPositions_In i l r' :
  In r' (assignPositions i l) ->
  exists r p, In r l /\ r' = RaceResult.withPosition p r.
Proof.
  revert i; induction l as [|r l IH]; intros i; cbn; [tauto|].
  intros [<- | H].
  - exists r, (i + 1)%Z. auto.
  - destruct (IH _ H) as (r0 & p & Hin & ->). exists r0, p. auto.
Qed.


Lemma updatedResults_length boat boatId time st :
  List.length (updatedResults boat boatId time st)
  = S (List.length (results st)).
Proof.
  unfold updatedResults.
  rewrite assignPositions_length, (Permutation_length (sortByFinishTime_perm _)).
  rewrite length_app. cbn. lia.
Qed.

(* ------------------------------------------------------------------ *)
(** * The invariant of the race store *)

Lemma boatNumberOfId_boatIdOf ix :
  boatNumberOfId (boatIdOf ix) = Some (boatNumberOf ix).
Proof. destruct ix; vm_compute; reflexivity. Qed.

Lemma boatNumberOf_inj ix jx : boatNumberOf ix = boatNumberOf jx -> ix = jx.
Proof. destruct ix, jx; cbn; intros H; try reflexivity; discriminate. Qed.

Lemma initialBoats_ids cfg b :
  In b (initialBoats cfg) ->
  (exists ix, Boat.id b = boatIdOf ix) /\ Boat.userId b = actualUserId cfg.
Proof.
  unfold initialBoats.
  destruct (_ >? 1)%Z; [destruct (_ >? 2)%Z; [destruct (_ >? 3)%Z|]|];
    cbn; intros H;
    repeat (destruct H as [<- | H]; [split; [|reflexivity]|]);
    try contradiction.
  all: first [ now exists B1 | now exists B2 | now exists B3 | now exists B4 ].
Qed.

Lemma boatsWellFormed_ids st b :
  boatsWellFormed st -> In b (boats st) -> exists ix, Boat.id b = boatIdOf ix.
Proof.
  intros [E | [cfg E]] Hin; rewrite E in Hin; [contradiction|].
  now apply initialBoats_ids with (cfg := cfg).
Qed.

Lemma boatsWellFormed_userId st b b' :
  boatsWellFormed st -> In b (boats st) -> In b' (boats st) ->
  Boat.userId b = Boat.userId b'.
Proof.
  intros [E | [cfg E]] Hin Hin'; rewrite E in Hin, Hin'; [contradiction|].
  apply initialBoats_ids in Hin, Hin'.
  destruct Hin as [_ ->], Hin' as [_ ->]. reflexivity.
Qed.

Lemma Inv_no_results st :
  boatsWellFormed st -> results st = [] -> phase st <> PhaseFinished -> Inv st.
Proof.
  intros Hb Hr Hp. unfold Inv. rewrite Hr. repeat split; auto.
  - intros r [].
  - constructor.
  - intros; contradiction.
Qed.

(** A write to the store that keeps boats and results and ends no race
    keeps the invariant. *)
Lemma Inv_stages st st' :
  Inv st ->
  boats st' = boats st -> results st' = results st ->
  (phase st' = PhaseFinished -> phase st = PhaseFinished) ->
  Inv st'.
Proof.
  intros (Hb & Hr & Hn & Hp) Eb Er Ep. unfold Inv, boatsWellFormed.
  rewrite Eb, Er. repeat split; auto.
Qed.

Lemma Inv_setStage ix s st : Inv st -> Inv (setStage ix s st).
Proof.
  intros HI. apply Inv_stages with (st := st); try assumption;
    try (destruct ix; reflexivity).
  destruct ix; cbn; auto.
Qed.

Lemma Inv_markFinished boatId st : Inv st -> Inv (markFinished boatId st).
Proof.
  intros HI. destruct (markFinished_fields boatId st) as (Ep & Eb & Er).
  apply Inv_stages with (st := st); auto.
  now rewrite Ep.
Qed.

Lemma alreadyHasResult_false boat n st r :
  alreadyHasResult boat (Some n) st = false ->
  In r (results st) -> RaceResult.userId r = Boat.userId boat ->
  RaceResult.boatNumber r <> Some n.
Proof.
  unfold alreadyHasResult. intros He Hin Hu Hn.
  assert (existsb
            (fun r => (RaceResult.userId r =? Boat.userId boat)%Z
                      && JS.numStrictEq (RaceResult.boatNumber r) (Some n))
            (results st) = true); [|congruence].
  apply existsb_exists. exists r. split; [assumption|].
  rewrite Hu, Hn, Z.eqb_refl. cbn. apply Z.eqb_refl.
Qed.

Lemma find_id_some boatId bs boat :
  find (fun b => String.eqb (Boat.id b) boatId) bs = Some boat ->
  In boat bs /\ Boat.id boat = boatId.
Proof.
  intros H. apply find_some in H as [Hin He].
  split; [assumption|]. now apply String.eqb_eq.
Qed.

Lemma Inv_finishRace boatId time st : Inv st -> Inv (finishRace boatId time st).
Proof.
  intros HI.
  destruct (finishRace_cases boatId time st)
    as [[_ ->] | [(b & _ & _ & ->) | [(b & _ & _ & _ & ->)
                                     | (b & Hf & Hdup & Hc & ->)]]]; auto.
  - now apply Inv_markFinished.
  - (* a result is recorded *)
    destruct HI as (Hb & Hr & Hn & Hp).
    apply find_id_some in Hf as [Hin Hid].
    destruct (boatsWellFormed_ids st b Hb Hin) as [ix Hix].
    rewrite Hix in Hid. subst boatId.
    rewrite boatNumberOfId_boatIdOf in Hdup.
    set (rs := updatedResults b (boatIdOf ix) time st).
    assert (Hbase : Inv (setStage ix Finished (set_results rs st))).
    { unfold Inv, boatsWellFormed.
      replace (boats (setStage ix Finished (set_results rs st)))
        with (boats st) by (destruct ix; reflexivity).
      replace (results (setStage ix Finished (set_results rs st)))
        with rs by (destruct ix; reflexivity).
      replace (phase (setStage ix Finished (set_results rs st)))
        with (phase st) by (destruct ix; reflexivity).
      repeat split; auto.
      - intros r' Hr'. unfold rs, updatedResults in Hr'.
        apply assignPositions_In in Hr' as (r & p & Hr0 & ->).
        apply (Permutation_in _ (sortByFinishTime_perm _)) in Hr0.
        apply in_app_or in Hr0 as [Hold | [<- | []]].
        + destruct (Hr r Hold) as (jx & H1 & H3 & H4).
          exists jx. cbn. repeat split; auto.
        + exists ix. cbn. rewrite boatNumberOfId_boatIdOf.
          repeat split.
          * rewrite <- Hix. now apply in_map.
          * intros b' Hb'. now apply (boatsWellFormed_userId st).
      - unfold rs, updatedResults.
        rewrite assignPositions_boatNumber.
        apply (Permutation_NoDup
                 (Permutation_sym
                    (Permutation_map _ (sortByFinishTime_perm _)))).
        rewrite map_app. cbn. rewrite boatNumberOfId_boatIdOf.
        apply NoDup_app_remove_l with (l := []). cbn.
        apply (Permutation_NoDup (Permutation_cons_append _ _)).
        constructor; [|assumption].
        intros Hmem. apply in_map_iff in Hmem as (r & Hrn & Hrin).
        destruct (Hr r Hrin) as (jx & _ & _ & H4).
        apply (alreadyHasResult_false b _ st r Hdup Hrin); auto.
      - intros Hph. unfold rs. rewrite updatedResults_length.
        specialize (Hp Hph). lia. }
    cbv zeta. rewrite markFinished_boatIdOf. fold rs.
    destruct (Nat.leb_spec (List.length (boats st))
                (List.length (results st) + 1)); [|exact Hbase].
    destruct Hbase as (Hb' & Hr' & Hn' & Hp').
    unfold Inv, boatsWellFormed. cbn [set_phase boats results phase].
    repeat split; auto.
    intros _.
    replace (results (setStage ix Finished (set_results rs st)))
      with rs by (destruct ix; reflexivity).
    replace (boats (setStage ix Finished (set_results rs st)))
      with (boats st) by (destruct ix; reflexivity).
    unfold rs. rewrite updatedResults_length. lia.
Qed.

(* ------------------------------------------------------------------ *)
(** * Invariants of the frames *)

Section FrameInvariant.

Variable P : RaceState -> Prop.

(** [P] survives every write of a stage and every call of [finishRace]. *)
Hypothesis P_setStage : forall ix s st, P st -> P (setStage ix s st).
Hypothesis P_finishRace : forall boatId time st,
  P st -> P (finishRace boatId time st).

Lemma boatProgression_invariant ix f stage sys :
  P (snd sys) -> P (snd (boatProgression ix f stage sys)).
Proof.
  intros HP. unfold boatProgression.
  destruct stage; cbn [RaceStage_eqb andb];
    split_ifs; cbn [fst snd]; try assumption;
    try apply P_finishRace;
    apply P_setStage; assumption.
Qed.

Lemma forceStartLeg_invariant f st : P st -> P (forceStartLeg f st).
Proof.
  intros HP. unfold forceStartLeg.
  destruct (RaceStage_eqb (boat1Stage st) NotStarted);
    destruct ((boatCount f >=? 2)%Z
              && RaceStage_eqb (boat2Stage st) NotStarted);
    destruct ((boatCount f >=? 3)%Z
              && RaceStage_eqb (boat3Stage st) NotStarted);
    destruct ((boatCount f >=? 4)%Z
              && RaceStage_eqb (boat4Stage st) NotStarted);
    repeat first [ assumption
                 | apply (P_setStage B1) | apply (P_setStage B2)
                 | apply (P_setStage B3) | apply (P_setStage B4) ].
Qed.

Lemma frame_invariant f sys : P (snd sys) -> P (snd (frame f sys)).
Proof.
  intros HP. unfold frame, stageTracking.
  destruct (RacePhase_eqb _ _ && _); [|exact HP].
  destruct (boatCount f >=? 2)%Z, (boatCount f >=? 3)%Z, (boatCount f >=? 4)%Z;
    repeat apply boatProgression_invariant;
    now apply forceStartLeg_invariant.
Qed.

End FrameInvariant.

Lemma applyEvent_Inv e sys : Inv (snd sys) -> Inv (snd (applyEvent e sys)).
Proof.
  intros HI.
  destruct e as [cfg | | n | | now | boatId time | f];
    cbn [applyEvent snd] in *.
  - apply Inv_no_results; cbn; [right; now exists cfg | reflexivity | discriminate].
  - apply Inv_no_results; cbn; [now left | reflexivity | discriminate].
  - (* the effect writes stages only *)
    destruct (initializeStages_fields n (snd sys)) as (Ep & Eb & Er).
    apply Inv_stages with (st := snd sys); auto. now rewrite Ep.
  - apply Inv_stages with (st := snd sys); auto; discriminate.
  - apply Inv_stages with (st := snd sys); auto; discriminate.
  - now apply Inv_finishRace.
  - apply frame_invariant; auto using Inv_setStage, Inv_finishRace.
Qed.

Lemma reachable_Inv sys : reachable sys -> Inv (snd sys).
Proof.
  induction 1 as [|e sys _ IH].
  - apply Inv_no_results; cbn; [now left | reflexivity | discriminate].
  - now apply applyEvent_Inv.
Qed.




Lemma reachable_run evs : forall sys,
  reachable sys -> reachable (run evs sys).
Proof.
  induction evs as [|e evs IH]; intros sys H; [exact H|].
  apply (IH (applyEvent e sys)). now constructor.
Qed.

Lemma reachable_sampleSystem : reachable sampleSystem.
Proof. apply reachable_run, reachable_initial. Qed.


(** When as many results as boats are recorded, every boat has one. *)
Lemma Inv_all_recorded st b :
  Inv st ->
  (List.length (boats st) <= List.length (results st))%nat ->
  In b (boats st) ->
  alreadyHasResult b (boatNumberOfId (Boat.id b)) st = true.
Proof.
  intros (Hb & Hr & Hn & _) Hlen Hin.
  set (L := map RaceResult.boatNumber (results st)).
  set (M := map (fun b => boatNumberOfId (Boat.id b)) (boats st)).
  assert (HLM : incl L M).
  { intros n Hn'. unfold L in Hn'.
    apply in_map_iff in Hn' as (r & <- & Hrin).
    destruct (Hr r Hrin) as (ix & H1 & H3 & _).
    apply in_map_iff in H3 as (b' & Hb'id & Hb'in).
    unfold M. apply in_map_iff. exists b'. split; [|assumption].
    now rewrite Hb'id, boatNumberOfId_boatIdOf. }
  assert (HML : incl M L).
  { apply NoDup_length_incl; [exact Hn | | exact HLM].
    unfold M, L. rewrite !length_map. exact Hlen. }
  assert (HbL : In (boatNumberOfId (Boat.id b)) L).
  { apply HML. unfold M.
    now apply (in_map (fun b => boatNumberOfId (Boat.id b))). }
  unfold L in HbL. apply in_map_iff in HbL as (r & Hrn & Hrin).
  unfold alreadyHasResult. apply existsb_exists. exists r.
  split; [assumption|].
  destruct (Hr r Hrin) as (ix & H1 & _ & H4).
  rewrite (H4 b Hin), Z.eqb_refl, <- Hrn, H1. cbn. apply Z.eqb_refl.
Qed.

(* ------------------------------------------------------------------ *)
(** * Facts about the comparisons *)

Local Open Scope R_scope.

Lemma Rltb_true_iff a b : Rltb a b = true <-> a < b.
Proof. unfold Rltb. destruct (Rlt_dec a b); split; auto; discriminate. Qed.

Lemma Rltb_false_iff a b : Rltb a b = false <-> b <= a.
Proof.
  unfold Rltb. destruct (Rlt_dec a b); split; intros; try discriminate;
    try reflexivity; lra.
Qed.

Lemma Rleb_true_iff a b : Rleb a b = true <-> a <= b.
Proof. unfold Rleb. destruct (Rle_dec a b); split; auto; discriminate. Qed.

Lemma Rleb_false_iff a b : Rleb a b = false <-> b < a.
Proof.
  unfold Rleb. destruct (Rle_dec a b); split; intros; try discriminate;
    try reflexivity; lra.
Qed.

Lemma Reqb_true_iff a b : Reqb a b = true <-> a = b.
Proof. unfold Reqb. destruct (Req_dec_T a b); split; auto; discriminate. Qed.

Lemma Reqb_false_iff a b : Reqb a b = false <-> a <> b.
Proof.
  unfold Reqb. destruct (Req_dec_T a b); split; intros H;
    try discriminate; try reflexivity; try assumption.
  now elim H.
Qed.

(** Decide the comparisons of a goal by cases, with linear arithmetic in
    each case. *)
Ltac r_cases :=
  unfold Rgtb, Rgeb, Rltb, Rleb, Reqb in *;
  repeat match goal with
         | |- context [Rlt_dec ?a ?b] => destruct (Rlt_dec a b)
         | |- context [Rle_dec ?a ?b] => destruct (Rle_dec a b)
         | |- context [Req_dec_T ?a ?b] => destruct (Req_dec_T a b)
         | H : context [Rlt_dec ?a ?b] |- _ => destruct (Rlt_dec a b)
         | H : context [Rle_dec ?a ?b] |- _ => destruct (Rle_dec a b)
         | H : context [Req_dec_T ?a ?b] |- _ => destruct (Req_dec_T a b)
         end;
  cbn [andb orb negb] in *.

(** Arithmetic on numerals under [Rabs]. *)
Ltac r_arith := unfold Rabs; repeat destruct (Rcase_abs _); lra.

(** Evaluate the comparisons of a goal whose numbers are numerals. *)
Ltac r_eval :=
  unfold Rgtb, Rgeb;
  repeat match goal with
         | |- context [Rltb ?a ?b] =>
             first [ replace (Rltb a b) with true
                       by (symmetry; apply Rltb_true_iff; r_arith)
                   | replace (Rltb a b) with false
                       by (symmetry; apply Rltb_false_iff; r_arith) ]
         | |- context [Rleb ?a ?b] =>
             first [ replace (Rleb a b) with true
                       by (symmetry; apply Rleb_true_iff; r_arith)
                   | replace (Rleb a b) with false
                       by (symmetry; apply Rleb_false_iff; r_arith) ]
         | |- context [Reqb ?a ?b] =>
             first [ replace (Reqb a b) with true
                       by (symmetry; apply Reqb_true_iff; r_arith)
                   | replace (Reqb a b) with false
                       by (symmetry; apply Reqb_false_iff; r_arith) ]
         end.

(* ------------------------------------------------------------------ *)
(** * Facts about the wind shadow and the wind efficiency *)

Lemma isInTurbulenceZone_spec boatPos blockingBoatPos rotation shadowLength :
  isInTurbulenceZone false boatPos blockingBoatPos rotation shadowLength = true
  <-> Point.y boatPos > Point.y blockingBoatPos
      /\ sqrt ((Point.x boatPos - Point.x blockingBoatPos) ^ 2
               + (Point.y boatPos - Point.y blockingBoatPos) ^ 2)
         <= shadowLength
      /\ Rabs (Point.x boatPos - Point.x blockingBoatPos)
         < (sqrt ((Point.x boatPos - Point.x blockingBoatPos) ^ 2
                  + (Point.y boatPos - Point.y blockingBoatPos) ^ 2)
            / shadowLength) * (shadowLength * 0.5).
Proof.
  unfold isInTurbulenceZone.
  set (d := sqrt _).
  destruct (Rleb (Point.y boatPos) (Point.y blockingBoatPos)) eqn:Ey.
  { apply Rleb_true_iff in Ey. split; [discriminate|]. lra. }
  apply Rleb_false_iff in Ey.
  unfold Rgtb. destruct (Rltb shadowLength d) eqn:Ed.
  { apply Rltb_true_iff in Ed. split; [discriminate|]. lra. }
  apply Rltb_false_iff in Ed.
  rewrite Rltb_true_iff. tauto.
Qed.

(** In irons no puff changes the wind efficiency. *)
Lemma applyWindPuffs_in_irons relAngle bx by_ eff puffs :
  relAngle < 30 -> applyWindPuffs relAngle bx by_ eff puffs = eff.
Proof.
  intros H. induction puffs as [|p ps IH]; cbn [applyWindPuffs]; [reflexivity|].
  destruct (Rltb _ 1); [|exact IH].
  unfold Rgeb. destruct (Rleb 30 relAngle) eqn:E; [|reflexivity].
  apply Rleb_true_iff in E. lra.
Qed.

Lemma bandEfficiency_in_irons relAngle :
  relAngle < 30 -> bandEfficiency relAngle = 0.
Proof.
  intros H. unfold bandEfficiency.
  now replace (Rltb relAngle 30) with true by (symmetry; now apply Rltb_true_iff).
Qed.

(** Out of every wind shadow a boat in irons has no drive. *)
Lemma in_irons_unshadowed_maxSpeed f ix :
  relativeAngle (windDirection f) (BoatState.rotation (boatStateOf f ix)) < 30 ->
  isInWindShadow f ix = false ->
  maxSpeedOf f ix = 0.
Proof.
  intros Hrel Hsh. unfold maxSpeedOf, windEfficiencyOf.
  rewrite applyWindPuffs_in_irons by assumption.
  unfold shadowedEfficiency. rewrite Hsh, bandEfficiency_in_irons by assumption.
  lra.
Qed.

(* ------------------------------------------------------------------ *)
(** * Facts about the boundary of the canvas *)

Lemma boundaryConstraint_range margin limit v :
  margin <= limit - margin ->
  margin <= boundaryConstraint margin limit v <= limit - margin.
Proof. intros H. unfold boundaryConstraint. r_cases; lra. Qed.

Lemma boundaryConstraint_inside margin limit v :
  margin <= v <= limit - margin -> boundaryConstraint margin limit v = v.
Proof. intros H. unfold boundaryConstraint. r_cases; lra. Qed.

Lemma boundaryConstraint_below margin limit v :
  v < margin -> boundaryConstraint margin limit v = margin.
Proof. intros H. unfold boundaryConstraint. r_cases; lra. Qed.

Lemma boundaryConstraint_above margin limit v :
  margin <= limit - margin -> limit - margin < v ->
  boundaryConstraint margin limit v = limit - margin.
Proof. intros H0 H. unfold boundaryConstraint. r_cases; lra. Qed.

(** The integer part of a number that is not negative is at most the
    number and less than 1 below it. *)
Lemma truncate_bounds x : 0 <= x -> x - 1 < IZR (truncate x) <= x.
Proof.
  intros H. unfold truncate. destruct (Rle_dec 0 x); [|contradiction].
  destruct (base_Int_part x). lra.
Qed.

(** The margin fits twice into a canvas made from a window of at least
    one unit on each side. *)
Lemma window_margin_fits innerWidth innerHeight :
  1 <= innerWidth -> 1 <= innerHeight ->
  boatRadiusOfWindow innerWidth innerHeight * 2
  <= canvasWidthOfWindow innerWidth
     - boatRadiusOfWindow innerWidth innerHeight * 2
  /\ boatRadiusOfWindow innerWidth innerHeight * 2
     <= canvasHeightOfWindow innerHeight
        - boatRadiusOfWindow innerWidth innerHeight * 2.
Proof.
  intros Hw Hh.
  unfold boatRadiusOfWindow, canvasWidthOfWindow, canvasHeightOfWindow.
  pose proof (Rmin_l innerWidth innerHeight).
  pose proof (Rmin_r innerWidth innerHeight).
  assert (0 <= Rmin innerWidth innerHeight) by (apply Rmin_glb; lra).
  pose proof (truncate_bounds (innerWidth * 1.1) ltac:(lra)).
  pose proof (truncate_bounds (innerHeight * 1.1) ltac:(lra)).
  lra.
Qed.

(** The condition around the update of a boat, by the number of the
    boat. *)
Lemma inPlay_spec f ix :
  inPlay f ix = true <-> ix = B1 \/ (boatNumberOf ix <= boatCount f)%Z.
Proof.
  destruct ix; cbn [inPlay boatNumberOf]; rewrite ?Z.geb_le;
    split; auto; intros [H | H]; auto; discriminate.
Qed.

Lemma candidatePosition_inPlay f ix :
  inPlay f ix = true ->
  candidatePosition f ix
  = (boundaryConstraint (boundaryMargin f) (canvasWidth f)
       (fst (tentativePosition f ix)),
     boundaryConstraint (boundaryMargin f) (canvasHeight f)
       (snd (tentativePosition f ix))).
Proof.
  intros H. unfold candidatePosition.
  destruct ix; cbn [inPlay] in H; rewrite ?H; reflexivity.
Qed.

(** A boat in play inside the boundary stays where it is in a frame of no
    duration. *)
Lemma candidatePosition_still f ix :
  inPlay f ix = true -> deltaTime f = 0 ->
  boundaryMargin f <= BoatState.x (boatStateOf f ix)
    <= canvasWidth f - boundaryMargin f ->
  boundaryMargin f <= BoatState.y (boatStateOf f ix)
    <= canvasHeight f - boundaryMargin f ->
  candidatePosition f ix
  = (BoatState.x (boatStateOf f ix), BoatState.y (boatStateOf f ix)).
Proof.
  intros Hplay Hdt Hx Hy. rewrite candidatePosition_inPlay by assumption.
  unfold tentativePosition. rewrite Hdt. cbn [fst snd].
  match goal with
  | |- (boundaryConstraint _ _ ?a, boundaryConstraint _ _ ?b) = _ =>
      replace a with (BoatState.x (boatStateOf f ix)) by ring;
      replace b with (BoatState.y (boatStateOf f ix)) by ring
  end.
  now rewrite !boundaryConstraint_inside.
Qed.

(* ------------------------------------------------------------------ *)
(** * Facts about the collisions between boats *)

Lemma sqrt_sum_scaled x y k :
  0 < x -> k = sqrt (1 + (y / x)²) -> sqrt (x ^ 2 + y ^ 2) = x * k.
Proof.
  intros Hx ->.
  assert (Hk : 0 <= 1 + (y / x)²) by (unfold Rsqr; nra).
  apply sqrt_lem_1.
  - nra.
  - apply Rmult_le_pos; [lra | apply sqrt_pos].
  - replace (x * sqrt (1 + (y / x)²) * (x * sqrt (1 + (y / x)²)))
      with (x * x * (sqrt (1 + (y / x)²) * sqrt (1 + (y / x)²))) by ring.
    rewrite sqrt_sqrt by assumption. unfold Rsqr. field. lra.
Qed.

Lemma sqrt_one_plus_sqr_pos t : 0 < sqrt (1 + t²).
Proof. apply sqrt_lt_R0. unfold Rsqr. nra. Qed.

(** The cosine and the sine of [atan2 y x] are the coordinates of the
    unit vector toward [(x, y)]. *)
Lemma atan2_cos_sin y x :
  cos (atan2 y x) * sqrt (x ^ 2 + y ^ 2) = x
  /\ sin (atan2 y x) * sqrt (x ^ 2 + y ^ 2) = y.
Proof.
  unfold atan2.
  destruct (Rltb 0 x) eqn:E1.
  { apply Rltb_true_iff in E1.
    rewrite (sqrt_sum_scaled x y _ E1 eq_refl), cos_atan, sin_atan.
    pose proof (sqrt_one_plus_sqr_pos (y / x)).
    split; field; lra. }
  apply Rltb_false_iff in E1.
  destruct (Rltb x 0) eqn:E2.
  { apply Rltb_true_iff in E2.
    assert (Hd : sqrt (x ^ 2 + y ^ 2) = - x * sqrt (1 + (y / x)²)).
    { replace (x ^ 2 + y ^ 2) with ((- x) ^ 2 + (- y) ^ 2) by ring.
      replace (y / x) with (- y / - x) by (field; lra).
      apply sqrt_sum_scaled; [lra | reflexivity]. }
    pose proof (sqrt_one_plus_sqr_pos (y / x)).
    destruct (Rleb 0 y); rewrite Hd.
    - rewrite neg_cos, neg_sin, cos_atan, sin_atan. split; field; lra.
    - rewrite cos_minus, sin_minus, cos_PI, sin_PI, cos_atan, sin_atan.
      split; field; lra. }
  apply Rltb_false_iff in E2.
  assert (x = 0) by lra. subst x.
  replace (0 ^ 2 + y ^ 2) with (y ^ 2) by ring.
  destruct (Rltb 0 y) eqn:E3.
  { apply Rltb_true_iff in E3.
    rewrite cos_PI2, sin_PI2, sqrt_pow2 by lra. lra. }
  apply Rltb_false_iff in E3.
  destruct (Rltb y 0) eqn:E4.
  { apply Rltb_true_iff in E4.
    replace (y ^ 2) with ((- y) ^ 2) by ring.
    rewrite cos_neg, sin_neg, cos_PI2, sin_PI2, sqrt_pow2 by lra. lra. }
  apply Rltb_false_iff in E4.
  assert (y = 0) by lra. subst y.
  replace (0 ^ 2) with 0 by ring.
  rewrite cos_0, sin_0, sqrt_0. lra.
Qed.

Lemma cos_sin_unit a : cos a * cos a + sin a * sin a = 1.
Proof. pose proof (sin2_cos2 a) as H. unfold Rsqr in H. lra. Qed.



Lemma BoatIx_eqb_refl ix : BoatIx_eqb ix ix = true.
Proof. now destruct ix. Qed.


Lemma centerDistance_sym b1 b2 : centerDistance b1 b2 = centerDistance b2 b1.
Proof. unfold centerDistance. f_equal. ring. Qed.

Lemma sqrt_ge a b : 0 <= a -> a * a <= b -> a <= sqrt b.
Proof.
  intros Ha Hb. rewrite <- (sqrt_square a Ha). apply sqrt_le_1_alt. exact Hb.
Qed.

Lemma resolvePair_far boatRadius boat1 boat2 adj :
  boatRadius * 2 <= centerDistance boat1 boat2 ->
  resolvePair boatRadius boat1 boat2 adj = adj.
Proof.
  intros H. unfold resolvePair.
  replace (Rltb (centerDistance boat1 boat2) (boatRadius * 2)) with false;
    [reflexivity|].
  symmetry. now apply Rltb_false_iff.
Qed.



Lemma activeBoats_cases f :
  (2 <= boatCount f)%Z ->
  (boatCount f = 2%Z
   /\ activeBoats f = [collisionInfo f B1; collisionInfo f B2])
  \/ (boatCount f = 3%Z
      /\ activeBoats f
         = [collisionInfo f B1; collisionInfo f B2; collisionInfo f B3])
  \/ ((4 <= boatCount f)%Z
      /\ activeBoats f
         = [collisionInfo f B1; collisionInfo f B2; collisionInfo f B3;
            collisionInfo f B4]).
Proof.
  intros H. unfold activeBoats.
  destruct (Z.geb_spec (boatCount f) 3) as [H3|H3];
    destruct (Z.geb_spec (boatCount f) 4) as [H4|H4]; cbn [app];
    first [ left; split; [lia | reflexivity]
          | right; left; split; [lia | reflexivity]
          | right; right; split; [lia | reflexivity]
          | exfalso; lia ].
Qed.

(* ------------------------------------------------------------------ *)
(** * Facts about the wind store *)

Lemma remainder_360 x :
  (0 <= x -> 0 <= remainder x 360 < 360)
  /\ (x < 0 -> -360 < remainder x 360 <= 0).
Proof.
  unfold remainder, truncate.
  set (q := x / 360).
  assert (Hq : x = 360 * q) by (unfold q; field).
  destruct (Rle_dec 0 q) as [H0 | H0].
  - destruct (base_Int_part q) as [H1 H2]. split; intros; lra.
  - destruct (base_Int_part (- q)) as [H1 H2].
    rewrite opp_IZR. split; intros; lra.
Qed.

(** A number nearer to zero than [m] is its own remainder. *)
Lemma remainder_small x m :
  0 < m -> - m < x < m -> remainder x m = x.
Proof.
  intros Hm Hx. unfold remainder, truncate.
  assert (Hq : x = m * (x / m)) by (field; lra).
  set (q := x / m) in *.
  assert (Hq1 : -1 < q < 1) by nra.
  destruct (Rle_dec 0 q).
  - rewrite <- (Int_part_spec q 0); [lra | cbn; lra].
  - rewrite <- (Int_part_spec (- q) 0); [cbn; lra | cbn; lra].
Qed.

Lemma normalizedDirection_range direction randomShift :
  0 <= normalizedDirection direction randomShift < 360.
Proof.
  unfold normalizedDirection.
  destruct (remainder_360 (direction + randomShift)) as [Hp Hn].
  destruct (Rle_dec 0 (direction + randomShift)).
  - specialize (Hp ltac:(assumption)). r_cases; lra.
  - specialize (Hn ltac:(lra)). r_cases; lra.
Qed.

Lemma cappedDirection_withinRange range newDirection :
  0 < range <= 180 -> 0 <= newDirection < 360 ->
  withinRange range (cappedDirection range newDirection).
Proof.
  intros Hr Hd. unfold cappedDirection, withinRange. r_cases; lra.
Qed.

Lemma windDirectionRange_bounds currentSeason :
  0 < windDirectionRange (locationSettings currentSeason) <= 180.
Proof. destruct currentSeason; cbn; lra. Qed.

Lemma updateWindDirection_withinRange currentSeason random1 random2 state :
  withinRange (windDirectionRange (locationSettings currentSeason))
    (direction (updateWindDirection currentSeason random1 random2 state)).
Proof.
  cbn [updateWindDirection direction]. unfold shiftedDirection.
  apply cappedDirection_withinRange.
  - apply windDirectionRange_bounds.
  - apply normalizedDirection_range.
Qed.

Local Close Scope R_scope.

(* ------------------------------------------------------------------ *)
(** * The race store: finish gating, ranking and the end of the race *)

Lemma hasCompletedAllStages_boatIdOf ix st :
  hasCompletedAllStages (boatIdOf ix) st = reachedFinishLeg (stageOf ix st).
Proof. destruct ix; reflexivity. Qed.

Lemma alreadyHasResult_true boat n st :
  alreadyHasResult boat n st = true ->
  exists r, In r (results st) /\ RaceResult.boatNumber r = n.
Proof.
  unfold alreadyHasResult. intros H.
  apply existsb_exists in H as (r & Hin & Hr).
  apply andb_prop in Hr as [_ Hn]. exists r. split; [assumption|].
  unfold JS.numStrictEq in Hn.
  destruct (RaceResult.boatNumber r), n; try discriminate.
  apply Z.eqb_eq in Hn. now subst.
Qed.

(** What a call leaves in the results and the phase. *)
Lemma finishRace_results_phase boatId time st :
  (results (finishRace boatId time st) = results st
   /\ phase (finishRace boatId time st) = phase st)
  \/ (exists boat,
        hasCompletedAllStages boatId st = true
        /\ results (finishRace boatId time st)
           = updatedResults boat boatId time st
        /\ phase (finishRace boatId time st)
           = if (List.length (boats st) <=? List.length (results st) + 1)%nat
             then PhaseFinished else phase st).
Proof.
  destruct (finishRace_cases boatId time st)
    as [[_ ->] | [(b & _ & _ & ->) | [(b & _ & _ & _ & ->)
                                     | (b & _ & _ & Hc & ->)]]]; auto.
  - left. now destruct (markFinished_fields boatId st) as (-> & _ & ->).
  - right. exists b. split; [assumption|]. cbv zeta.
    destruct (_ <=? _)%nat; cbn [set_phase results phase];
      match goal with
      | |- context [markFinished ?i ?s] =>
          destruct (markFinished_fields i s) as (Ep & _ & Er)
      end; rewrite ?Ep, ?Er; auto.
Qed.

Lemma updatedResults_differs boat boatId time st :
  updatedResults boat boatId time st <> results st.
Proof.
  intros E. apply (f_equal (@List.length _)) in E.
  rewrite updatedResults_length in E. lia.
Qed.

Lemma hasCompletedAllStages_true boatId st :
  hasCompletedAllStages boatId st = true ->
  exists ix, boatId = boatIdOf ix /\ reachedFinishLeg (stageOf ix st) = true.
Proof.
  unfold hasCompletedAllStages.
  destruct (String.eqb boatId "boat-1") eqn:E1;
    [apply String.eqb_eq in E1; exists B1; auto|].
  destruct (String.eqb boatId "boat-2") eqn:E2;
    [apply String.eqb_eq in E2; exists B2; auto|].
  destruct (String.eqb boatId "boat-3") eqn:E3;
    [apply String.eqb_eq in E3; exists B3; auto|].
  destruct (String.eqb boatId "boat-4") eqn:E4;
    [apply String.eqb_eq in E4; exists B4; auto|].
  discriminate.
Qed.

(** The race after the boat count was changed with one boat recorded:
    boat 1 has its result and is back in the Start Leg. *)
Lemma restartedSystem_facts :
  reachable restartedSystem
  /\ find (fun b => String.eqb (Boat.id b) "boat-1")
       (boats (snd restartedSystem))
     = Some (createInitialBoat 7 "Ann" 0 true)
  /\ results (snd restartedSystem) = [RaceResult.mk 7 "Ann" 6000 1 (Some 1%Z)]
  /\ phase (snd restartedSystem) = Racing
  /\ stageOf B1 (snd restartedSystem) = StartLeg.
Proof.
  split.
  { unfold restartedSystem, recordedSystem, sampleSystem.
    apply reachable_event. do 2 apply reachable_run. apply reachable_initial. }
  vm_compute. auto.
Qed.

(** C1 as it is stated fails in a state of a race: boat 1 of
    [restartedSystem] is a boat of the race in the Start Leg, and a call of
    [finishRace] for it returns at the test for a recorded result, with
    the stage still the Start Leg. *)
Lemma finishRace_leaves_recorded_boat_unfinished :
  reachable restartedSystem
  /\ find (fun b => String.eqb (Boat.id b) "boat-1")
       (boats (snd restartedSystem))
     = Some (createInitialBoat 7 "Ann" 0 true)
  /\ reachedFinishLeg (stageOf B1 (snd restartedSystem)) = false
  /\ stageOf B1 (finishRace "boat-1" 9000 (snd restartedSystem)) = StartLeg
  /\ stageOf B1 (finishRace "boat-1" 9000 (snd restartedSystem)) <> Finished.
Proof.
  destruct restartedSystem_facts as (Hr & Hf & _ & _ & _).
  split; [exact Hr|]. split; [exact Hf|].
  split; [vm_compute; reflexivity|].
  split; [vm_compute; reflexivity|].
  vm_compute. discriminate.
Qed.

(** C1, amended.  A call of [finishRace] for a boat whose stage is neither
    Finish Leg nor Finished leaves the results as they are, in every state
    of the store; the results change only if the stage of the boat was
    Finish Leg or Finished at the call; in every state of a race, such a
    call on a boat of the race that has no recorded result sets the stage
    of that boat to Finished; and a call on a boat of the race that has a
    recorded result leaves the whole store, the stage of the boat
    included, as it is. *)
Theorem finishRace_gates_result :
  (forall ix time st,
     reachedFinishLeg (stageOf ix st) = false ->
     results (finishRace (boatIdOf ix) time st) = results st)
  /\ (forall boatId time st,
        results (finishRace boatId time st) <> results st ->
        exists ix,
          boatId = boatIdOf ix /\ reachedFinishLeg (stageOf ix st) = true)
  /\ (forall sys boatId time boat,
        reachable sys ->
        find (fun b => String.eqb (Boat.id b) boatId) (boats (snd sys))
        = Some boat ->
        exists ix,
          boatId = boatIdOf ix
          /\ (alreadyHasResult boat (Some (boatNumberOf ix)) (snd sys) = false ->
              reachedFinishLeg (stageOf ix (snd sys)) = false ->
              stageOf ix (finishRace boatId time (snd sys)) = Finished
              /\ results (finishRace boatId time (snd sys))
                 = results (snd sys))
          /\ (alreadyHasResult boat (Some (boatNumberOf ix)) (snd sys) = true ->
              finishRace boatId time (snd sys) = snd sys)).
Proof.
  split; [|split].
  - intros ix time st Hstage.
    destruct (finishRace_results_phase (boatIdOf ix) time st)
      as [[E _] | (b & Hc & _)]; [exact E|].
    rewrite hasCompletedAllStages_boatIdOf in Hc. congruence.
  - intros boatId time st Hchanged.
    destruct (finishRace_results_phase boatId time st)
      as [[E _] | (b & Hc & _)]; [contradiction|].
    now apply hasCompletedAllStages_true.
  - intros sys boatId time boat Hreach Hfind.
    pose proof (reachable_Inv sys Hreach) as (Hb & _ & _ & _).
    set (st := snd sys) in *.
    destruct (find_id_some boatId (boats st) boat Hfind) as [Hin Hid].
    destruct (boatsWellFormed_ids st boat Hb Hin) as [ix Hix].
    rewrite Hix in Hid. subst boatId.
    exists ix. split; [reflexivity|]. split.
    + intros Hdup Hstage. unfold finishRace.
      rewrite Hfind, boatNumberOfId_boatIdOf, Hdup,
        hasCompletedAllStages_boatIdOf, Hstage.
      cbn [negb]. rewrite markFinished_boatIdOf, stageOf_setStage_same.
      split; [reflexivity | now destruct ix].
    + intros Hdup. unfold finishRace.
      now rewrite Hfind, boatNumberOfId_boatIdOf, Hdup.
Qed.

Lemma finishRace_gates_result_witness :
  reachedFinishLeg (stageOf B1 (snd sampleSystem)) = false
  /\ results (finishRace (boatIdOf B1) 5000 (snd sampleSystem))
     = results (snd sampleSystem)
  /\ results (finishRace "boat-1" 5000
                (set_boat1Stage FinishLeg (snd sampleSystem)))
     <> results (set_boat1Stage FinishLeg (snd sampleSystem))
  /\ (exists ix,
        "boat-1"%string = boatIdOf ix
        /\ reachedFinishLeg
             (stageOf ix (set_boat1Stage FinishLeg (snd sampleSystem))) = true)
  /\ reachable sampleSystem
  /\ find (fun b => String.eqb (Boat.id b) "boat-1") (boats (snd sampleSystem))
     = Some (createInitialBoat 7 "Ann" 0 true)
  /\ alreadyHasResult (createInitialBoat 7 "Ann" 0 true) (Some 1%Z)
       (snd sampleSystem) = false
  /\ stageOf B1 (finishRace "boat-1" 5000 (snd sampleSystem)) = Finished
  /\ reachable restartedSystem
  /\ alreadyHasResult (createInitialBoat 7 "Ann" 0 true) (Some 1%Z)
       (snd restartedSystem) = true
  /\ finishRace "boat-1" 9000 (snd restartedSystem) = snd restartedSystem.
Proof.
  destruct finishRace_gates_result as (T1 & T2 & T3).
  assert (H2 : results (finishRace "boat-1" 5000
                          (set_boat1Stage FinishLeg (snd sampleSystem)))
               <> results (set_boat1Stage FinishLeg (snd sampleSystem)))
    by (vm_compute; discriminate).
  split; [reflexivity|].
  split; [exact (T1 B1 5000%Z (snd sampleSystem) eq_refl)|].
  split; [exact H2|].
  split; [exact (T2 "boat-1"%string 5000%Z _ H2)|].
  split; [apply reachable_sampleSystem|].
  split; [reflexivity|].
  split; [reflexivity|].
  destruct (T3 sampleSystem "boat-1"%string 5000%Z
              (createInitialBoat 7 "Ann" 0 true)
              reachable_sampleSystem eq_refl) as (ix & Eix & Hnew & _).
  assert (ix = B1) by (destruct ix; try discriminate Eix; reflexivity).
  subst ix.
  split; [exact (proj1 (Hnew eq_refl eq_refl))|].
  destruct restartedSystem_facts as (Hr & Hf & _ & _ & _).
  split; [exact Hr|].
  destruct (T3 restartedSystem "boat-1"%string 9000%Z
              (createInitialBoat 7 "Ann" 0 true) Hr Hf) as (jx & Ejx & _ & Hold).
  assert (jx = B1) by (destruct jx; try discriminate Ejx; reflexivity).
  subst jx.
  assert (Hdup : alreadyHasResult (createInitialBoat 7 "Ann" 0 true)
                   (Some (boatNumberOf B1)) (snd restartedSystem) = true)
    by (vm_compute; reflexivity).
  split; [exact Hdup | exact (Hold Hdup)].
Defined.

(** A boat sent over the line from the Start Leg is Finished and has no
    result; sent from the Finish Leg it is ranked. *)
Example forced_finish_has_no_result :
  let st := finishRace "boat-1" 5000 (snd sampleSystem) in
  boat1Stage st = Finished /\ results st = [] /\ phase st = Racing.
Proof. vm_compute. auto. Qed.

Example legitimate_finish_is_ranked :
  let st := finishRace "boat-1" 5000
              (set_boat1Stage FinishLeg (snd sampleSystem)) in
  boat1Stage st = Finished
  /\ results st = [RaceResult.mk 7 "Ann" 5000 1 (Some 1%Z)]
  /\ phase st = Racing.
Proof. vm_compute. auto. Qed.

(* ------------------------------------------------------------------ *)
(** * The stages of a boat *)



Lemma startFrame_boat1_crosses : crossesStartLine startFrame B1 = true.
Proof.
  unfold crossesStartLine.
  cbn [startFrame boatStateOf startLineRef boatRadius
       BoatState.x BoatState.y BoatState.rotation
       StartLine.x1 StartLine.y1 StartLine.x2].
  r_eval. reflexivity.
Qed.

Lemma startFrame_boat2_away : crossesStartLine startFrame B2 = false.
Proof.
  unfold crossesStartLine.
  cbn [startFrame boatStateOf startLineRef boatRadius
       BoatState.x BoatState.y BoatState.rotation
       StartLine.x1 StartLine.y1 StartLine.x2].
  r_eval. reflexivity.
Qed.

(** The start of the race as a frame sees it: boat 1 in the Start Leg, one
    unit south of the line between the posts and heading north, is in the
    Upwind Leg after the frame; boat 2, away from the line, is moved from
    Not Started to the Start Leg. *)
Example start_line_crossing :
  let sys := frame startFrame
               (initialRefs, set_boat1Stage StartLeg (snd sampleSystem)) in
  stageOf B1 (snd sys) = UpwindLeg /\ stageOf B2 (snd sys) = StartLeg.
Proof.
  set (st0 := set_boat1Stage StartLeg (snd sampleSystem)).
  assert (E0 : forceStartLeg startFrame st0 = set_boat2Stage StartLeg st0)
    by reflexivity.
  assert (E1 : boatProgression B1 startFrame StartLeg
                 (initialRefs, set_boat2Stage StartLeg st0)
               = (initialRefs,
                  set_boat1Stage UpwindLeg (set_boat2Stage StartLeg st0))).
  { unfold boatProgression. cbn [RaceStage_eqb andb].
    now rewrite startFrame_boat1_crosses. }
  assert (E2 : boatProgression B2 startFrame StartLeg
                 (initialRefs,
                  set_boat1Stage UpwindLeg (set_boat2Stage StartLeg st0))
               = (initialRefs,
                  set_boat1Stage UpwindLeg (set_boat2Stage StartLeg st0))).
  { unfold boatProgression. cbn [RaceStage_eqb andb].
    now rewrite startFrame_boat2_away. }
  assert (E : frame startFrame (initialRefs, st0)
              = (initialRefs,
                 set_boat1Stage UpwindLeg (set_boat2Stage StartLeg st0))).
  { unfold frame, stageTracking. cbn [snd fst]. rewrite E0.
    change (RacePhase_eqb (phase st0) Racing && negb (isPaused startFrame))
      with true.
    change (boat1Stage (set_boat2Stage StartLeg st0)) with StartLeg.
    change (boat2Stage (set_boat2Stage StartLeg st0)) with StartLeg.
    change (boatCount startFrame >=? 2)%Z with true.
    change (boatCount startFrame >=? 3)%Z with false.
    change (boatCount startFrame >=? 4)%Z with false.
    cbv iota. rewrite E1. exact E2. }
  cbv zeta. rewrite E. split; reflexivity.
Qed.

(** The initialization of the stages is no event of the races above: with
    boat 2 still Not Started it takes boat 1 from the Upwind Leg back to
    the Start Leg. *)
Example initializeStages_restarts_boats :
  boat1Stage
    (initializeStages 2 (set_boat1Stage UpwindLeg (snd sampleSystem)))
  = StartLeg.
Proof. reflexivity. Qed.

(* ------------------------------------------------------------------ *)
(** * Ranking of the results *)



(** The faster boat that finishes second takes rank 1. *)
Example second_finisher_can_win :
  let st := set_boat2Stage FinishLeg
              (finishRace "boat-1" 5000
                 (set_boat1Stage FinishLeg (snd sampleSystem))) in
  results (finishRace "boat-2" 4000 st)
  = [RaceResult.mk 7 "Boat 2" 4000 1 (Some 2%Z);
     RaceResult.mk 7 "Ann" 5000 2 (Some 1%Z)]
  /\ phase (finishRace "boat-2" 4000 st) = PhaseFinished.
Proof. vm_compute. auto. Qed.

(* ------------------------------------------------------------------ *)
(** * The end of the race *)

(** C7.  A call of [finishRace] that records a result sets the phase to
    finished exactly when the results, the new one counted, are as many as
    the boats; a call that records nothing leaves the phase; with two
    boats and no result yet the phase stays racing after the first
    result; and in every state of a race whose phase is finished every
    boat of the store has a recorded result, also when the stages were
    initialized again during the race. *)
Theorem phase_finished_when_all_recorded :
  (forall boatId time st,
     results (finishRace boatId time st) <> results st ->
     phase (finishRace boatId time st)
     = if (List.length (boats st)
           <=? List.length (results (finishRace boatId time st)))%nat
       then PhaseFinished else phase st)
  /\ (forall boatId time st,
        results (finishRace boatId time st) = results st ->
        phase (finishRace boatId time st) = phase st)
  /\ (forall boatId time st,
        List.length (boats st) = 2%nat -> results st = [] ->
        phase st = Racing ->
        phase (finishRace boatId time st) = Racing)
  /\ (forall sys b,
        reachable sys -> phase (snd sys) = PhaseFinished ->
        In b (boats (snd sys)) ->
        alreadyHasResult b (boatNumberOfId (Boat.id b)) (snd sys) = true).
Proof.
  repeat split.
  - intros boatId time st Hchanged.
    destruct (finishRace_results_phase boatId time st)
      as [[E _] | (b & _ & E & Ep)]; [contradiction|].
    rewrite Ep, E, updatedResults_length.
    now replace (List.length (results st) + 1)%nat
      with (S (List.length (results st))) by lia.
  - intros boatId time st Hsame.
    destruct (finishRace_results_phase boatId time st)
      as [[_ E] | (b & _ & E & _)]; [exact E|].
    rewrite E in Hsame. now apply updatedResults_differs in Hsame.
  - intros boatId time st Hb Hr Hp.
    destruct (finishRace_results_phase boatId time st)
      as [[_ E] | (b & _ & _ & E)]; rewrite E; [exact Hp|].
    rewrite Hb, Hr. exact Hp.
  - intros sys b Hreach Hp Hin.
    pose proof (reachable_Inv sys Hreach) as HI.
    apply Inv_all_recorded; [exact HI | | exact Hin].
    destruct HI as (_ & _ & _ & Hlen). now apply Hlen.
Qed.

Lemma finishedSystem_facts :
  reachable finishedSystem
  /\ phase (snd finishedSystem) = PhaseFinished
  /\ boats (snd finishedSystem)
     = [createInitialBoat 7 "Ann" 0 true; createInitialBoat 7 "Boat 2" 1 false]
  /\ results (snd finishedSystem)
     = [RaceResult.mk 7 "Ann" 6000 1 (Some 1%Z);
        RaceResult.mk 7 "Boat 2" 8000 2 (Some 2%Z)].
Proof.
  split.
  { unfold finishedSystem, recordedSystem, sampleSystem.
    do 3 apply reachable_run. apply reachable_initial. }
  vm_compute. auto.
Qed.

Lemma phase_finished_when_all_recorded_witness :
  let st := set_boat1Stage FinishLeg (snd sampleSystem) in
  results (finishRace "boat-1" 5000 st) <> results st
  /\ phase (finishRace "boat-1" 5000 st)
     = (if (List.length (boats st)
            <=? List.length (results (finishRace "boat-1" 5000 st)))%nat
        then PhaseFinished else phase st)
  /\ results (finishRace "boat-9" 5000 st) = results st
  /\ phase (finishRace "boat-9" 5000 st) = phase st
  /\ List.length (boats st) = 2%nat /\ results st = [] /\ phase st = Racing
  /\ phase (finishRace "boat-1" 5000 st) = Racing
  /\ reachable finishedSystem
  /\ phase (snd finishedSystem) = PhaseFinished
  /\ In (createInitialBoat 7 "Boat 2" 1 false) (boats (snd finishedSystem))
  /\ alreadyHasResult (createInitialBoat 7 "Boat 2" 1 false)
       (boatNumberOfId (Boat.id (createInitialBoat 7 "Boat 2" 1 false)))
       (snd finishedSystem) = true.
Proof.
  intros st.
  assert (H1 : results (finishRace "boat-1" 5000 st) <> results st)
    by (vm_compute; discriminate).
  assert (H2 : results (finishRace "boat-9" 5000 st) = results st)
    by reflexivity.
  destruct phase_finished_when_all_recorded as (T1 & T2 & T3 & T4).
  destruct finishedSystem_facts as (Hr & Hp & Hb & _).
  assert (Hin : In (createInitialBoat 7 "Boat 2" 1 false)
                  (boats (snd finishedSystem)))
    by (rewrite Hb; right; left; reflexivity).
  split; [exact H1|].
  split; [exact (T1 "boat-1"%string 5000%Z st H1)|].
  split; [exact H2|].
  split; [exact (T2 "boat-9"%string 5000%Z st H2)|].
  split; [reflexivity|]. split; [reflexivity|]. split; [reflexivity|].
  split; [exact (T3 "boat-1"%string 5000%Z st eq_refl eq_refl eq_refl)|].
  split; [exact Hr|]. split; [exact Hp|]. split; [exact Hin|].
  exact (T4 finishedSystem _ Hr Hp Hin).
Defined.

(** With two boats the race goes on after the first result and ends with
    the second. *)
Example two_boat_race_ends_with_second_result :
  let st1 := finishRace "boat-1" 5000
               (set_boat2Stage FinishLeg
                  (set_boat1Stage FinishLeg (snd sampleSystem))) in
  phase st1 = Racing /\ phase (finishRace "boat-2" 6000 st1) = PhaseFinished.
Proof. vm_compute. auto. Qed.

(* ------------------------------------------------------------------ *)
(** * Wind shadow and the no-go zone *)

Local Open Scope R_scope.

(** C9.  The shadow test does not depend on the rotation of the blocking
    boat, and the wind direction is no argument of it: the wind shadow of
    a frame is the same under every wind direction.  Out of single boat
    mode the test holds exactly when the boat is below the blocking boat,
    within the shadow length of it, and nearer to its vertical than half
    the distance; in single boat mode it never holds. *)
Theorem turbulence_zone_points_south :
  (forall mode boatPos blockingBoatPos rotation1 rotation2 shadowLength,
     isInTurbulenceZone mode boatPos blockingBoatPos rotation1 shadowLength
     = isInTurbulenceZone mode boatPos blockingBoatPos rotation2 shadowLength)
  /\ (forall f ix w,
        isInWindShadow (withWindDirection w f) ix = isInWindShadow f ix)
  /\ (forall boatPos blockingBoatPos rotation shadowLength,
        let distance :=
          sqrt ((Point.x boatPos - Point.x blockingBoatPos) ^ 2
                + (Point.y boatPos - Point.y blockingBoatPos) ^ 2) in
        isInTurbulenceZone false boatPos blockingBoatPos rotation shadowLength
        = true
        <-> Point.y boatPos > Point.y blockingBoatPos
            /\ distance <= shadowLength
            /\ Rabs (Point.x boatPos - Point.x blockingBoatPos)
               < (distance / shadowLength) * (shadowLength * 0.5))
  /\ (forall boatPos blockingBoatPos rotation shadowLength,
        isInTurbulenceZone true boatPos blockingBoatPos rotation shadowLength
        = false).
Proof.
  split; [reflexivity|]. split; [reflexivity|]. split; [|reflexivity].
  intros. apply isInTurbulenceZone_spec.
Qed.

Lemma shadowFrame_in_irons :
  relativeAngle (windDirection shadowFrame)
    (BoatState.rotation (boatStateOf shadowFrame B1)) < 30.
Proof.
  cbn [windDirection shadowFrame boatStateOf BoatState.rotation].
  unfold relativeAngle. replace (0 - 0) with 0 by lra. rewrite Rabs_R0.
  r_cases; lra.
Qed.

Lemma shadowFrame_shadowed : isInWindShadow shadowFrame B1 = true.
Proof.
  assert (H : shadowedBy shadowFrame B1 B2 = true).
  { unfold shadowedBy.
    cbn [singleBoatMode boatRadius shadowFrame boatStateOf
         BoatState.x BoatState.y BoatState.rotation].
    apply isInTurbulenceZone_spec. cbn [Point.x Point.y].
    replace ((500 - 500) ^ 2 + (380 - 350) ^ 2) with (30 ^ 2) by lra.
    rewrite sqrt_pow2 by lra.
    replace (500 - 500) with 0 by lra. rewrite Rabs_R0. lra. }
  unfold isInWindShadow.
  cbn [boatCount shadowFrame Z.geb Z.compare Pos.compare Pos.compare_cont
       negb andb].
  now rewrite H.
Qed.

(** Under a wind from the east boat 1, south of boat 2, is still in its
    wind shadow. *)
Example shadow_under_east_wind :
  isInWindShadow (withWindDirection 90 shadowFrame) B1 = true.
Proof. exact shadowFrame_shadowed. Qed.

(** C3, at a frame where it fails: boat 1 is in irons, inside a puff and in
    the wind shadow of boat 2, and its maximum speed is 5, not 0. *)
Theorem in_irons_shadowed_has_drive :
  relativeAngle (windDirection shadowFrame)
    (BoatState.rotation (boatStateOf shadowFrame B1)) < 30
  /\ isInWindShadow shadowFrame B1 = true
  /\ windEfficiencyOf shadowFrame B1 = 0.1
  /\ maxSpeedOf shadowFrame B1 = 5.
Proof.
  pose proof shadowFrame_in_irons as Hirons.
  pose proof shadowFrame_shadowed as Hsh.
  assert (He : windEfficiencyOf shadowFrame B1 = 0.1).
  { unfold windEfficiencyOf. rewrite applyWindPuffs_in_irons by exact Hirons.
    unfold shadowedEfficiency.
    rewrite Hsh, bandEfficiency_in_irons by exact Hirons.
    unfold Rmax. destruct (Rle_dec 0.1 (0 - 0.2)); lra. }
  repeat split; auto.
  unfold maxSpeedOf. rewrite He. lra.
Qed.

(** C4.  A boat in a wind shadow has the wind efficiency
    [max(0.1, efficiency - 0.2)] after the penalty; if it is in irons as
    well, this is 0.1, no puff changes it, and its maximum speed is
    50 times 0.1, which is positive. *)
Theorem wind_shadow_floor_gives_drive f ix :
  isInWindShadow f ix = true ->
  let relAngle :=
    relativeAngle (windDirection f) (BoatState.rotation (boatStateOf f ix)) in
  shadowedEfficiency f ix = Rmax 0.1 (bandEfficiency relAngle - 0.2)
  /\ (relAngle < 30 ->
      bandEfficiency relAngle = 0
      /\ shadowedEfficiency f ix = 0.1
      /\ windEfficiencyOf f ix = 0.1
      /\ maxSpeedOf f ix = 50 * 0.1
      /\ 0 < maxSpeedOf f ix).
Proof.
  intros Hsh relAngle.
  assert (E : shadowedEfficiency f ix = Rmax 0.1 (bandEfficiency relAngle - 0.2)).
  { unfold shadowedEfficiency. now rewrite Hsh. }
  split; [exact E|].
  intros Hirons.
  assert (E0 : shadowedEfficiency f ix = 0.1).
  { rewrite E, bandEfficiency_in_irons by exact Hirons.
    unfold Rmax. destruct (Rle_dec 0.1 (0 - 0.2)); lra. }
  assert (E1 : windEfficiencyOf f ix = 0.1).
  { unfold windEfficiencyOf. fold relAngle.
    now rewrite applyWindPuffs_in_irons by exact Hirons. }
  repeat split; auto.
  - now apply bandEfficiency_in_irons.
  - unfold maxSpeedOf. now rewrite E1.
  - unfold maxSpeedOf. rewrite E1. lra.
Qed.

Lemma wind_shadow_floor_gives_drive_witness :
  isInWindShadow shadowFrame B2 = false
  /\ isInWindShadow shadowFrame B1 = true
  /\ relativeAngle (windDirection shadowFrame)
       (BoatState.rotation (boatStateOf shadowFrame B1)) < 30
  /\ maxSpeedOf shadowFrame B1 = 50 * 0.1.
Proof.
  split.
  { unfold isInWindShadow, shadowedBy, isInTurbulenceZone.
    cbn [singleBoatMode boatCount boatRadius shadowFrame boatStateOf
         BoatState.x BoatState.y BoatState.rotation Point.x Point.y
         Z.geb Z.compare Pos.compare Pos.compare_cont negb andb].
    replace (Rleb 350 380) with true; [reflexivity|].
    symmetry. apply Rleb_true_iff. lra. }
  split; [exact shadowFrame_shadowed|].
  split; [exact shadowFrame_in_irons|].
  apply (wind_shadow_floor_gives_drive shadowFrame B1 shadowFrame_shadowed).
  exact shadowFrame_in_irons.
Defined.

Local Close Scope R_scope.

(* ------------------------------------------------------------------ *)
(** * Collisions between boats *)

Local Open Scope R_scope.








(* ------------------------------------------------------------------ *)
(** * The boundary of the canvas *)

(** The candidate position of a boat in play is the tentative position
    after the two tests on each coordinate. *)
Lemma candidatePosition_constrained f ix :
  (boatNumberOf ix <= boatCount f)%Z ->
  candidatePosition f ix
  = (boundaryConstraint (boundaryMargin f) (canvasWidth f)
       (fst (tentativePosition f ix)),
     boundaryConstraint (boundaryMargin f) (canvasHeight f)
       (snd (tentativePosition f ix))).
Proof.
  intros Hactive. unfold candidatePosition.
  destruct ix; cbn [boatNumberOf] in Hactive; try reflexivity.
  - replace (boatCount f >=? 3)%Z with true; [reflexivity|].
    symmetry. apply Z.geb_le. lia.
  - replace (boatCount f >=? 4)%Z with true; [reflexivity|].
    symmetry. apply Z.geb_le. lia.
Qed.

(** C10.  The candidate position of every boat in play is its tentative
    position, made of its own movement and the movement of the current,
    clamped coordinate by coordinate into the rectangle from the margin to
    the width less the margin and from the margin to the height less the
    margin, the margin being two boat radii: the candidate position lies in
    that rectangle; a coordinate that is inside its interval is kept, one
    below the margin becomes the margin, and one above the far bound
    becomes that bound.  This holds when the margin fits twice into the
    width and the height of the canvas, which it does when the boat radius
    and the canvas are made from one window of at least one unit on each
    side. *)
Theorem candidate_position_in_bounds f ix :
  (boatNumberOf ix <= boatCount f)%Z ->
  (boundaryMargin f <= canvasWidth f - boundaryMargin f
   /\ boundaryMargin f <= canvasHeight f - boundaryMargin f)
  \/ (exists innerWidth innerHeight,
        1 <= innerWidth /\ 1 <= innerHeight
        /\ boatRadius f = boatRadiusOfWindow innerWidth innerHeight
        /\ canvasWidth f = canvasWidthOfWindow innerWidth
        /\ canvasHeight f = canvasHeightOfWindow innerHeight) ->
  let margin := boundaryMargin f in
  let tx := fst (tentativePosition f ix) in
  let ty := snd (tentativePosition f ix) in
  let cx := fst (candidatePosition f ix) in
  let cy := snd (candidatePosition f ix) in
  margin = boatRadius f * 2
  /\ margin <= cx <= canvasWidth f - margin
  /\ margin <= cy <= canvasHeight f - margin
  /\ (margin <= tx <= canvasWidth f - margin -> cx = tx)
  /\ (tx < margin -> cx = margin)
  /\ (canvasWidth f - margin < tx -> cx = canvasWidth f - margin)
  /\ (margin <= ty <= canvasHeight f - margin -> cy = ty)
  /\ (ty < margin -> cy = margin)
  /\ (canvasHeight f - margin < ty -> cy = canvasHeight f - margin).
Proof.
  intros Hactive Hfit margin tx ty cx cy.
  split; [reflexivity|].
  assert (Hw : margin <= canvasWidth f - margin
               /\ margin <= canvasHeight f - margin).
  { destruct Hfit as [H | (w & h & Hw0 & Hh0 & Er & Ew & Eh)]; [exact H|].
    unfold margin, boundaryMargin. rewrite Er, Ew, Eh.
    now apply window_margin_fits. }
  destruct Hw as [Hw Hh].
  unfold cx, cy. rewrite (candidatePosition_constrained f ix Hactive).
  cbn [fst snd]. fold margin tx ty.
  split; [now apply boundaryConstraint_range|].
  split; [now apply boundaryConstraint_range|].
  split; [apply boundaryConstraint_inside|].
  split; [apply boundaryConstraint_below|].
  split; [now apply boundaryConstraint_above|].
  split; [apply boundaryConstraint_inside|].
  split; [apply boundaryConstraint_below|].
  now apply boundaryConstraint_above.
Qed.

(** The boat 1 of [startFrame] moves a third of a unit north in the frame
    and stays inside the rectangle. *)
Lemma startFrame_tentativePosition :
  tentativePosition startFrame B1 = (500, 349 - 20 * (1 / 60)).
Proof.
  unfold tentativePosition.
  cbn [startFrame boatStateOf BoatState.x BoatState.y BoatState.rotation
       BoatState.speed deltaTime current Current.direction Current.speed].
  replace (0 * PI / 180) with 0 by lra.
  rewrite sin_0, cos_0. f_equal; lra.
Qed.

Lemma candidate_position_in_bounds_witness :
  (boatNumberOf B1 <= boatCount startFrame)%Z
  /\ boundaryMargin startFrame
     <= canvasWidth startFrame - boundaryMargin startFrame
  /\ boundaryMargin startFrame
     <= canvasHeight startFrame - boundaryMargin startFrame
  /\ boundaryMargin startFrame <= fst (candidatePosition startFrame B1)
     <= canvasWidth startFrame - boundaryMargin startFrame
  /\ boundaryMargin startFrame <= snd (candidatePosition startFrame B1)
     <= canvasHeight startFrame - boundaryMargin startFrame
  /\ candidatePosition startFrame B1 = (500, 349 - 20 * (1 / 60)).
Proof.
  assert (H1 : (boatNumberOf B1 <= boatCount startFrame)%Z)
    by (cbn; lia).
  assert (H2 : boundaryMargin startFrame
               <= canvasWidth startFrame - boundaryMargin startFrame)
    by (unfold boundaryMargin; cbn; lra).
  assert (H3 : boundaryMargin startFrame
               <= canvasHeight startFrame - boundaryMargin startFrame)
    by (unfold boundaryMargin; cbn; lra).
  pose proof (candidate_position_in_bounds startFrame B1 H1
                (or_introl (conj H2 H3))) as T.
  cbv zeta in T.
  destruct T as (_ & Tx & Ty & Tix & _ & _ & Tiy & _ & _).
  split; [exact H1|]. split; [exact H2|]. split; [exact H3|].
  split; [exact Tx|]. split; [exact Ty|].
  rewrite (surjective_pairing (candidatePosition startFrame B1)).
  rewrite Tix, Tiy.
  - rewrite startFrame_tentativePosition. reflexivity.
  - rewrite startFrame_tentativePosition. unfold boundaryMargin.
    cbn [snd startFrame boatRadius canvasHeight]. lra.
  - rewrite startFrame_tentativePosition. unfold boundaryMargin.
    cbn [fst startFrame boatRadius canvasWidth]. lra.
Defined.

(** A boat that would leave the canvas on the left is put on the margin,
    and the clamp leaves a coordinate between the bounds alone. *)
Example boundaryConstraint_samples :
  boundaryConstraint 20 1100 (-5) = 20
  /\ boundaryConstraint 20 1100 1090 = 1080
  /\ boundaryConstraint 20 1100 640 = 640.
Proof.
  unfold boundaryConstraint. r_eval. repeat split; lra.
Qed.

(* ------------------------------------------------------------------ *)
(** * The wind direction *)

(** C8.  At every venue, from a direction within the range of the venue
    around North, the direction after any number of calls of
    [updateWindDirection] is within that range, whatever the random
    readings; the shifted direction is first brought into [0, 360), then 0
    stays 0, a direction east of the range becomes the range and a
    direction west of 360 less the range becomes 360 less the range. *)
Theorem wind_direction_stays_in_range currentSeason randoms state :
  let range := windDirectionRange (locationSettings currentSeason) in
  withinRange range (direction state) ->
  withinRange range
    (direction (updateWindDirections currentSeason randoms state))
  /\ (forall d shift, 0 <= normalizedDirection d shift < 360)
  /\ cappedDirection range 0 = 0
  /\ (forall d, range < d <= 180 -> cappedDirection range d = range)
  /\ (forall d, 180 < d < 360 - range ->
        cappedDirection range d = 360 - range)
  /\ (forall d, 0 <= d <= range \/ 360 - range <= d < 360 ->
        cappedDirection range d = d).
Proof.
  intros range Hstart.
  pose proof (windDirectionRange_bounds currentSeason) as Hr.
  fold range in Hr.
  split.
  { revert state Hstart.
    induction randoms as [|r rs IH]; intros state Hstart; [exact Hstart|].
    cbn [updateWindDirections fold_left].
    apply (IH (updateWindDirection currentSeason (fst r) (snd r) state)).
    apply updateWindDirection_withinRange. }
  split; [intros; apply normalizedDirection_range|].
  unfold cappedDirection.
  repeat split; intros; r_cases; lra.
Qed.

(** At Newport Harbor a shift east from 19 is capped at 20, and a shift
    west from 1 turns through North to 359. *)
Example wind_capped_east :
  direction (updateWindDirection newportharbor 0.7 0 sampleWind) = 20.
Proof.
  cbn [updateWindDirection direction sampleWind locationSettings
       windDirectionRange].
  unfold shiftedDirection, normalizedDirection, randomShift.
  cbn [Season_eqb]. r_eval.
  rewrite remainder_small by lra. r_eval.
  unfold cappedDirection. r_eval. reflexivity.
Qed.

Example wind_turns_through_north :
  direction
    (updateWindDirection newportharbor 0.2 0
       (mkWindState 8 1 [] 0 0 0)) = 359.
Proof.
  cbn [updateWindDirection direction locationSettings windDirectionRange].
  unfold shiftedDirection, normalizedDirection, randomShift.
  cbn [Season_eqb]. r_eval.
  rewrite remainder_small by lra. r_eval.
  unfold cappedDirection. r_eval. cbn [orb andb]. lra.
Qed.

Lemma wind_direction_stays_in_range_witness :
  withinRange (windDirectionRange (locationSettings newportharbor))
    (direction sampleWind)
  /\ withinRange (windDirectionRange (locationSettings newportharbor))
       (direction
          (updateWindDirections newportharbor [(0.7, 0); (0.2, 0); (0.9, 0)]
             sampleWind)).
Proof.
  assert (H : withinRange (windDirectionRange (locationSettings newportharbor))
                (direction sampleWind))
    by (left; cbn; lra).
  split; [exact H|].
  apply (wind_direction_stays_in_range newportharbor
           [(0.7, 0); (0.2, 0); (0.9, 0)] sampleWind H).
Defined.

Local Close Scope R_scope.

(* ================================================================== *)
(** * Further properties of the race store *)

Lemma assignPositions_In_rev i l r :
  In r l -> exists p, In (RaceResult.withPosition p r) (assignPositions i l).
Proof.
  revert i; induction l as [|r0 l IH]; intros i; cbn; [tauto|].
  intros [-> | H].
  - exists (i + 1)%Z. now left.
  - destruct (IH (i + 1)%Z H) as (p & Hp). exists p. now right.
Qed.

(** The result a recording call adds is found by the test for a
    duplicate. *)
Lemma alreadyHasResult_updatedResults boat boatId time st st' :
  boatNumberOfId boatId <> None ->
  results st' = updatedResults boat boatId time st ->
  alreadyHasResult boat (boatNumberOfId boatId) st' = true.
Proof.
  intros Hn E. unfold alreadyHasResult. rewrite E. apply existsb_exists.
  unfold updatedResults.
  set (r0 := RaceResult.mk (Boat.userId boat) (Boat.username boat) time 0
               (boatNumberOfId boatId)).
  assert (Hin : In r0 (sortByFinishTime (results st ++ [r0]))).
  { apply (Permutation_in r0 (Permutation_sym (sortByFinishTime_perm _))).
    apply in_or_app. right. now left. }
  destruct (assignPositions_In_rev 0 _ r0 Hin) as (p & Hp).
  exists (RaceResult.withPosition p r0). split; [exact Hp|].
  cbn. rewrite Z.eqb_refl. cbn.
  destruct (boatNumberOfId boatId) as [n|]; [apply Z.eqb_refl | now elim Hn].
Qed.

(** X1.  [initializeRace] makes as many boats as the boat count of the
    settings, taken between 1 and 4: their ids are boat-1, boat-2, ... in
    this order, the first boat alone is the local player, all carry the id
    of the user, and no result is left. *)
Theorem initializeRace_makes_the_boats cfg st :
  let n := Z.to_nat (Z.min (Z.max (settingsBoatCount cfg) 1) 4) in
  let st' := initializeRace cfg st in
  map Boat.id (boats st') = map boatIdOf (firstn n [B1; B2; B3; B4])
  /\ map Boat.isLocalPlayer (boats st') = firstn n [true; false; false; false]
  /\ (forall b, In b (boats st') -> Boat.userId b = actualUserId cfg)
  /\ List.length (boats st') = n
  /\ results st' = [].
Proof.
  intros n st'. subst n st'. cbn [initializeRace boats results].
  split; [|split; [|split; [|split; [|reflexivity]]]].
  3:{ intros b Hb. now apply initialBoats_ids in Hb. }
  all: unfold initialBoats;
    destruct (Z.gtb_spec (settingsBoatCount cfg) 1) as [H1|H1];
    [ destruct (Z.gtb_spec (settingsBoatCount cfg) 2) as [H2|H2];
      [ destruct (Z.gtb_spec (settingsBoatCount cfg) 3) as [H3|H3];
        [ replace (Z.min (Z.max (settingsBoatCount cfg) 1) 4) with 4%Z by lia
        | replace (Z.min (Z.max (settingsBoatCount cfg) 1) 4) with 3%Z by lia ]
      | replace (Z.min (Z.max (settingsBoatCount cfg) 1) 4) with 2%Z by lia ]
    | replace (Z.min (Z.max (settingsBoatCount cfg) 1) 4) with 1%Z by lia ];
    reflexivity.
Qed.

(** X2.  Once a call of [finishRace] has recorded a result for a boat,
    every later call for that boat leaves the whole store as it is,
    whatever its time: a boat is recorded once. *)
Theorem finishRace_records_once ix time time' st :
  results (finishRace (boatIdOf ix) time st) <> results st ->
  finishRace (boatIdOf ix) time' (finishRace (boatIdOf ix) time st)
  = finishRace (boatIdOf ix) time st.
Proof.
  intros Hchanged.
  pose proof (finishRace_boats (boatIdOf ix) time st) as Eb.
  destruct (finishRace_cases (boatIdOf ix) time st)
    as [[_ E] | [(b1 & _ & _ & E) | [(b1 & _ & _ & _ & E)
                                    | (b1 & Hf & Hd & Hc & E)]]].
  - rewrite E in Hchanged. now elim Hchanged.
  - rewrite E in Hchanged. now elim Hchanged.
  - rewrite E in Hchanged.
    destruct (markFinished_fields (boatIdOf ix) st) as (_ & _ & Er').
    rewrite Er' in Hchanged. now elim Hchanged.
  - set (st' := finishRace (boatIdOf ix) time st) in *.
    assert (Er1 : results st' = updatedResults b1 (boatIdOf ix) time st).
    { rewrite E. cbv zeta.
      destruct (_ <=? _)%nat; cbn [set_phase results];
        match goal with
        | |- context [markFinished ?i ?s] =>
            destruct (markFinished_fields i s) as (_ & _ & Em)
        end; now rewrite Em. }
    assert (Hdup : alreadyHasResult b1 (boatNumberOfId (boatIdOf ix)) st'
                   = true).
    { apply (alreadyHasResult_updatedResults b1 (boatIdOf ix) time st st');
        [|exact Er1].
      rewrite boatNumberOfId_boatIdOf. discriminate. }
    unfold finishRace at 1. rewrite Eb, Hf, Hdup. reflexivity.
Qed.

Lemma finishRace_records_once_witness :
  results (finishRace (boatIdOf B1) 5000
             (set_boat1Stage FinishLeg (snd sampleSystem)))
  <> results (set_boat1Stage FinishLeg (snd sampleSystem))
  /\ finishRace (boatIdOf B1) 4000
       (finishRace (boatIdOf B1) 5000
          (set_boat1Stage FinishLeg (snd sampleSystem)))
     = finishRace (boatIdOf B1) 5000
         (set_boat1Stage FinishLeg (snd sampleSystem)).
Proof.
  assert (H : results (finishRace (boatIdOf B1) 5000
                         (set_boat1Stage FinishLeg (snd sampleSystem)))
              <> results (set_boat1Stage FinishLeg (snd sampleSystem)))
    by (vm_compute; discriminate).
  split; [exact H|].
  exact (finishRace_records_once B1 5000%Z 4000%Z _ H).
Defined.

(** X3.  The gate on the stage holds for one call only: a call for a boat
    of the race that is not yet in the Finish Leg and has no result sets
    its stage to Finished, so a second call for the same boat passes the
    gate and records a result, with the time of the second call. *)
Theorem finishRace_second_call_records ix time1 time2 boat st :
  find (fun b => String.eqb (Boat.id b) (boatIdOf ix)) (boats st) = Some boat ->
  alreadyHasResult boat (Some (boatNumberOf ix)) st = false ->
  reachedFinishLeg (stageOf ix st) = false ->
  let st1 := finishRace (boatIdOf ix) time1 st in
  let st2 := finishRace (boatIdOf ix) time2 st1 in
  results st1 = results st
  /\ results st2 = updatedResults boat (boatIdOf ix) time2 st
  /\ List.length (results st2) = S (List.length (results st))
  /\ In time2 (map RaceResult.finishTime (results st2)).
Proof.
  intros Hf Hdup Hstage st1 st2.
  assert (E1 : st1 = setStage ix Finished st).
  { unfold st1, finishRace.
    rewrite Hf, boatNumberOfId_boatIdOf, Hdup,
      hasCompletedAllStages_boatIdOf, Hstage.
    cbn [negb]. apply markFinished_boatIdOf. }
  assert (Eb : boats st1 = boats st) by (rewrite E1; now destruct ix).
  assert (Er : results st1 = results st) by (rewrite E1; now destruct ix).
  assert (E2 : results st2 = updatedResults boat (boatIdOf ix) time2 st).
  { unfold st2, finishRace.
    rewrite Eb, Hf, boatNumberOfId_boatIdOf.
    replace (alreadyHasResult boat (Some (boatNumberOf ix)) st1) with false
      by (unfold alreadyHasResult in *; now rewrite Er).
    rewrite hasCompletedAllStages_boatIdOf, E1, stageOf_setStage_same.
    cbn [reachedFinishLeg RaceStage_eqb orb negb]. cbv zeta.
    assert (Eu : updatedResults boat (boatIdOf ix) time2
                   (setStage ix Finished st)
                 = updatedResults boat (boatIdOf ix) time2 st)
      by (unfold updatedResults; now destruct ix).
    destruct (_ <=? _)%nat; cbn [set_phase results];
      match goal with
      | |- context [markFinished ?i ?s] =>
          destruct (markFinished_fields i s) as (_ & _ & Em)
      end; rewrite Em; cbn [set_results results]; exact Eu. }
  split; [exact Er|]. split; [exact E2|].
  split; [rewrite E2; apply updatedResults_length|].
  rewrite E2. unfold updatedResults. rewrite assignPositions_finishTime.
  apply in_map_iff.
  exists (RaceResult.mk (Boat.userId boat) (Boat.username boat) time2 0
            (boatNumberOfId (boatIdOf ix))).
  split; [reflexivity|].
  apply (Permutation_in _ (Permutation_sym (sortByFinishTime_perm _))).
  apply in_or_app. right. now left.
Qed.

Lemma finishRace_second_call_records_witness :
  find (fun b => String.eqb (Boat.id b) (boatIdOf B1))
    (boats (snd sampleSystem))
  = Some (createInitialBoat 7 "Ann" 0 true)
  /\ alreadyHasResult (createInitialBoat 7 "Ann" 0 true)
       (Some (boatNumberOf B1)) (snd sampleSystem) = false
  /\ reachedFinishLeg (stageOf B1 (snd sampleSystem)) = false
  /\ List.length
       (results (finishRace (boatIdOf B1) 6000
                   (finishRace (boatIdOf B1) 5000 (snd sampleSystem))))
     = S (List.length (results (snd sampleSystem))).
Proof.
  split; [reflexivity|]. split; [reflexivity|]. split; [reflexivity|].
  apply (finishRace_second_call_records B1 5000%Z 6000%Z
           (createInitialBoat 7 "Ann" 0 true) (snd sampleSystem)
           eq_refl eq_refl eq_refl).
Defined.

(** X4.  In every state of a race there are no more results than boats,
    hence at most four, and no two results carry the same boat number. *)
Theorem results_never_exceed_boats sys :
  reachable sys ->
  (List.length (results (snd sys)) <= List.length (boats (snd sys)))%nat
  /\ (List.length (results (snd sys)) <= 4)%nat
  /\ NoDup (map RaceResult.boatNumber (results (snd sys))).
Proof.
  intros Hr. destruct (reachable_Inv sys Hr) as (Hb & Hres & Hnd & _).
  assert (Hle : (List.length (results (snd sys))
                 <= List.length (boats (snd sys)))%nat).
  { rewrite <- (length_map RaceResult.boatNumber (results (snd sys))).
    rewrite <- (length_map (fun b => boatNumberOfId (Boat.id b))
                  (boats (snd sys))).
    apply NoDup_incl_length; [exact Hnd|].
    intros n Hn. apply in_map_iff in Hn as (r & <- & Hin).
    destruct (Hres r Hin) as (ix & En & Hid & _).
    rewrite En. apply in_map_iff in Hid as (b & Eid & Hbin).
    apply in_map_iff. exists b. split; [|exact Hbin].
    now rewrite Eid, boatNumberOfId_boatIdOf. }
  split; [exact Hle|]. split; [|exact Hnd].
  apply (Nat.le_trans _ _ _ Hle).
  destruct Hb as [-> | [cfg ->]]; [cbn; lia|].
  unfold initialBoats.
  destruct (_ >? 1)%Z; [destruct (_ >? 2)%Z; [destruct (_ >? 3)%Z|]|];
    cbn; lia.
Qed.

Lemma results_never_exceed_boats_witness :
  reachable finishedSystem
  /\ List.length (results (snd finishedSystem)) = 2%nat
  /\ (List.length (results (snd finishedSystem))
      <= List.length (boats (snd finishedSystem)))%nat
  /\ NoDup (map RaceResult.boatNumber (results (snd finishedSystem)))
  /\ reachable restartedSystem
  /\ List.length (results (snd restartedSystem)) = 1%nat
  /\ (List.length (results (snd restartedSystem))
      <= List.length (boats (snd restartedSystem)))%nat.
Proof.
  destruct finishedSystem_facts as (Hr & _ & _ & Hres).
  destruct restartedSystem_facts as (Hr' & _ & Hres' & _).
  pose proof (results_never_exceed_boats finishedSystem Hr) as (T1 & _ & T3).
  pose proof (results_never_exceed_boats restartedSystem Hr') as (T1' & _).
  split; [exact Hr|]. split; [now rewrite Hres|].
  split; [exact T1|]. split; [exact T3|].
  split; [exact Hr'|]. split; [now rewrite Hres'|]. exact T1'.
Defined.

(** X29.  Only boats of the race are recorded: in every state of a race,
    also after the stages were initialized again for another boat count,
    no result carries the number of a boat that is not among the boats of
    the store, and a call of [finishRace] for such a boat leaves the store
    as it is.  This is what happens to a boat the canvas has in play when
    the boat count of the settings is above the number of boats
    [initializeRace] has made. *)
Theorem only_boats_of_the_race_are_recorded sys ix :
  reachable sys ->
  ~ In (boatIdOf ix) (map Boat.id (boats (snd sys))) ->
  (forall r, In r (results (snd sys)) ->
             RaceResult.boatNumber r <> Some (boatNumberOf ix))
  /\ forall time, finishRace (boatIdOf ix) time (snd sys) = snd sys.
Proof.
  intros Hr Hnot. destruct (reachable_Inv sys Hr) as (_ & Hres & _ & _).
  split.
  - intros r Hin E. destruct (Hres r Hin) as (jx & En & Hid & _).
    rewrite E in En. injection En as En. apply boatNumberOf_inj in En.
    subst jx. contradiction.
  - intros time. unfold finishRace.
    destruct (find _ (boats (snd sys))) as [b|] eqn:Ef; [|reflexivity].
    apply find_id_some in Ef as [Hin Eid]. elim Hnot.
    rewrite <- Eid. now apply in_map.
Qed.

Lemma only_boats_of_the_race_are_recorded_witness :
  reachable restartedSystem
  /\ results (snd restartedSystem) = [RaceResult.mk 7 "Ann" 6000 1 (Some 1%Z)]
  /\ stageOf B3 (snd restartedSystem) = StartLeg
  /\ ~ In (boatIdOf B3) (map Boat.id (boats (snd restartedSystem)))
  /\ (forall r, In r (results (snd restartedSystem)) ->
                RaceResult.boatNumber r <> Some (boatNumberOf B3))
  /\ finishRace (boatIdOf B3) 5000 (snd restartedSystem) = snd restartedSystem.
Proof.
  destruct restartedSystem_facts as (Hr & _ & Hres & _).
  assert (H : ~ In (boatIdOf B3) (map Boat.id (boats (snd restartedSystem)))).
  { vm_compute. intros [E | [E | []]]; discriminate E. }
  pose proof (only_boats_of_the_race_are_recorded restartedSystem B3 Hr H)
    as (T1 & T2).
  split; [exact Hr|]. split; [exact Hres|].
  split; [vm_compute; reflexivity|]. split; [exact H|].
  split; [exact T1 | exact (T2 5000%Z)].
Defined.

(* ================================================================== *)
(** * Further properties of the stage tracking *)

Lemma forceStartLeg_results f st :
  results (forceStartLeg f st) = results st.
Proof. unfold forceStartLeg. split_ifs; reflexivity. Qed.

Lemma results_setStage ix s st : results (setStage ix s st) = results st.
Proof. now destruct ix. Qed.

(** The checks of a boat change the results only in the branch of the
    finish line. *)
Lemma boatProgression_results ix f stage sys :
  results (snd (boatProgression ix f stage sys)) = results (snd sys)
  \/ (stage = FinishLeg /\ finishedRef ix (fst sys) = false
      /\ isAtFinishLine f ix = true).
Proof.
  unfold boatProgression.
  destruct stage; cbn [RaceStage_eqb andb];
    try (left; split_ifs; cbn [fst snd]; rewrite ?results_setStage;
         reflexivity).
  destruct (finishedRef ix (fst sys)) eqn:Er; cbn [negb]; [now left|].
  destruct (isAtFinishLine f ix) eqn:Ea; [now right | now left].
Qed.

Lemma boatProgression_refs_other ix jx f stage sys :
  ix <> jx ->
  finishedRef jx (fst (boatProgression ix f stage sys))
  = finishedRef jx (fst sys).
Proof.
  intros Hne. unfold boatProgression.
  destruct stage; cbn [RaceStage_eqb andb]; split_ifs; cbn [fst snd];
    try reflexivity;
    destruct ix, jx; try reflexivity; now elim Hne.
Qed.

Lemma isAtFinishLine_startFrame : isAtFinishLine startFrame B1 = true.
Proof.
  unfold isAtFinishLine.
  cbn [startFrame boatStateOf startLineRef boatRadius
       BoatState.x BoatState.y BoatState.rotation
       StartLine.x1 StartLine.y1 StartLine.x2].
  r_eval. reflexivity.
Qed.

(** The frame [startFrame] on a race whose boat 1 is in the Finish Leg and
    whose boat 2 is in the Start Leg: boat 1 finishes after 60 seconds. *)
Lemma frame_startFrame_finish :
  let st0 := set_boat1Stage FinishLeg
               (set_boat2Stage StartLeg (snd sampleSystem)) in
  frame startFrame (initialRefs, st0)
  = (setFinishedRef B1 initialRefs,
     finishRace "boat-1" 60000 (set_boat1Stage Finished st0)).
Proof.
  intros st0.
  assert (E0 : forceStartLeg startFrame st0 = st0) by reflexivity.
  assert (E1 : boatProgression B1 startFrame FinishLeg (initialRefs, st0)
               = (setFinishedRef B1 initialRefs,
                  finishRace "boat-1" 60000 (set_boat1Stage Finished st0))).
  { unfold boatProgression. cbn [RaceStage_eqb andb].
    cbn [fst snd finishedRef initialRefs boat1FinishedRef negb].
    rewrite isAtFinishLine_startFrame. reflexivity. }
  assert (E2 : forall sys, boatProgression B2 startFrame StartLeg sys = sys).
  { intros sys. unfold boatProgression. cbn [RaceStage_eqb andb].
    now rewrite startFrame_boat2_away. }
  unfold frame, stageTracking. cbn [snd fst]. rewrite E0.
  change (RacePhase_eqb (phase st0) Racing && negb (isPaused startFrame))
    with true.
  change (boat1Stage st0) with FinishLeg.
  change (boat2Stage st0) with StartLeg.
  change (boatCount startFrame >=? 2)%Z with true.
  change (boatCount startFrame >=? 3)%Z with false.
  change (boatCount startFrame >=? 4)%Z with false.
  cbv iota. rewrite E1. apply E2.
Qed.

Lemma renderedStage_cases c s v :
  renderedStage c s = v -> s = v \/ s = StartLeg.
Proof. unfold renderedStage. destruct s; cbn [RaceStage_eqb]; auto. Qed.

(** X5.  A frame changes the results only through a boat in play for
    which the stage its checks compare is the Finish Leg, which is at the
    finish line and has not been marked as finished by an earlier frame;
    the race is in its racing phase and not paused.  For boats 1 and 2 the
    compared stage is the stage of the store.  For boats 3 and 4 it is the
    constant of the closure: the store then holds the Finish Leg as well,
    or the Start Leg that a new initialization of the stages has
    written. *)
Theorem frame_records_only_at_the_finish f sys :
  results (snd (frame f sys)) <> results (snd sys) ->
  phase (snd sys) = Racing /\ isPaused f = false
  /\ exists ix,
       inPlay f ix = true
       /\ comparedStage f ix (snd sys) = FinishLeg
       /\ (stageOf ix (snd sys) = FinishLeg
           \/ ((ix = B3 \/ ix = B4) /\ stageOf ix (snd sys) = StartLeg))
       /\ isAtFinishLine f ix = true
       /\ finishedRef ix (fst sys) = false.
Proof.
  unfold frame, stageTracking. intros Hchanged.
  destruct (RacePhase_eqb (phase (snd sys)) Racing) eqn:Ep;
    [|now elim Hchanged].
  destruct (isPaused f) eqn:Epause; [now elim Hchanged|].
  cbn [andb negb] in Hchanged.
  split; [now destruct (phase (snd sys))|]. split; [reflexivity|].
  set (st := forceStartLeg f (snd sys)) in *.
  set (sysA := boatProgression B1 f (boat1Stage st) (fst sys, st)) in *.
  set (sysB := if (boatCount f >=? 2)%Z
               then boatProgression B2 f (boat2Stage st) sysA else sysA) in *.
  set (sysC := if (boatCount f >=? 3)%Z
               then boatProgression B3 f (comparedStage f B3 (snd sys)) sysB
               else sysB) in *.
  set (Q := fun ix =>
              inPlay f ix = true
              /\ comparedStage f ix (snd sys) = FinishLeg
              /\ (stageOf ix (snd sys) = FinishLeg
                  \/ ((ix = B3 \/ ix = B4) /\ stageOf ix (snd sys) = StartLeg))
              /\ isAtFinishLine f ix = true
              /\ finishedRef ix (fst sys) = false).
  change (exists ix, Q ix).
  assert (Hst : forall ix, stageOf ix st = FinishLeg ->
                           stageOf ix (snd sys) = FinishLeg).
  { intros ix E. destruct (forceStartLeg_stageOf f (snd sys) ix)
      as [E' | [_ E']]; fold st in E'; congruence. }
  assert (Hcl : forall ix, ix = B3 \/ ix = B4 ->
                  comparedStage f ix (snd sys) = FinishLeg ->
                  stageOf ix (snd sys) = FinishLeg
                  \/ ((ix = B3 \/ ix = B4) /\ stageOf ix (snd sys) = StartLeg)).
  { intros ix Hix E.
    assert (H : stageOf ix (snd sys) = FinishLeg
                \/ stageOf ix (snd sys) = StartLeg)
      by (destruct Hix as [-> | ->]; exact (renderedStage_cases _ _ _ E)).
    destruct H as [H | H]; [now left | right; now split]. }
  assert (RA : forall jx, jx <> B1 ->
                 finishedRef jx (fst sysA) = finishedRef jx (fst sys)).
  { intros jx Hj. unfold sysA.
    rewrite boatProgression_refs_other by congruence. reflexivity. }
  assert (RB : forall jx, jx <> B1 -> jx <> B2 ->
                 finishedRef jx (fst sysB) = finishedRef jx (fst sys)).
  { intros jx H1 H2. unfold sysB. destruct (boatCount f >=? 2)%Z.
    - rewrite boatProgression_refs_other by congruence. now apply RA.
    - now apply RA. }
  assert (RC : finishedRef B4 (fst sysC) = finishedRef B4 (fst sys)).
  { unfold sysC. destruct (boatCount f >=? 3)%Z.
    - rewrite boatProgression_refs_other by discriminate.
      apply RB; discriminate.
    - apply RB; discriminate. }
  destruct (boatProgression_results B1 f (boat1Stage st) (fst sys, st))
    as [EA | (S1 & R1 & A1)].
  2:{ exists B1. split; [reflexivity|]. split; [exact S1|].
      split; [left; now apply (Hst B1)|]. split; assumption. }
  fold sysA in EA. cbn [snd] in EA.
  assert (EB : results (snd sysB) = results (snd sysA) \/ exists ix, Q ix).
  { unfold sysB. destruct (boatCount f >=? 2)%Z eqn:E2; [|now left].
    destruct (boatProgression_results B2 f (boat2Stage st) sysA)
      as [E | (S2 & R2 & A2)]; [now left|].
    right. exists B2. split; [exact E2|]. split; [exact S2|].
    split; [left; now apply (Hst B2)|]. split; [exact A2|].
    rewrite <- R2. symmetry. apply RA. discriminate. }
  destruct EB as [EB | H]; [|exact H].
  assert (EC : results (snd sysC) = results (snd sysB) \/ exists ix, Q ix).
  { unfold sysC. destruct (boatCount f >=? 3)%Z eqn:E3; [|now left].
    destruct (boatProgression_results B3 f (comparedStage f B3 (snd sys)) sysB)
      as [E | (S3 & R3 & A3)]; [now left|].
    right. exists B3. split; [exact E3|]. split; [exact S3|].
    split; [apply Hcl; [now left | exact S3]|]. split; [exact A3|].
    rewrite <- R3. symmetry. apply RB; discriminate. }
  destruct EC as [EC | H]; [|exact H].
  destruct (boatCount f >=? 4)%Z eqn:E4.
  - destruct (boatProgression_results B4 f (comparedStage f B4 (snd sys)) sysC)
      as [E | (S4 & R4 & A4)].
    + elim Hchanged. rewrite E, EC, EB, EA. apply forceStartLeg_results.
    + exists B4. split; [exact E4|]. split; [exact S4|].
      split; [apply Hcl; [now right | exact S4]|].
      split; [exact A4|]. now rewrite <- R4.
  - elim Hchanged. rewrite EC, EB, EA. apply forceStartLeg_results.
Qed.

Lemma frame_records_only_at_the_finish_witness :
  let sys := (initialRefs,
              set_boat1Stage FinishLeg
                (set_boat2Stage StartLeg (snd sampleSystem))) in
  results (snd (frame startFrame sys)) <> results (snd sys)
  /\ phase (snd sys) = Racing /\ isPaused startFrame = false
  /\ exists ix,
       inPlay startFrame ix = true
       /\ comparedStage startFrame ix (snd sys) = FinishLeg
       /\ (stageOf ix (snd sys) = FinishLeg
           \/ ((ix = B3 \/ ix = B4) /\ stageOf ix (snd sys) = StartLeg))
       /\ isAtFinishLine startFrame ix = true
       /\ finishedRef ix (fst sys) = false.
Proof.
  intros sys.
  assert (H : results (snd (frame startFrame sys)) <> results (snd sys)).
  { unfold sys. rewrite frame_startFrame_finish. vm_compute. discriminate. }
  split; [exact H|].
  apply (frame_records_only_at_the_finish startFrame sys H).
Defined.

(** The checks of a boat in play in an unpaused racing frame: they start
    from the stage the forced start has left and compare with the stage of
    [comparedStage]. *)
Lemma frame_stageOf f sys ix :
  phase (snd sys) = Racing -> isPaused f = false -> inPlay f ix = true ->
  exists sys0,
    stageOf ix (snd sys0) = stageOf ix (forceStartLeg f (snd sys))
    /\ stageOf ix (snd (frame f sys))
       = stageOf ix
           (snd (boatProgression ix f (comparedStage f ix (snd sys)) sys0)).
Proof.
  intros Ep Epause Hplay. unfold frame, stageTracking.
  rewrite Ep, Epause. cbn [RacePhase_eqb andb negb].
  set (st := forceStartLeg f (snd sys)).
  set (sysA := boatProgression B1 f (boat1Stage st) (fst sys, st)).
  set (sysB := if (boatCount f >=? 2)%Z
               then boatProgression B2 f (boat2Stage st) sysA else sysA).
  set (sysC := if (boatCount f >=? 3)%Z
               then boatProgression B3 f (comparedStage f B3 (snd sys)) sysB
               else sysB).
  set (sysD := if (boatCount f >=? 4)%Z
               then boatProgression B4 f (comparedStage f B4 (snd sys)) sysC
               else sysC).
  assert (EA : forall kx, kx <> B1 -> stageOf kx (snd sysA) = stageOf kx st).
  { intros kx Hk. unfold sysA.
    now rewrite boatProgression_other by congruence. }
  assert (EB : forall kx, kx <> B2 ->
                 stageOf kx (snd sysB) = stageOf kx (snd sysA)).
  { intros kx Hk. unfold sysB. destruct (boatCount f >=? 2)%Z; [|reflexivity].
    now rewrite boatProgression_other by congruence. }
  assert (EC : forall kx, kx <> B3 ->
                 stageOf kx (snd sysC) = stageOf kx (snd sysB)).
  { intros kx Hk. unfold sysC. destruct (boatCount f >=? 3)%Z; [|reflexivity].
    now rewrite boatProgression_other by congruence. }
  assert (ED : forall kx, kx <> B4 ->
                 stageOf kx (snd sysD) = stageOf kx (snd sysC)).
  { intros kx Hk. unfold sysD. destruct (boatCount f >=? 4)%Z; [|reflexivity].
    now rewrite boatProgression_other by congruence. }
  destruct ix; cbn [inPlay] in Hplay.
  - exists (fst sys, st). split; [reflexivity|].
    rewrite (ED B1), (EC B1), (EB B1) by discriminate. reflexivity.
  - exists sysA. split; [apply EA; discriminate|].
    rewrite (ED B2), (EC B2) by discriminate. unfold sysB.
    now rewrite Hplay.
  - exists sysB.
    split; [rewrite (EB B3) by discriminate; apply EA; discriminate|].
    rewrite (ED B3) by discriminate. unfold sysC. now rewrite Hplay.
  - exists sysC.
    split; [rewrite (EC B4), (EB B4) by discriminate; apply EA; discriminate|].
    unfold sysD. now rewrite Hplay.
Qed.

Lemma boatProgression_crosses ix f sys :
  crossesStartLine f ix = true ->
  stageOf ix (snd (boatProgression ix f StartLeg sys)) = UpwindLeg.
Proof.
  intros H. unfold boatProgression. cbn [RaceStage_eqb andb].
  rewrite H. cbn [snd]. apply stageOf_setStage_same.
Qed.

Local Open Scope R_scope.

(** X6.  On a window whose height plus 57 is at most three times its
    smaller side (a landscape window at least 29 high, a portrait window
    up to nearly three times as high as wide), a boat that still lies at
    its initial place, heading north, passes the test of the start line:
    the line is drawn at 0.85 of the height of the canvas, which is the
    integer part of 1.1 window heights, so less than 0.015 window heights
    plus 0.85 north of the initial places, within the three boat radii of
    the test.  So an unpaused racing frame takes such a boat in play to the
    Upwind Leg when the stage its checks compare is the Start Leg.  This
    is the first racing frame for boats 1 and 2, before they have moved;
    the closure of that frame still holds Not Started for boats 3 and 4,
    which the frame leaves in the Start Leg. *)
Theorem start_leg_ends_on_the_first_frame innerWidth innerHeight f sys ix :
  0 < innerWidth -> 0 < innerHeight ->
  innerHeight + 57 <= 3 * Rmin innerWidth innerHeight ->
  onWindow innerWidth innerHeight f ->
  boatStateOf f ix = initialBoatState innerWidth innerHeight ix ->
  phase (snd sys) = Racing -> isPaused f = false -> inPlay f ix = true ->
  crossesStartLine f ix = true
  /\ (comparedStage f ix (snd sys) = StartLeg ->
      stageOf ix (snd (frame f sys)) = UpwindLeg)
  /\ (comparedStage f ix (snd sys) = NotStarted ->
      stageOf ix (snd (frame f sys))
      = stageOf ix (forceStartLeg f (snd sys))).
Proof.
  intros Hw Hh Hwide (Er & Ew & Eh & Es & _ & _) Eb Ep Epause Hplay.
  assert (Hc : crossesStartLine f ix = true).
  { unfold crossesStartLine. rewrite Eb, Es, Er, Ew, Eh.
    unfold courseStartLine, boatRadiusOfWindow, canvasWidthOfWindow,
      canvasHeightOfWindow.
    pose proof (truncate_bounds (innerWidth * 1.1) ltac:(lra)) as Tw.
    pose proof (truncate_bounds (innerHeight * 1.1) ltac:(lra)) as Th.
    set (cw := IZR (truncate (innerWidth * 1.1))) in *.
    set (ch := IZR (truncate (innerHeight * 1.1))) in *.
    pose proof (Rmin_l innerWidth innerHeight) as Ml.
    pose proof (Rmin_r innerWidth innerHeight) as Mr.
    set (m := Rmin innerWidth innerHeight) in *.
    apply andb_true_intro. split; [apply andb_true_intro; split|].
    - apply Rltb_true_iff.
      destruct ix; cbn [initialBoatState BoatState.y StartLine.y1];
        unfold Rabs; destruct (Rcase_abs _); lra.
    - unfold Rgeb. apply andb_true_intro. split; apply Rleb_true_iff;
        destruct ix; cbn [initialBoatState BoatState.x StartLine.x1
                            StartLine.x2]; lra.
    - apply orb_true_intro. right. apply Rltb_true_iff.
      destruct ix; cbn [initialBoatState BoatState.rotation]; lra. }
  split; [exact Hc|].
  destruct (frame_stageOf f sys ix Ep Epause Hplay) as (sys0 & E0 & ->).
  split; intros Es'; rewrite Es'.
  - now apply boatProgression_crosses.
  - rewrite boatProgression_NotStarted. exact E0.
Qed.

Lemma start_leg_ends_on_the_first_frame_witness :
  let sys := (initialRefs, initializeStages 4 (snd sampleSystem)) in
  0 < 1000 /\ 0 < 800 /\ 800 + 57 <= 3 * Rmin 1000 800
  /\ onWindow 1000 800 firstFrame
  /\ boatStateOf firstFrame B1 = initialBoatState 1000 800 B1
  /\ phase (snd sys) = Racing /\ isPaused firstFrame = false
  /\ inPlay firstFrame B1 = true /\ inPlay firstFrame B3 = true
  /\ stageOf B1 (snd sys) = StartLeg /\ stageOf B3 (snd sys) = StartLeg
  /\ comparedStage firstFrame B1 (snd sys) = StartLeg
  /\ comparedStage firstFrame B3 (snd sys) = NotStarted
  /\ stageOf B1 (snd (frame firstFrame sys)) = UpwindLeg
  /\ stageOf B3 (snd (frame firstFrame sys)) = StartLeg.
Proof.
  intros sys.
  assert (H1 : 0 < 1000) by lra.
  assert (H2 : 0 < 800) by lra.
  assert (H3 : 800 + 57 <= 3 * Rmin 1000 800)
    by (unfold Rmin; destruct (Rle_dec 1000 800); lra).
  assert (H4 : onWindow 1000 800 firstFrame) by (repeat split).
  assert (C1 : comparedStage firstFrame B1 (snd sys) = StartLeg)
    by reflexivity.
  assert (C3 : comparedStage firstFrame B3 (snd sys) = NotStarted)
    by reflexivity.
  pose proof (start_leg_ends_on_the_first_frame 1000 800 firstFrame sys B1
                H1 H2 H3 H4 eq_refl eq_refl eq_refl eq_refl) as (_ & T1 & _).
  pose proof (start_leg_ends_on_the_first_frame 1000 800 firstFrame sys B3
                H1 H2 H3 H4 eq_refl eq_refl eq_refl eq_refl) as (_ & _ & T3).
  repeat (split; [first [assumption | reflexivity]|]).
  split; [exact (T1 C1)|]. rewrite (T3 C3). reflexivity.
Defined.

(* ================================================================== *)
(** * Further properties of the wind and the speed *)

(** X7.  When the wind direction and the heading differ by at most a full
    turn, the relative angle the speed code computes is the angle between
    them: it lies between 0 and 180 degrees, has the cosine of their
    difference, and is the same when the two are exchanged. *)
Theorem relativeAngle_is_the_angle_between windDirection boatDirection :
  Rabs (windDirection - boatDirection) <= 360 ->
  0 <= relativeAngle windDirection boatDirection <= 180
  /\ cos (relativeAngle windDirection boatDirection * PI / 180)
     = cos ((windDirection - boatDirection) * PI / 180)
  /\ relativeAngle windDirection boatDirection
     = relativeAngle boatDirection windDirection.
Proof.
  intros H. unfold relativeAngle, Rgtb.
  replace (Rabs (boatDirection - windDirection))
    with (Rabs (windDirection - boatDirection))
    by (rewrite <- Rabs_Ropp; f_equal; ring).
  set (d := windDirection - boatDirection) in *.
  pose proof (Rabs_pos d) as Hpos.
  assert (Hcos : cos (Rabs d * PI / 180) = cos (d * PI / 180)).
  { unfold Rabs. destruct (Rcase_abs d); [|reflexivity].
    rewrite <- (cos_neg (d * PI / 180)). f_equal. field. }
  destruct (Rltb 180 (Rabs d)) eqn:E.
  - apply Rltb_true_iff in E. split; [lra|]. split; [|reflexivity].
    rewrite <- Hcos.
    replace ((360 - Rabs d) * PI / 180)
      with (- (Rabs d * PI / 180) + 2 * INR 1 * PI) by (cbn [INR]; field).
    rewrite cos_period. apply cos_neg.
  - apply Rltb_false_iff in E. split; [lra|]. split; [exact Hcos|reflexivity].
Qed.

Lemma relativeAngle_is_the_angle_between_witness :
  Rabs (10 - 350) <= 360 /\ 0 <= relativeAngle 10 350 <= 180.
Proof.
  assert (H : Rabs (10 - 350) <= 360) by r_arith.
  split; [exact H|].
  apply (relativeAngle_is_the_angle_between 10 350 H).
Defined.

Lemma bandEfficiency_bounds a : 0 <= bandEfficiency a <= 1.
Proof. unfold bandEfficiency. r_cases; lra. Qed.

Lemma shadowedEfficiency_bounds f ix : 0 <= shadowedEfficiency f ix <= 1.
Proof.
  unfold shadowedEfficiency.
  pose proof (bandEfficiency_bounds
                (relativeAngle (windDirection f)
                   (BoatState.rotation (boatStateOf f ix)))) as H.
  destruct (isInWindShadow f ix); [|exact H].
  unfold Rmax. destruct (Rle_dec _ _); lra.
Qed.

Lemma applyWindPuffs_bounds rel bx by_ eff puffs :
  Forall (fun p => 0 <= Puff.speedBoost p <= 0.4) puffs ->
  eff <= applyWindPuffs rel bx by_ eff puffs <= eff + 0.4.
Proof.
  intros H. induction H as [|p ps Hp _ IH]; cbn [applyWindPuffs]; [lra|].
  destruct (Rltb _ 1); [|exact IH].
  destruct (Rgeb rel 30); lra.
Qed.

Lemma windEfficiencyOf_bounds f ix :
  Forall (fun p => 0 <= Puff.speedBoost p <= 0.4) (windPuffs f) ->
  0 <= windEfficiencyOf f ix <= 1.4.
Proof.
  intros H. unfold windEfficiencyOf.
  pose proof (shadowedEfficiency_bounds f ix) as Hs.
  pose proof (applyWindPuffs_bounds
                (relativeAngle (windDirection f)
                   (BoatState.rotation (boatStateOf f ix)))
                (BoatState.x (boatStateOf f ix))
                (BoatState.y (boatStateOf f ix))
                (shadowedEfficiency f ix) (windPuffs f) H) as Ha.
  lra.
Qed.

Lemma updatedSpeed_bounds f ix prev :
  Forall (fun p => 0 <= Puff.speedBoost p <= 0.4) (windPuffs f) ->
  0 <= prev <= 70 -> 0 <= deltaTime f ->
  0 <= updatedSpeed f ix prev <= 70
  /\ (luffing f ix = false -> updatedSpeed f ix prev <= maxSpeedOf f ix)
  /\ (luffing f ix = true -> updatedSpeed f ix prev <= prev).
Proof.
  intros Hp Hprev Hdt.
  pose proof (windEfficiencyOf_bounds f ix Hp) as He.
  unfold updatedSpeed, maxSpeedOf.
  destruct (luffing f ix); cbn [negb].
  - assert (H : 0 <= Rmax 0 (prev - 50 * deltaTime f * 3) <= prev)
      by (unfold Rmax; destruct (Rle_dec _ _); nra).
    split; [lra|]. split; [discriminate | intros _; lra].
  - assert (H : 0 <= Rmin (50 * windEfficiencyOf f ix)
                      (prev + 50 * deltaTime f * windEfficiencyOf f ix)
                 <= 50 * windEfficiencyOf f ix)
      by (unfold Rmin; destruct (Rle_dec _ _); nra).
    split; [lra|]. split; [intros _; lra | discriminate].
Qed.

(** X8.  When every wind puff of a frame adds between 0 and 0.4, the wind
    efficiency of a boat lies between 0 and 1.4 and its maximum speed
    between 0 and 70; a speed between 0 and 70 stays there after the speed
    update, which caps the speed at the maximum speed at once when the
    boat is not luffing and never raises it when the boat is luffing. *)
Theorem speed_stays_within_bounds f ix prev :
  Forall (fun p => 0 <= Puff.speedBoost p <= 0.4) (windPuffs f) ->
  0 <= prev <= 70 -> 0 <= deltaTime f ->
  0 <= windEfficiencyOf f ix <= 1.4
  /\ 0 <= maxSpeedOf f ix <= 70
  /\ 0 <= updatedSpeed f ix prev <= 70
  /\ (luffing f ix = false -> updatedSpeed f ix prev <= maxSpeedOf f ix)
  /\ (luffing f ix = true -> updatedSpeed f ix prev <= prev).
Proof.
  intros Hp Hprev Hdt.
  pose proof (windEfficiencyOf_bounds f ix Hp) as He.
  split; [exact He|]. split; [unfold maxSpeedOf; lra|].
  now apply updatedSpeed_bounds.
Qed.

Lemma speed_stays_within_bounds_witness :
  Forall (fun p => 0 <= Puff.speedBoost p <= 0.4) (windPuffs shadowFrame)
  /\ 0 <= 20 <= 70 /\ 0 <= deltaTime shadowFrame
  /\ 0 <= updatedSpeed shadowFrame B1 20 <= 70.
Proof.
  assert (H1 : Forall (fun p => 0 <= Puff.speedBoost p <= 0.4)
                 (windPuffs shadowFrame)).
  { repeat constructor; cbn; lra. }
  assert (H2 : 0 <= 20 <= 70) by lra.
  assert (H3 : 0 <= deltaTime shadowFrame) by (cbn; lra).
  split; [exact H1|]. split; [exact H2|]. split; [exact H3|].
  apply (speed_stays_within_bounds shadowFrame B1 20 H1 H2 H3).
Defined.

(** X9.  A boat that heads less than 30 degrees off the wind, outside
    every wind shadow and with its sail not luffed, has no speed left
    after the speed update of one frame, whatever speed it had: the update
    caps the speed at a maximum speed of 0. *)
Theorem in_irons_stops_at_once f ix prev :
  relativeAngle (windDirection f) (BoatState.rotation (boatStateOf f ix)) < 30 ->
  isInWindShadow f ix = false ->
  luffing f ix = false ->
  0 <= prev ->
  updatedSpeed f ix prev = 0.
Proof.
  intros Hrel Hshadow Hluff Hprev.
  pose proof (in_irons_unshadowed_maxSpeed f ix Hrel Hshadow) as Hmax.
  unfold updatedSpeed. rewrite Hluff. cbn [negb]. rewrite Hmax.
  assert (He : windEfficiencyOf f ix = 0) by (unfold maxSpeedOf in Hmax; lra).
  rewrite He. unfold Rmin. destruct (Rle_dec _ _); lra.
Qed.

Lemma startFrame_in_irons :
  relativeAngle (windDirection startFrame)
    (BoatState.rotation (boatStateOf startFrame B1)) < 30.
Proof.
  cbn [startFrame windDirection boatStateOf BoatState.rotation].
  unfold relativeAngle. r_eval. r_arith.
Qed.

Lemma startFrame_unshadowed : isInWindShadow startFrame B1 = false.
Proof.
  unfold isInWindShadow, shadowedBy, isInTurbulenceZone.
  cbn [startFrame boatCount singleBoatMode boatStateOf boatRadius
       BoatState.x BoatState.y BoatState.rotation Point.x Point.y
       Z.geb Z.compare Pos.compare Pos.compare_cont negb andb].
  r_eval. reflexivity.
Qed.

Lemma in_irons_stops_at_once_witness :
  relativeAngle (windDirection startFrame)
    (BoatState.rotation (boatStateOf startFrame B1)) < 30
  /\ isInWindShadow startFrame B1 = false
  /\ luffing startFrame B1 = false
  /\ 0 <= 20
  /\ updatedSpeed startFrame B1 20 = 0.
Proof.
  assert (H : 0 <= 20) by lra.
  split; [exact startFrame_in_irons|]. split; [exact startFrame_unshadowed|].
  split; [reflexivity|]. split; [exact H|].
  apply (in_irons_stops_at_once startFrame B1 20 startFrame_in_irons
           startFrame_unshadowed eq_refl H).
Defined.

(** X10.  The wind shadow runs one way: when a boat is in the shadow of
    another, that other is not in the shadow of the first, under any
    rotation and shadow length.  The boat in the shadow is within the
    shadow length, and its offset to the side is less than half its
    distance, so it lies within 30 degrees of due south of the blocking
    boat. *)
Theorem wind_shadow_is_one_way mode mode' boatPos blockingBoatPos
    rotation rotation' shadowLength shadowLength' :
  isInTurbulenceZone mode boatPos blockingBoatPos rotation shadowLength
  = true ->
  let dx := Point.x boatPos - Point.x blockingBoatPos in
  let dy := Point.y boatPos - Point.y blockingBoatPos in
  isInTurbulenceZone mode' blockingBoatPos boatPos rotation' shadowLength'
  = false
  /\ 0 < dy
  /\ sqrt (dx ^ 2 + dy ^ 2) <= shadowLength
  /\ 2 * Rabs dx < sqrt (dx ^ 2 + dy ^ 2)
  /\ 3 * dx ^ 2 < dy ^ 2.
Proof.
  intros H dx dy.
  assert (Hm : mode = false).
  { destruct mode; [discriminate H | reflexivity]. }
  subst mode.
  apply isInTurbulenceZone_spec in H as (Hy & Hd & Hx).
  fold dx dy in Hd, Hx.
  assert (Hdy : 0 < dy) by (unfold dy; lra).
  set (d := sqrt (dx ^ 2 + dy ^ 2)) in *.
  assert (Hsum : 0 <= dx ^ 2 + dy ^ 2)
    by (apply Rplus_le_le_0_compat; apply pow2_ge_0).
  assert (Hd2 : d * d = dx ^ 2 + dy ^ 2) by (apply sqrt_sqrt; exact Hsum).
  assert (Hd0 : 0 <= d) by apply sqrt_pos.
  assert (Hdpos : 0 < d) by nra.
  assert (Hhalf : forall a l, 0 < l -> a / l * (l * 0.5) = a / 2)
    by (intros a l Hl; replace 0.5 with (1 / 2) by lra; field; lra).
  rewrite (Hhalf d shadowLength) in Hx by lra.
  split.
  { unfold isInTurbulenceZone. destruct mode'; [reflexivity|].
    replace (Rleb (Point.y blockingBoatPos) (Point.y boatPos)) with true;
      [reflexivity|].
    symmetry. apply Rleb_true_iff. lra. }
  split; [exact Hdy|]. split; [exact Hd|]. split; [lra|].
  assert (Ha : 0 <= Rabs dx) by apply Rabs_pos.
  assert (Ha2 : Rabs dx * Rabs dx = dx ^ 2).
  { unfold Rabs. destruct (Rcase_abs dx); ring. }
  nra.
Qed.

Lemma shadow_sample :
  isInTurbulenceZone false (Point.mk 500 380) (Point.mk 500 350) 0 60 = true.
Proof.
  apply isInTurbulenceZone_spec. cbn [Point.x Point.y].
  replace ((500 - 500) ^ 2 + (380 - 350) ^ 2) with (30 ^ 2) by ring.
  rewrite sqrt_pow2 by lra.
  split; [lra|]. split; [lra|]. r_arith.
Qed.

Lemma wind_shadow_is_one_way_witness :
  isInTurbulenceZone false (Point.mk 500 380) (Point.mk 500 350) 0 60 = true
  /\ isInTurbulenceZone false (Point.mk 500 350) (Point.mk 500 380) 90 60
     = false.
Proof.
  split; [exact shadow_sample|].
  apply (wind_shadow_is_one_way false false (Point.mk 500 380)
           (Point.mk 500 350) 0 90 60 60 shadow_sample).
Defined.

(* ================================================================== *)
(** * Further properties of the collisions *)

(** When no two boats in play overlap, the loop over the pairs adjusts
    nothing. *)
Lemma boatBoatCollisions_no_overlap f :
  (forall ix jx,
     inPlay f ix = true -> inPlay f jx = true -> ix <> jx ->
     boatRadius f * 2
     <= centerDistance (collisionInfo f ix) (collisionInfo f jx)) ->
  boatBoatCollisions f = initialAdjustments f.
Proof.
  intros H. unfold boatBoatCollisions.
  destruct (Z.geb_spec (boatCount f) 2) as [H2|H2]; [|reflexivity].
  assert (P : forall ix, (boatNumberOf ix <= boatCount f)%Z ->
                         inPlay f ix = true).
  { intros ix Hix. apply inPlay_spec. now right. }
  destruct (activeBoats_cases f H2) as [[E ->] | [[E ->] | [E ->]]];
    cbn [pairLoop fold_left];
    rewrite !resolvePair_far; try reflexivity;
    apply H; try discriminate; apply P; cbn [boatNumberOf]; lia.
Qed.

(** X11.  When the candidate positions of the boats in play are pairwise
    at least two boat radii apart, the collision detection between the
    boats leaves every boat without adjustment: at its candidate position
    and with the speed of its state. *)
Theorem no_overlap_no_adjustment f ix :
  (forall ix jx,
     inPlay f ix = true -> inPlay f jx = true -> ix <> jx ->
     boatRadius f * 2
     <= centerDistance (collisionInfo f ix) (collisionInfo f jx)) ->
  boatBoatCollisions f ix
  = Adjustment.mk (fst (candidatePosition f ix)) (snd (candidatePosition f ix))
      (BoatState.speed (boatStateOf f ix)) false.
Proof.
  intros H. now rewrite boatBoatCollisions_no_overlap.
Qed.

(** The places of the boats of [markFrame]. *)
Lemma markFrame_candidatePosition ix :
  inPlay markFrame ix = true ->
  candidatePosition markFrame ix
  = (BoatState.x (boatStateOf markFrame ix),
     BoatState.y (boatStateOf markFrame ix)).
Proof.
  intros H. apply candidatePosition_still; [exact H | reflexivity | |];
    destruct ix; try discriminate H; unfold boundaryMargin;
    cbn [markFrame boatRadius canvasWidth canvasHeight
         boatStateOf BoatState.x BoatState.y]; lra.
Qed.

Lemma markFrame_no_overlap ix jx :
  inPlay markFrame ix = true -> inPlay markFrame jx = true -> ix <> jx ->
  boatRadius markFrame * 2
  <= centerDistance (collisionInfo markFrame ix) (collisionInfo markFrame jx).
Proof.
  intros Hi Hj Hne. unfold centerDistance, collisionInfo.
  cbn [BoatCollisionInfo.x BoatCollisionInfo.y].
  rewrite !markFrame_candidatePosition by assumption. cbn [fst snd].
  apply sqrt_ge; [cbn; lra|].
  destruct ix, jx; try discriminate Hi; try discriminate Hj;
    try (now elim Hne);
    cbn [markFrame boatRadius boatStateOf BoatState.x BoatState.y]; lra.
Qed.

Lemma no_overlap_no_adjustment_witness :
  (forall ix jx,
     inPlay markFrame ix = true -> inPlay markFrame jx = true -> ix <> jx ->
     boatRadius markFrame * 2
     <= centerDistance (collisionInfo markFrame ix)
          (collisionInfo markFrame jx))
  /\ Adjustment.needsAdjustment (boatBoatCollisions markFrame B2) = false.
Proof.
  split; [exact markFrame_no_overlap|].
  rewrite (no_overlap_no_adjustment markFrame B2 markFrame_no_overlap).
  reflexivity.
Defined.

(** The new place of a boat pushed off an obstacle is farther from its
    centre by the push. *)
Lemma pushed_off_distance px py ox oy c s p :
  c * sqrt ((px - ox) ^ 2 + (py - oy) ^ 2) = px - ox ->
  s * sqrt ((px - ox) ^ 2 + (py - oy) ^ 2) = py - oy ->
  c * c + s * s = 1 ->
  0 <= p ->
  sqrt ((px + c * p - ox) ^ 2 + (py + s * p - oy) ^ 2)
  = sqrt ((px - ox) ^ 2 + (py - oy) ^ 2) + p.
Proof.
  set (d := sqrt ((px - ox) ^ 2 + (py - oy) ^ 2)).
  intros Hc Hs Hu Hp.
  assert (Hd : 0 <= d) by apply sqrt_pos.
  replace ((px + c * p - ox) ^ 2 + (py + s * p - oy) ^ 2)
    with ((d + p) * (d + p)).
  - apply sqrt_square. lra.
  - replace (px + c * p - ox) with (c * d + c * p) by lra.
    replace (py + s * p - oy) with (s * d + s * p) by lra.
    transitivity ((c * c + s * s) * ((d + p) * (d + p))); [|ring].
    rewrite Hu. ring.
Qed.

(** X12.  A boat whose candidate position is nearer to a mark or a buoy
    than the two radii is marked for adjustment, loses 5 percent of the
    speed of its state and is pushed straight away from the obstacle by
    the larger of three quarters of the overlap and a quarter of the boat
    radius.  Its distance grows by the push, so at most a quarter of the
    overlap is left, and the boat is clear of the obstacle after the push
    exactly when the overlap was at most a quarter of the boat radius. *)
Theorem mark_push_moves_away boatRadius px py speed o a :
  markDistance px py o < boatRadius + Mark.radius o ->
  let a' := obstacleCollision boatRadius px py speed o a in
  let distance := markDistance px py o in
  let overlap := boatRadius + Mark.radius o - distance in
  let push := markPushDistance boatRadius o distance in
  Adjustment.needsAdjustment a' = true
  /\ Adjustment.speedAdjusted a' = speed * 0.95
  /\ push = Rmax (overlap * 0.75) (boatRadius * 0.25)
  /\ markDistance (Adjustment.newXWithMarks a') (Adjustment.newYWithMarks a') o
     = distance + push
  /\ boatRadius + Mark.radius o - (distance + push) <= overlap / 4
  /\ (boatRadius + Mark.radius o <= distance + push
      <-> overlap <= boatRadius * 0.25).
Proof.
  intros Hhit a' distance overlap push.
  assert (Ea : a' = Adjustment.mk
                      (px + cos (atan2 (py - Mark.y o) (px - Mark.x o)) * push)
                      (py + sin (atan2 (py - Mark.y o) (px - Mark.x o)) * push)
                      (speed * 0.95) true).
  { unfold a', obstacleCollision.
    replace (Rltb (markDistance px py o) (boatRadius + Mark.radius o))
      with true; [reflexivity|].
    symmetry. now apply Rltb_true_iff. }
  assert (Hov : 0 < overlap) by (unfold overlap, distance; lra).
  assert (Hpush : push = Rmax (overlap * 0.75) (boatRadius * 0.25))
    by reflexivity.
  assert (Hp1 : overlap * 0.75 <= push) by (rewrite Hpush; apply Rmax_l).
  assert (Hp2 : boatRadius * 0.25 <= push) by (rewrite Hpush; apply Rmax_r).
  assert (Hp3 : push = overlap * 0.75 \/ push = boatRadius * 0.25).
  { rewrite Hpush. unfold Rmax. destruct (Rle_dec _ _); auto. }
  rewrite Ea. cbn [Adjustment.needsAdjustment Adjustment.speedAdjusted
                   Adjustment.newXWithMarks Adjustment.newYWithMarks].
  split; [reflexivity|]. split; [reflexivity|]. split; [exact Hpush|].
  split.
  { destruct (atan2_cos_sin (py - Mark.y o) (px - Mark.x o)) as [Hc Hs].
    unfold markDistance, distance, markDistance.
    apply pushed_off_distance;
      [exact Hc | exact Hs | apply cos_sin_unit | lra]. }
  split; [unfold overlap in *; lra|].
  unfold overlap in *. split; intros H; destruct Hp3 as [E | E]; lra.
Qed.

Lemma markDistance_sample : markDistance 512 100 (Mark.mk 500 100 7) = 12.
Proof.
  unfold markDistance. cbn [Mark.x Mark.y].
  replace ((512 - 500) ^ 2 + (100 - 100) ^ 2) with (12 ^ 2) by ring.
  apply sqrt_pow2. lra.
Qed.

Lemma mark_push_moves_away_witness :
  markDistance 512 100 (Mark.mk 500 100 7) < 10 + Mark.radius (Mark.mk 500 100 7)
  /\ Adjustment.needsAdjustment
       (obstacleCollision 10 512 100 20 (Mark.mk 500 100 7)
          (Adjustment.mk 0 0 0 false)) = true.
Proof.
  assert (H : markDistance 512 100 (Mark.mk 500 100 7)
              < 10 + Mark.radius (Mark.mk 500 100 7))
    by (rewrite markDistance_sample; cbn; lra).
  split; [exact H|].
  apply (mark_push_moves_away 10 512 100 20 (Mark.mk 500 100 7)
           (Adjustment.mk 0 0 0 false) H).
Defined.

Lemma obstacleCollision_hit boatRadius px py speed o a a' :
  markDistance px py o < boatRadius + Mark.radius o ->
  obstacleCollision boatRadius px py speed o a
  = obstacleCollision boatRadius px py speed o a'.
Proof.
  intros H. unfold obstacleCollision.
  replace (Rltb (markDistance px py o) (boatRadius + Mark.radius o)) with true;
    [reflexivity|].
  symmetry. now apply Rltb_true_iff.
Qed.

Lemma obstacleCollision_miss boatRadius px py speed o a :
  boatRadius + Mark.radius o <= markDistance px py o ->
  obstacleCollision boatRadius px py speed o a = a.
Proof.
  intros H. unfold obstacleCollision.
  replace (Rltb (markDistance px py o) (boatRadius + Mark.radius o)) with false;
    [reflexivity|].
  symmetry. now apply Rltb_false_iff.
Qed.

(** X13.  The four tests against the marks and the buoys start again from
    the candidate position, in the order top mark, bottom mark, left buoy,
    right buoy, and each test that finds an overlap overwrites the
    adjustment: at the end of the collision code, the adjustment of a boat
    whose marks are tested is the push off the last obstacle of that order
    that its candidate position overlaps, whatever the adjustment before
    the tests was; it is the adjustment of the collisions between boats
    when the boat overlaps none of the four.  The push off another boat and
    the push off an earlier obstacle are lost. *)
Theorem mark_collision_overrides f ix :
  checksMarks f ix = true ->
  let px := fst (candidatePosition f ix) in
  let py := snd (candidatePosition f ix) in
  let overlaps :=
    fun o => Rltb (markDistance px py o) (boatRadius f + Mark.radius o) in
  forall a,
    collisions f ix
    = match rev (filter overlaps (obstacles f)) with
      | o :: _ =>
          obstacleCollision (boatRadius f) px py
            (BoatState.speed (boatStateOf f ix)) o a
      | [] => boatBoatCollisions f ix
      end.
Proof.
  intros Hc px py overlaps a.
  unfold collisions, markCollisions. rewrite Hc. unfold markCollisionsOf.
  fold px py. unfold obstacles. cbn [filter]. unfold overlaps.
  unfold obstacleCollision.
  destruct (Rltb (markDistance px py (topMarkRef f)) _) eqn:E1;
    destruct (Rltb (markDistance px py (bottomMarkRef f)) _) eqn:E2;
    destruct (Rltb (markDistance px py (leftBuoyRef f)) _) eqn:E3;
    destruct (Rltb (markDistance px py (rightBuoyRef f)) _) eqn:E4;
    cbn [rev app]; rewrite ?E1, ?E2, ?E3, ?E4; reflexivity.
Qed.

Lemma markFrame_boat1_hits :
  markDistance (fst (candidatePosition markFrame B1))
    (snd (candidatePosition markFrame B1)) (topMarkRef markFrame)
  < boatRadius markFrame + Mark.radius (topMarkRef markFrame).
Proof.
  rewrite markFrame_candidatePosition by reflexivity.
  cbn [fst snd markFrame boatStateOf BoatState.x BoatState.y topMarkRef
       boatRadius].
  rewrite markDistance_sample. cbn. lra.
Qed.

(** Boat 1 of [markFrame] overlaps the top mark and no other obstacle. *)
Lemma markFrame_boat1_overlaps :
  filter
    (fun o =>
       Rltb (markDistance (fst (candidatePosition markFrame B1))
               (snd (candidatePosition markFrame B1)) o)
         (boatRadius markFrame + Mark.radius o))
    (obstacles markFrame)
  = [topMarkRef markFrame].
Proof.
  unfold obstacles. cbn [filter].
  rewrite (proj2 (Rltb_true_iff _ _) markFrame_boat1_hits).
  rewrite markFrame_candidatePosition by reflexivity.
  cbn [fst snd markFrame boatStateOf BoatState.x BoatState.y boatRadius].
  assert (Hmin : Rmin 1100 880 = 880)
    by (unfold Rmin; destruct (Rle_dec 1100 880); lra).
  replace (Rltb (markDistance 512 100 (bottomMarkRef markFrame)) _) with false.
  2:{ symmetry. apply Rltb_false_iff. unfold markDistance.
      cbn [bottomMarkRef markFrame Mark.x Mark.y Mark.radius].
      apply sqrt_ge; lra. }
  replace (Rltb (markDistance 512 100 (leftBuoyRef markFrame)) _) with false.
  2:{ symmetry. apply Rltb_false_iff. unfold markDistance, leftBuoyRef.
      cbn [markFrame canvasWidth canvasHeight Mark.x Mark.y Mark.radius].
      rewrite Hmin. apply sqrt_ge; lra. }
  replace (Rltb (markDistance 512 100 (rightBuoyRef markFrame)) _) with false.
  2:{ symmetry. apply Rltb_false_iff. unfold markDistance, rightBuoyRef.
      cbn [markFrame canvasWidth canvasHeight Mark.x Mark.y Mark.radius].
      rewrite Hmin. apply sqrt_ge; lra. }
  reflexivity.
Qed.

Lemma mark_collision_overrides_witness :
  checksMarks markFrame B1 = true
  /\ collisions markFrame B1
     = obstacleCollision 10 512 100 20 (Mark.mk 500 100 7)
         (Adjustment.mk 0 0 0 false)
  /\ Adjustment.needsAdjustment (collisions markFrame B1) = true
  /\ Adjustment.speedAdjusted (collisions markFrame B1) = 20 * 0.95.
Proof.
  assert (E : collisions markFrame B1
              = obstacleCollision 10 512 100 20 (Mark.mk 500 100 7)
                  (Adjustment.mk 0 0 0 false)).
  { rewrite (mark_collision_overrides markFrame B1 eq_refl
               (Adjustment.mk 0 0 0 false)).
    rewrite markFrame_boat1_overlaps. cbn [rev app].
    rewrite markFrame_candidatePosition by reflexivity. reflexivity. }
  split; [reflexivity|]. split; [exact E|].
  rewrite E. unfold obstacleCollision.
  replace (Rltb (markDistance 512 100 (Mark.mk 500 100 7))
             (10 + Mark.radius (Mark.mk 500 100 7))) with true
    by (symmetry; apply Rltb_true_iff; rewrite markDistance_sample; cbn; lra).
  split; reflexivity.
Defined.

(** X14.  The tests of boat 2 against the marks and the buoys run only
    when exactly two boats are in play.  With three or four boats, boat 2
    ends the frame with the adjustment of the collisions between boats
    alone, and sails through the marks: if it overlaps no boat, it is put
    at its candidate position with the speed of the earlier updates. *)
Theorem boat2_passes_marks_with_more_boats f prev :
  (3 <= boatCount f)%Z ->
  collisions f B2 = boatBoatCollisions f B2
  /\ (Adjustment.needsAdjustment (boatBoatCollisions f B2) = false ->
      movedBoat f B2 prev
      = BoatState.mk (fst (candidatePosition f B2))
          (snd (candidatePosition f B2)) (BoatState.rotation prev)
          (BoatState.speed prev)).
Proof.
  intros H.
  assert (E : collisions f B2 = boatBoatCollisions f B2).
  { unfold collisions, markCollisions. cbn [checksMarks].
    replace (boatCount f =? 2)%Z with false; [reflexivity|].
    symmetry. apply Z.eqb_neq. lia. }
  split; [exact E|]. intros Hn.
  unfold movedBoat. cbn [inPlay].
  replace (boatCount f >=? 2)%Z with true by (symmetry; apply Z.geb_le; lia).
  rewrite E, Hn. reflexivity.
Qed.

Lemma boat2_passes_marks_with_more_boats_witness :
  (3 <= boatCount markFrame)%Z
  /\ collisions markFrame B2 = boatBoatCollisions markFrame B2.
Proof.
  assert (H : (3 <= boatCount markFrame)%Z) by (cbn; lia).
  split; [exact H|].
  apply (boat2_passes_marks_with_more_boats markFrame
           (boatStateOf markFrame B2) H).
Defined.

Lemma resolvePair_keeps boatRadius boat1 boat2 adj k :
  Adjustment.needsAdjustment (adj k) = true ->
  Adjustment.needsAdjustment (resolvePair boatRadius boat1 boat2 adj k) = true.
Proof.
  intros H. unfold resolvePair. destruct (Rltb _ _); [|exact H].
  unfold setAdjustment.
  destruct (BoatIx_eqb k (BoatCollisionInfo.id boat2)); [reflexivity|].
  destruct (BoatIx_eqb k (BoatCollisionInfo.id boat1)); [reflexivity|].
  exact H.
Qed.

Lemma resolvePair_hits_l boatRadius boat1 boat2 adj k :
  BoatCollisionInfo.id boat1 = k ->
  centerDistance boat1 boat2 < boatRadius * 2 ->
  Adjustment.needsAdjustment (resolvePair boatRadius boat1 boat2 adj k) = true.
Proof.
  intros <- H. unfold resolvePair.
  replace (Rltb (centerDistance boat1 boat2) (boatRadius * 2)) with true
    by (symmetry; now apply Rltb_true_iff).
  unfold setAdjustment.
  destruct (BoatIx_eqb _ (BoatCollisionInfo.id boat2)); [reflexivity|].
  now rewrite BoatIx_eqb_refl.
Qed.

Lemma resolvePair_hits_r boatRadius boat1 boat2 adj k :
  BoatCollisionInfo.id boat2 = k ->
  centerDistance boat1 boat2 < boatRadius * 2 ->
  Adjustment.needsAdjustment (resolvePair boatRadius boat1 boat2 adj k) = true.
Proof.
  intros <- H. unfold resolvePair.
  replace (Rltb (centerDistance boat1 boat2) (boatRadius * 2)) with true
    by (symmetry; now apply Rltb_true_iff).
  unfold setAdjustment. now rewrite BoatIx_eqb_refl.
Qed.

Lemma resolvePair_speedRule f boatRadius i j adj :
  speedRule f adj ->
  speedRule f (resolvePair boatRadius (collisionInfo f i) (collisionInfo f j) adj).
Proof.
  intros H k. unfold resolvePair. destruct (Rltb _ _); [|apply H].
  unfold setAdjustment. cbn [collisionInfo BoatCollisionInfo.id
                             BoatCollisionInfo.speed].
  destruct (BoatIx_eqb k j) eqn:Ej.
  { intros _. cbn. destruct k, j; try discriminate Ej; reflexivity. }
  destruct (BoatIx_eqb k i) eqn:Ei.
  { intros _. cbn. destruct k, i; try discriminate Ei; reflexivity. }
  apply H.
Qed.

Lemma boatBoatCollisions_speedRule f : speedRule f (boatBoatCollisions f).
Proof.
  assert (H0 : speedRule f (initialAdjustments f))
    by (intros k Hk; discriminate Hk).
  unfold boatBoatCollisions.
  destruct (Z.geb_spec (boatCount f) 2) as [H2|H2]; [|exact H0].
  destruct (activeBoats_cases f H2) as [[E ->] | [[E ->] | [E ->]]];
    cbn [pairLoop fold_left];
    repeat apply resolvePair_speedRule; exact H0.
Qed.

Lemma collisions_speedRule f : speedRule f (collisions f).
Proof.
  intros k. unfold collisions, markCollisions.
  destruct (checksMarks f k); [|apply boatBoatCollisions_speedRule].
  unfold markCollisionsOf.
  pose proof (boatBoatCollisions_speedRule f k) as H0.
  revert H0. generalize (boatBoatCollisions f k). intros a0 H0.
  unfold obstacleCollision.
  repeat match goal with
         | |- context [Rltb ?a ?b] => destruct (Rltb a b)
         end; cbn; auto.
Qed.

(** X15.  Two boats in play whose candidate positions are nearer than two
    boat radii are both marked for adjustment by the collisions between
    boats, whatever the other pairs do, each with 0.95 times the speed of
    its state.  Boats 1 and 3, and boats 2 and 4, share their initial
    place: they collide as soon as both are in play. *)
Theorem overlapping_boats_are_adjusted f ix jx :
  inPlay f ix = true -> inPlay f jx = true -> ix <> jx ->
  centerDistance (collisionInfo f ix) (collisionInfo f jx) < boatRadius f * 2 ->
  Adjustment.needsAdjustment (boatBoatCollisions f ix) = true
  /\ Adjustment.needsAdjustment (boatBoatCollisions f jx) = true
  /\ Adjustment.speedAdjusted (boatBoatCollisions f ix)
     = BoatState.speed (boatStateOf f ix) * 0.95
  /\ Adjustment.speedAdjusted (boatBoatCollisions f jx)
     = BoatState.speed (boatStateOf f jx) * 0.95.
Proof.
  intros Hi Hj Hne Hd.
  assert (Hd' : centerDistance (collisionInfo f jx) (collisionInfo f ix)
                < boatRadius f * 2) by (now rewrite centerDistance_sym).
  assert (H2 : (2 <= boatCount f)%Z).
  { apply inPlay_spec in Hi, Hj.
    destruct ix, jx; cbn [boatNumberOf] in *;
      try (now elim Hne);
      destruct Hi as [Hi|Hi]; destruct Hj as [Hj|Hj];
      try discriminate; lia. }
  assert (Hn : Adjustment.needsAdjustment (boatBoatCollisions f ix) = true
               /\ Adjustment.needsAdjustment (boatBoatCollisions f jx) = true).
  { unfold boatBoatCollisions.
    replace (boatCount f >=? 2)%Z with true
      by (symmetry; apply Z.geb_le; lia).
    apply inPlay_spec in Hi, Hj.
    destruct (activeBoats_cases f H2) as [[E ->] | [[E ->] | [E ->]]];
      cbn [pairLoop fold_left];
      destruct ix, jx; cbn [boatNumberOf] in *;
      try (now elim Hne);
      try (exfalso; destruct Hi as [Hi|Hi]; destruct Hj as [Hj|Hj];
           try discriminate; lia);
      split;
      repeat first
        [ apply resolvePair_hits_l; [reflexivity | assumption]
        | apply resolvePair_hits_r; [reflexivity | assumption]
        | apply resolvePair_keeps ]. }
  destruct Hn as [Hni Hnj].
  split; [exact Hni|]. split; [exact Hnj|].
  split; now apply boatBoatCollisions_speedRule.
Qed.

Lemma same_state_same_candidate f ix jx :
  inPlay f ix = true -> inPlay f jx = true ->
  boatStateOf f ix = boatStateOf f jx ->
  centerDistance (collisionInfo f ix) (collisionInfo f jx) = 0.
Proof.
  intros Hi Hj E. unfold centerDistance, collisionInfo.
  cbn [BoatCollisionInfo.x BoatCollisionInfo.y].
  rewrite (candidatePosition_inPlay f ix Hi), (candidatePosition_inPlay f jx Hj).
  unfold tentativePosition. rewrite E. cbn [fst snd].
  match goal with
  | |- sqrt ?a = 0 => replace a with 0 by ring
  end.
  apply sqrt_0.
Qed.

Lemma overlapping_boats_are_adjusted_witness :
  inPlay firstFrame B1 = true /\ inPlay firstFrame B3 = true /\ B1 <> B3
  /\ centerDistance (collisionInfo firstFrame B1) (collisionInfo firstFrame B3)
     < boatRadius firstFrame * 2
  /\ Adjustment.needsAdjustment (boatBoatCollisions firstFrame B1) = true.
Proof.
  assert (Hne : B1 <> B3) by discriminate.
  assert (Hd : centerDistance (collisionInfo firstFrame B1)
                 (collisionInfo firstFrame B3)
               < boatRadius firstFrame * 2).
  { rewrite (same_state_same_candidate firstFrame B1 B3 eq_refl eq_refl eq_refl).
    cbn [firstFrame boatRadius]. unfold boatRadiusOfWindow, Rmin.
    destruct (Rle_dec 1000 800); lra. }
  split; [reflexivity|]. split; [reflexivity|]. split; [exact Hne|].
  split; [exact Hd|].
  apply (overlapping_boats_are_adjusted firstFrame B1 B3 eq_refl eq_refl Hne Hd).
Defined.

(* ================================================================== *)
(** * Further properties of the steering and of a whole frame *)

Lemma remainder_after_turn r : 0 <= r < 360 -> remainder (r + 360) 360 = r.
Proof.
  intros H. unfold remainder, truncate.
  assert (Hq : r + 360 = 360 * ((r + 360) / 360)) by field.
  set (q := (r + 360) / 360) in *.
  assert (Hq1 : 1 <= q < 2) by lra.
  destruct (Rle_dec 0 q); [|lra].
  rewrite <- (Int_part_spec q 1); [lra | cbn; lra].
Qed.

Lemma turnLeft_range rotationSpeed rotation :
  0 <= rotationSpeed <= 360 -> 0 <= rotation < 360 ->
  0 <= turnLeft rotationSpeed rotation < 360.
Proof. intros Hs Hr. unfold turnLeft. r_cases; lra. Qed.

Lemma turnRight_range rotationSpeed rotation :
  0 <= rotationSpeed -> 0 <= rotation ->
  0 <= turnRight rotationSpeed rotation < 360.
Proof.
  intros Hs Hr. unfold turnRight.
  apply (proj1 (remainder_360 (rotation + rotationSpeed))). lra.
Qed.

Lemma steer_range f leftKey rightKey rotation :
  0 <= deltaTime f <= 6 -> 0 <= rotation < 360 ->
  0 <= steer f leftKey rightKey rotation < 360.
Proof.
  intros Hdt Hr. unfold steer.
  assert (Hs : 0 <= 60 * deltaTime f <= 360) by lra.
  pose proof (turnLeft_range _ _ Hs Hr) as Hl.
  destruct leftKey, rightKey; try assumption;
    apply turnRight_range; lra.
Qed.

(** X16.  With a frame of at most six seconds, the steering keeps a
    heading from 0 up to 360 degrees in that range, under every choice of
    keys; a key turns the boat by 60 degrees per second; and with both
    keys down the heading is left as it was. *)
Theorem steering_keeps_the_heading_in_range f leftKey rightKey rotation :
  0 <= deltaTime f <= 6 -> 0 <= rotation < 360 ->
  0 <= steer f leftKey rightKey rotation < 360
  /\ steer f true true rotation = rotation
  /\ steer f false false rotation = rotation
  /\ (60 * deltaTime f <= rotation ->
      steer f true false rotation = rotation - 60 * deltaTime f)
  /\ (rotation + 60 * deltaTime f < 360 ->
      steer f false true rotation = rotation + 60 * deltaTime f).
Proof.
  intros Hdt Hr. split; [now apply steer_range|].
  unfold steer. split; [|split; [reflexivity|split]].
  - unfold turnRight, turnLeft.
    destruct (Rltb (rotation - 60 * deltaTime f) 0) eqn:E.
    + replace (rotation - 60 * deltaTime f + 360 + 60 * deltaTime f)
        with (rotation + 360) by ring.
      now apply remainder_after_turn.
    + replace (rotation - 60 * deltaTime f + 60 * deltaTime f)
        with rotation by ring.
      apply remainder_small; lra.
  - intros H. unfold turnLeft.
    replace (Rltb (rotation - 60 * deltaTime f) 0) with false; [reflexivity|].
    symmetry. apply Rltb_false_iff. lra.
  - intros H. unfold turnRight. apply remainder_small; lra.
Qed.

Lemma steering_keeps_the_heading_in_range_witness :
  0 <= deltaTime startFrame <= 6 /\ 0 <= 350 < 360
  /\ 0 <= steer startFrame false true 350 < 360.
Proof.
  assert (H1 : 0 <= deltaTime startFrame <= 6) by (cbn; lra).
  assert (H2 : 0 <= 350 < 360) by lra.
  split; [exact H1|]. split; [exact H2|].
  apply (steering_keeps_the_heading_in_range startFrame false true 350 H1 H2).
Defined.

(** X17.  The updates a frame queues for a boat keep its speed between 0
    and 70 and its heading from 0 up to 360 degrees, when the speed of the
    state the frame has read is in that range, every wind puff adds
    between 0 and 0.4 and the frame lasts at most six seconds: a collision
    writes 0.95 times the speed of the state, dropping the speed update of
    the frame, and no update but the steering writes the heading. *)
Theorem frame_keeps_speed_and_heading f phase leftKey rightKey ix prev :
  Forall (fun p => 0 <= Puff.speedBoost p <= 0.4) (windPuffs f) ->
  0 <= deltaTime f <= 6 ->
  0 <= BoatState.speed (boatStateOf f ix) <= 70 ->
  0 <= BoatState.speed prev <= 70 ->
  0 <= BoatState.rotation prev < 360 ->
  let next := nextBoatState f phase leftKey rightKey ix prev in
  0 <= BoatState.speed next <= 70
  /\ 0 <= BoatState.rotation next < 360
  /\ (Adjustment.needsAdjustment (collisions f ix) = true ->
      phase = Racing -> isPaused f = false -> inPlay f ix = true ->
      BoatState.speed next = BoatState.speed (boatStateOf f ix) * 0.95).
Proof.
  intros Hp Hdt Hs Hprev Hrot next. unfold next, nextBoatState, movedBoat.
  destruct (RacePhase_eqb phase Racing) eqn:Ep;
    [|cbn [andb]; repeat split; try lra; intros _ ->; discriminate].
  destruct (isPaused f) eqn:Epause;
    [cbn [andb negb]; repeat split; try lra; intros; discriminate|].
  cbn [andb negb].
  destruct (inPlay f ix) eqn:Eplay;
    [|repeat split; try lra; intros; discriminate].
  cbn [BoatState.x BoatState.y BoatState.rotation BoatState.speed].
  pose proof (steer_range f (leftKey ix) (rightKey ix) _ Hdt Hrot) as Hst.
  assert (Hdt0 : 0 <= deltaTime f) by lra.
  destruct (updatedSpeed_bounds f ix (BoatState.speed prev) Hp Hprev Hdt0)
    as (Hu & _).
  pose proof (collisions_speedRule f ix) as Hrule.
  destruct (Adjustment.needsAdjustment (collisions f ix)) eqn:En.
  - rewrite (Hrule eq_refl). split; [lra|]. split; [exact Hst|]. reflexivity.
  - split; [exact Hu|]. split; [exact Hst|]. intros; discriminate.
Qed.

Lemma frame_keeps_speed_and_heading_witness :
  Forall (fun p => 0 <= Puff.speedBoost p <= 0.4) (windPuffs markFrame)
  /\ 0 <= deltaTime markFrame <= 6
  /\ 0 <= BoatState.speed (boatStateOf markFrame B1) <= 70
  /\ 0 <= BoatState.rotation (boatStateOf markFrame B1) < 360
  /\ 0 <= BoatState.speed
            (nextBoatState markFrame Racing (fun _ => false) (fun _ => true)
               B1 (boatStateOf markFrame B1)) <= 70.
Proof.
  assert (H1 : Forall (fun p => 0 <= Puff.speedBoost p <= 0.4)
                 (windPuffs markFrame)) by constructor.
  assert (H2 : 0 <= deltaTime markFrame <= 6) by (cbn; lra).
  assert (H3 : 0 <= BoatState.speed (boatStateOf markFrame B1) <= 70)
    by (cbn; lra).
  assert (H4 : 0 <= BoatState.rotation (boatStateOf markFrame B1) < 360)
    by (cbn; lra).
  split; [exact H1|]. split; [exact H2|]. split; [exact H3|].
  split; [exact H4|].
  apply (frame_keeps_speed_and_heading markFrame Racing (fun _ => false)
           (fun _ => true) B1 (boatStateOf markFrame B1) H1 H2 H3 H3 H4).
Defined.

(* ================================================================== *)
(** * Further properties of the wind and the puffs of the canvas *)

Lemma windShiftRange_pos currentSeason :
  0 < SeasonConfig.windShiftRange (seasonConfig currentSeason).
Proof. destruct currentSeason; cbn; lra. Qed.

Lemma shiftWind_invariant currentSeason f phase random w :
  let range := SeasonConfig.windShiftRange (seasonConfig currentSeason) in
  - range <= canvasWindDirection w <= range ->
  windTrend w = 1 \/ windTrend w = -1 ->
  - range <= canvasWindDirection (shiftWind currentSeason f phase random w)
    <= range
  /\ (windTrend (shiftWind currentSeason f phase random w) = 1
      \/ windTrend (shiftWind currentSeason f phase random w) = -1).
Proof.
  intros range Hd Ht. pose proof (windShiftRange_pos currentSeason) as Hr.
  fold range in Hr. unfold shiftWind. fold range.
  destruct (RacePhase_eqb phase Racing && negb (isPaused f)); [|auto].
  destruct (Rltb random _); [|auto].
  unfold Rgeb.
  destruct (Rleb range _) eqn:E1;
    [cbn [canvasWindDirection windTrend]; split; [lra | now right]|].
  apply Rleb_false_iff in E1.
  destruct (Rleb _ (- range)) eqn:E2;
    [cbn [canvasWindDirection windTrend]; split; [lra | now left]|].
  apply Rleb_false_iff in E2.
  cbn [canvasWindDirection windTrend]. split; [lra | exact Ht].
Qed.

(** X18.  The wind direction of the canvas starts at 0 with the trend 1;
    after any frames at one venue it lies within the shift range of the
    venue on either side of 0 (25, 10 or 15 degrees), and the trend is 1
    or -1.  So against a heading from 0 up to 360 degrees the relative
    angle is above minus the shift range and at most 180. *)
Theorem canvas_wind_stays_in_the_shift_range currentSeason ticks :
  let w := shiftWinds currentSeason ticks initialCanvasWind in
  let range := SeasonConfig.windShiftRange (seasonConfig currentSeason) in
  - range <= canvasWindDirection w <= range
  /\ (windTrend w = 1 \/ windTrend w = -1)
  /\ range <= 25
  /\ forall boatDirection,
       0 <= boatDirection < 360 ->
       - range < relativeAngle (canvasWindDirection w) boatDirection <= 180.
Proof.
  intros w range.
  pose proof (windShiftRange_pos currentSeason) as Hr. fold range in Hr.
  assert (Hinv : - range <= canvasWindDirection w <= range
                 /\ (windTrend w = 1 \/ windTrend w = -1)).
  { unfold w, shiftWinds.
    assert (H0 : - range <= canvasWindDirection initialCanvasWind <= range
                 /\ (windTrend initialCanvasWind = 1
                     \/ windTrend initialCanvasWind = -1))
      by (cbn; split; [lra | now left]).
    revert H0. generalize initialCanvasWind.
    induction ticks as [|t ticks IH]; intros w0 H0; [exact H0|].
    cbn [fold_left]. apply IH.
    destruct H0 as [Hd Ht]. now apply shiftWind_invariant. }
  destruct Hinv as [Hd Ht].
  split; [exact Hd|]. split; [exact Ht|].
  split; [unfold range; destruct currentSeason; cbn; lra|].
  intros b Hb. unfold relativeAngle, Rgtb.
  destruct (Rltb 180 _) eqn:E.
  - apply Rltb_true_iff in E. revert E. unfold Rabs.
    destruct (Rcase_abs _); lra.
  - apply Rltb_false_iff in E. pose proof (Rabs_pos (canvasWindDirection w - b)).
    lra.
Qed.

Lemma newPuff_ok currentSeason boundaryMargin canvasWidth r :
  puffRandomsOk r ->
  puffOk (newPuff (seasonConfig currentSeason) boundaryMargin canvasWidth r).
Proof.
  intros (Hw & Hr & _ & _ & Hs). unfold isRandom in *.
  unfold puffOk, newPuff.
  cbn [Puff.speedBoost Puff.height Puff.width].
  split.
  - destruct currentSeason;
      cbn [seasonConfig SeasonConfig.gusts SeasonConfig.gustProbability
           SeasonConfig.windVariability SeasonConfig.gustStrength andb];
      try destruct (Rltb (rGust r) _);
      unfold Rmin; try destruct (Rle_dec _ _); lra.
  - destruct currentSeason; cbn [seasonConfig SeasonConfig.puffSize]; nra.
Qed.

Lemma generatePuff_ok currentSeason t prev :
  puffRandomsOk (tickRandoms t) -> Forall puffOk prev ->
  Forall puffOk (generatePuff (seasonConfig currentSeason) t prev).
Proof.
  intros Hr Hp. unfold generatePuff. destruct (_ && _); [|exact Hp].
  apply Forall_app. split; [exact Hp|].
  constructor; [|constructor]. now apply newPuff_ok.
Qed.

Lemma advancePuffs_ok t prev :
  Forall puffOk prev -> Forall puffOk (advancePuffs t prev).
Proof.
  intros Hp. unfold advancePuffs.
  destruct (RacePhase_eqb _ _); [|exact Hp].
  destruct (negb _); [|exact Hp].
  apply Forall_forall. intros q Hq.
  apply filter_In in Hq as [Hq _]. apply in_map_iff in Hq as (p & <- & Hin).
  rewrite Forall_forall in Hp. exact (Hp p Hin).
Qed.

Lemma puffFrames_ok currentSeason ts : forall prev,
  Forall (fun t => puffRandomsOk (tickRandoms t)) ts ->
  Forall puffOk prev ->
  Forall puffOk (puffFrames (seasonConfig currentSeason) ts prev).
Proof.
  induction ts as [|t ts IH]; intros prev Hts Hp; [exact Hp|].
  inversion Hts as [|t' ts' Ht Hts']; subst.
  cbn [puffFrames fold_left]. apply IH; [exact Hts'|].
  unfold puffFrame. apply advancePuffs_ok. now apply generatePuff_ok.
Qed.

(** X19.  Every wind puff the frames of a race make and move adds a
    boost from 0.26 to 0.4 to the wind efficiency and is an oval wider
    than high, at every venue and for all readings of the random
    generator; a new puff starts with its centre one height above the
    canvas and, when the canvas is wide enough for it, lies between the
    two side boundaries.  A frame that reads such puffs gives no boat a
    maximum speed above 70. *)
Theorem wind_puffs_stay_well_formed currentSeason ts :
  Forall (fun t => puffRandomsOk (tickRandoms t)) ts ->
  let puffs := puffFrames (seasonConfig currentSeason) ts [] in
  Forall puffOk puffs
  /\ (forall f ix, windPuffs f = puffs -> 0 <= maxSpeedOf f ix <= 70)
  /\ forall boundaryMargin canvasWidth r,
       puffRandomsOk r ->
       let p := newPuff (seasonConfig currentSeason) boundaryMargin
                  canvasWidth r in
       Puff.y p = - Puff.height p
       /\ 81 <= Puff.width p < 324
       /\ (boundaryMargin + Puff.width p / 2
           <= canvasWidth - boundaryMargin - Puff.width p / 2 ->
           boundaryMargin <= Puff.x p - Puff.width p / 2
           /\ Puff.x p + Puff.width p / 2 <= canvasWidth - boundaryMargin).
Proof.
  intros Hts puffs.
  assert (Hok : Forall puffOk puffs)
    by (apply puffFrames_ok; [exact Hts | constructor]).
  split; [exact Hok|]. split.
  - intros f ix E.
    assert (Hb : Forall (fun p => 0 <= Puff.speedBoost p <= 0.4) (windPuffs f)).
    { rewrite E. apply Forall_forall. intros p Hp.
      rewrite Forall_forall in Hok. destruct (Hok p Hp) as [Hs _]. lra. }
    pose proof (windEfficiencyOf_bounds f ix Hb). unfold maxSpeedOf. lra.
  - intros margin cw r (Hw & _ & Hx & _ & _) p. unfold isRandom in *.
    unfold p, newPuff. cbn [Puff.x Puff.y Puff.width Puff.height].
    split; [reflexivity|].
    split; [destruct currentSeason; cbn [seasonConfig SeasonConfig.puffSize];
            lra|].
    set (w := (rWidth r * 100 + 50) * 1.8
              * SeasonConfig.puffSize (seasonConfig currentSeason)).
    intros Hfit. split; nra.
Qed.

Lemma wind_puffs_stay_well_formed_witness :
  Forall (fun t => puffRandomsOk (tickRandoms t)) [samplePuffTick]
  /\ Forall puffOk (puffFrames (seasonConfig sanfrancisco) [samplePuffTick] []).
Proof.
  assert (H : Forall (fun t => puffRandomsOk (tickRandoms t)) [samplePuffTick]).
  { constructor; [|constructor].
    cbn. unfold puffRandomsOk, isRandom. cbn. repeat split; lra. }
  split; [exact H|].
  apply (wind_puffs_stay_well_formed sanfrancisco [samplePuffTick] H).
Defined.

(* ================================================================== *)
(** * The display of a time *)

Lemma padStart_twoDigits_nat k :
  (k < 100)%nat ->
  padStart 2 "0"%char (JS.showZ (Z.of_nat k)) = twoDigits (Z.of_nat k).
Proof.
  intros H.
  do 100 (destruct k as [|k]; [vm_compute; reflexivity|]).
  lia.
Qed.

Lemma padStart_twoDigits n :
  (0 <= n < 100)%Z -> padStart 2 "0"%char (JS.showZ n) = twoDigits n.
Proof.
  intros H. rewrite <- (Z2Nat.id n) by lia.
  apply padStart_twoDigits_nat. lia.
Qed.

(** X20.  For a time of [ms] milliseconds, not negative, [formatTime]
    shows the whole minutes, a colon, the two digits of the seconds below
    60, a point and the two digits of the hundredths of a second: the
    three numbers give back [ms] less its last digit.  The minutes have
    two digits below 100 minutes, so the text is 8 characters long, and
    more digits from 100 minutes on. *)
Theorem formatTime_shows_minutes_seconds_hundredths ms :
  (0 <= ms)%Z ->
  let minutes := (ms / 60000)%Z in
  let seconds := ((ms / 1000) mod 60)%Z in
  let hundredths := ((ms mod 1000) / 10)%Z in
  formatTime ms
  = (padStart 2 "0"%char (JS.showZ minutes) ++ ":" ++ twoDigits seconds
     ++ "." ++ twoDigits hundredths)%string
  /\ (0 <= seconds < 60)%Z /\ (0 <= hundredths < 100)%Z
  /\ (minutes * 60000 + seconds * 1000 + hundredths * 10 = ms - ms mod 10)%Z
  /\ ((ms < 6000000)%Z ->
      formatTime ms
      = (twoDigits minutes ++ ":" ++ twoDigits seconds ++ "."
         ++ twoDigits hundredths)%string
      /\ String.length (formatTime ms) = 8%nat).
Proof.
  intros Hms minutes seconds hundredths.
  assert (Hs : (0 <= seconds < 60)%Z) by (apply Z.mod_pos_bound; lia).
  assert (Hh : (0 <= hundredths < 100)%Z).
  { unfold hundredths. pose proof (Z.mod_pos_bound ms 1000 ltac:(lia)).
    split; [apply Z.div_pos; lia | apply Z.div_lt_upper_bound; lia]. }
  assert (Em : ((ms / 1000) / 60 = minutes)%Z).
  { unfold minutes. rewrite Z.div_div by lia. reflexivity. }
  assert (Es : Z.rem (ms / 1000) 60 = seconds).
  { apply Z.rem_mod_nonneg; [apply Z.div_pos; lia | lia]. }
  assert (Eh : (Z.rem ms 1000 / 10 = hundredths)%Z).
  { unfold hundredths. f_equal. apply Z.rem_mod_nonneg; lia. }
  assert (E : formatTime ms
              = (padStart 2 "0"%char (JS.showZ minutes) ++ ":"
                 ++ twoDigits seconds ++ "." ++ twoDigits hundredths)%string).
  { unfold formatTime. cbv zeta. rewrite Em, Es, Eh.
    now rewrite (padStart_twoDigits seconds ltac:(lia)),
      (padStart_twoDigits hundredths Hh). }
  split; [exact E|]. split; [exact Hs|]. split; [exact Hh|]. split.
  - unfold minutes, seconds, hundredths.
    pose proof (Z.div_mod ms 1000 ltac:(lia)) as D1.
    pose proof (Z.div_mod (ms / 1000) 60 ltac:(lia)) as D2.
    pose proof (Z.div_mod (ms mod 1000) 10 ltac:(lia)) as D3.
    assert (D4 : ((ms mod 1000) mod 10 = ms mod 10)%Z).
    { pose proof (Z.mod_pos_bound (ms mod 1000) 10 ltac:(lia)).
      apply (Z.mod_unique_pos ms 10
               (100 * (ms / 1000) + ms mod 1000 / 10)%Z); lia. }
    assert (D5 : (ms / 60000 = ms / 1000 / 60)%Z)
      by (rewrite Z.div_div by lia; reflexivity).
    rewrite D5. lia.
  - intros Hlt.
    assert (Hm : (0 <= minutes < 100)%Z).
    { unfold minutes. split; [apply Z.div_pos; lia|].
      apply Z.div_lt_upper_bound; lia. }
    rewrite E, (padStart_twoDigits minutes Hm). split; reflexivity.
Qed.

Lemma formatTime_shows_minutes_seconds_hundredths_witness :
  (0 <= 83456)%Z /\ formatTime 83456 = "01:23.45"%string.
Proof.
  assert (H : (0 <= 83456)%Z) by lia.
  split; [exact H|].
  assert (H' : (83456 < 6000000)%Z) by lia.
  destruct (formatTime_shows_minutes_seconds_hundredths 83456 H)
    as (_ & _ & _ & _ & E).
  destruct (E H') as [E1 _]. rewrite E1. reflexivity.
Defined.

(* ================================================================== *)
(** * Further properties of the wind store *)

Lemma strengthModifier_fold cells x y : forall acc,
  Forall cellOk cells ->
  Rabs (fold_left
          (fun strengthModifier cell =>
             let distance :=
               sqrt ((x - WindCell.x cell) ^ 2 + (y - WindCell.y cell) ^ 2) in
             if Rltb distance (WindCell.radius cell) then
               let weight := 1 - distance / WindCell.radius cell in
               strengthModifier + WindCell.strength cell * weight
             else strengthModifier)
          cells acc)
  <= Rabs acc + 2 * INR (List.length cells).
Proof.
  induction cells as [|c cells IH]; intros acc Hok.
  - cbn. lra.
  - inversion Hok as [|c' cells' Hc Hok']; subst.
    cbn [fold_left]. eapply Rle_trans; [apply IH; exact Hok'|].
    replace (INR (List.length (c :: cells)))
      with (INR (List.length cells) + 1)
      by (cbn [List.length]; rewrite S_INR; ring).
    cbv zeta.
    set (d := sqrt ((x - WindCell.x c) ^ 2 + (y - WindCell.y c) ^ 2)).
    assert (Hd : 0 <= d) by apply sqrt_pos.
    destruct Hc as [Hr (k & Ek & Hk)].
    destruct (Rltb d (WindCell.radius c)) eqn:E; [|lra].
    apply Rltb_true_iff in E.
    assert (Hw : 0 < 1 - d / WindCell.radius c <= 1).
    { assert (H1 : 0 <= d / WindCell.radius c < 1).
      { split; [apply Rmult_le_pos; [exact Hd|]; left;
                apply Rinv_0_lt_compat; lra|].
        apply (Rmult_lt_reg_r (WindCell.radius c)); [lra|].
        unfold Rdiv. rewrite Rmult_assoc, Rinv_l by lra. lra. }
      lra. }
    assert (Hs : -2 <= WindCell.strength c <= 2).
    { rewrite Ek. split; [apply (IZR_le (-2)) | apply (IZR_le k 2)]; lia. }
    set (wgt := 1 - d / WindCell.radius c) in *.
    assert (Hp : -2 <= WindCell.strength c * wgt <= 2) by nra.
    unfold Rabs. repeat destruct (Rcase_abs _); lra.
Qed.

Lemma getWindAt_is_clamped_aux state x y :
  1 <= WindInfo.strength (getWindAt state x y)
  /\ WindInfo.strength (getWindAt state x y) <= 10.
Proof.
  unfold getWindAt. cbn [WindInfo.strength].
  unfold Rmax, Rmin. repeat destruct (Rle_dec _ _); lra.
Qed.

(** X21.  The wind strength [getWindAt] returns lies between 1 and 10
    knots at every point and its direction is that of the store; at a
    point outside every cell the strength is the base strength taken
    between 1 and 10; and with cells of a whole strength from -2 to 2 the
    cells move the strength by at most 2 knots for each cell. *)
Theorem getWindAt_is_clamped state x y :
  1 <= WindInfo.strength (getWindAt state x y) <= 10
  /\ WindInfo.direction (getWindAt state x y) = direction state
  /\ ((forall c, In c (cells state) ->
         WindCell.radius c
         <= sqrt ((x - WindCell.x c) ^ 2 + (y - WindCell.y c) ^ 2)) ->
      WindInfo.strength (getWindAt state x y)
      = Rmax 1 (Rmin 10 (baseStrength state)))
  /\ (Forall cellOk (cells state) ->
      Rabs (strengthModifier (cells state) x y)
      <= 2 * INR (List.length (cells state))).
Proof.
  unfold getWindAt. cbn [WindInfo.strength WindInfo.direction].
  split; [|split; [reflexivity|split]].
  - unfold Rmax, Rmin. repeat destruct (Rle_dec _ _); lra.
  - intros Hout.
    assert (E : strengthModifier (cells state) x y = 0).
    { unfold strengthModifier. generalize 0.
      induction (cells state) as [|c cs IH]; intros acc; [reflexivity|].
      cbn [fold_left]. cbv zeta.
      replace (Rltb _ (WindCell.radius c)) with false.
      - apply IH. intros c' Hc'. apply Hout. now right.
      - symmetry. apply Rltb_false_iff. apply Hout. now left. }
    rewrite E. now rewrite Rplus_0_r.
  - intros Hok. unfold strengthModifier.
    pose proof (strengthModifier_fold (cells state) x y 0 Hok) as H.
    rewrite Rabs_R0 in H. lra.
Qed.

Lemma int_part_of_five r :
  0 <= r < 1 -> (0 <= Int_part (r * 5) <= 4)%Z.
Proof.
  intros H. destruct (base_Int_part (r * 5)) as [H1 H2].
  split.
  - assert (H3 : (-1 < Int_part (r * 5))%Z) by (apply lt_IZR; lra). lia.
  - assert (H3 : (Int_part (r * 5) < 5)%Z) by (apply lt_IZR; lra). lia.
Qed.

Lemma windCell_ok locationSetting i d :
  cellDrawOk d -> cellOk (windCell locationSetting i d).
Proof.
  intros (_ & _ & _ & Hr & Hs). unfold isRandom in *.
  unfold cellOk, windCell. cbn [WindCell.radius WindCell.strength].
  split; [lra|].
  exists (Int_part (rCellStrength d * 5) - 2)%Z.
  split; [now rewrite minus_IZR|].
  pose proof (int_part_of_five _ Hs). lia.
Qed.

Lemma createWindCells_ok count locationSetting draws :
  (forall i, cellDrawOk (draws i)) ->
  Forall cellOk (createWindCells count locationSetting draws).
Proof.
  intros H. unfold createWindCells. apply Forall_forall. intros c Hc.
  apply in_map_iff in Hc as (i & <- & _). now apply windCell_ok.
Qed.

(** X22.  [initializeWind] draws a wind strength from the base strength
    of the venue up to its maximum, a current between the two bounds of
    the venue, which is no current at all at Newport Harbor, and a current
    direction from 0 up to 360.  The wind direction is within the range of
    the venue on either side of North, or is exactly 360 when the reading
    for the western side is 0.  It makes 10 cells, 15 at Newport Harbor,
    with the ids 0, 1, ..., each with a radius from 50 up to 150, a whole
    strength from -2 to 2 and a centre on the field of 1000 by 800. *)
Theorem initializeWind_draws_within_the_venue currentSeason d draws state :
  windDrawOk d -> (forall i, cellDrawOk (draws i)) ->
  let w := initializeWind currentSeason d draws state in
  let s := locationSettings currentSeason in
  baseWindStrength s <= baseStrength w < windMaxStrength s
  /\ currentMin s <= currentStrength w <= currentMax s
  /\ (currentSeason = newportharbor -> currentStrength w = 0)
  /\ 0 <= currentDirection w < 360
  /\ (withinRange (windDirectionRange s) (direction w)
      \/ (direction w = 360 /\ rDirection d = 0 /\ rSide d <= 0.5))
  /\ tick w = 0%Z
  /\ List.length (cells w)
     = (if Season_eqb currentSeason newportharbor then 15 else 10)%nat
  /\ map WindCell.id (cells w)
     = map Z.of_nat (seq 0 (List.length (cells w)))
  /\ Forall cellOk (cells w)
  /\ forall c, In c (cells w) ->
       0 <= WindCell.x c < 1000 /\ 0 <= WindCell.y c < 800.
Proof.
  intros (H1 & H2 & H3 & H4 & H5) Hcells w s. unfold isRandom in *.
  unfold w, initializeWind.
  cbn [baseStrength currentStrength currentDirection direction tick cells].
  fold s.
  split.
  { unfold s. destruct currentSeason;
      cbn [locationSettings windMaxStrength baseWindStrength];
      r_eval; cbn [negb]; lra. }
  split.
  { unfold s. destruct currentSeason;
      cbn [locationSettings currentMin currentMax]; r_eval; lra. }
  split.
  { intros ->. unfold s. cbn [locationSettings currentMin currentMax].
    r_eval. lra. }
  split; [lra|].
  split.
  { pose proof (windDirectionRange_bounds currentSeason) as Hr. fold s in Hr.
    unfold withinRange, Rgtb.
    destruct (Rltb 0.5 (rSide d)) eqn:E.
    - left. left. nra.
    - apply Rltb_false_iff in E.
      destruct (Req_dec_T (rDirection d) 0) as [E0 | E0].
      + right. rewrite E0. split; [ring | auto].
      + left. right. nra. }
  split; [reflexivity|].
  assert (Hlen : List.length (createWindCells 10 s draws)
                 = (if Season_eqb currentSeason newportharbor
                    then 15 else 10)%nat).
  { unfold createWindCells. rewrite length_map, length_seq.
    unfold s. now destruct currentSeason. }
  split; [exact Hlen|].
  split.
  { unfold createWindCells. rewrite length_map, length_seq, map_map.
    reflexivity. }
  split; [now apply createWindCells_ok|].
  intros c Hc. unfold createWindCells in Hc.
  apply in_map_iff in Hc as (i & <- & _).
  destruct (Hcells i) as (Hx & Hxb & Hy & _ & _). unfold isRandom in *.
  unfold windCell. cbn [WindCell.x WindCell.y].
  split; [|lra].
  destruct (PuffDistribution_eqb _ _); [|lra].
  destruct (_ =? 0)%Z; lra.
Qed.

Lemma sampleWindDraw_ok : windDrawOk sampleWindDraw.
Proof. unfold windDrawOk, isRandom. cbn. repeat split; lra. Qed.

Lemma sampleCellDraw_ok : cellDrawOk sampleCellDraw.
Proof. unfold cellDrawOk, isRandom. cbn. repeat split; lra. Qed.

Lemma initializeWind_draws_within_the_venue_witness :
  windDrawOk sampleWindDraw /\ (forall i : nat, cellDrawOk sampleCellDraw)
  /\ List.length
       (cells (initializeWind newportharbor sampleWindDraw
                 (fun _ => sampleCellDraw) sampleWind)) = 15%nat.
Proof.
  split; [exact sampleWindDraw_ok|]. split; [intros _; exact sampleCellDraw_ok|].
  apply (initializeWind_draws_within_the_venue newportharbor sampleWindDraw
           (fun _ => sampleCellDraw) sampleWind sampleWindDraw_ok
           (fun _ => sampleCellDraw_ok)).
Defined.

Lemma updateCell_ok settings d cell :
  cellOk cell -> cellOk (updateCell settings d cell).
Proof.
  intros [Hr (k & Ek & Hk)]. unfold cellOk, updateCell.
  cbn [WindCell.radius WindCell.strength]. split; [exact Hr|].
  destruct (Rltb (rChange d) _); [|now exists k].
  assert (Hcase : k = (-2)%Z \/ k = (-1)%Z \/ k = 0%Z \/ k = 1%Z \/ k = 2%Z)
    by lia.
  rewrite Ek.
  destruct (Rgtb (rUp d) 0.5);
    destruct Hcase as [-> | [-> | [-> | [-> | ->]]]];
    unfold Rmax, Rmin; repeat destruct (Rle_dec _ _); try lra;
    first [ exists (-2)%Z; split; [lra | lia]
          | exists (-1)%Z; split; [lra | lia]
          | exists 0%Z; split; [lra | lia]
          | exists 1%Z; split; [lra | lia]
          | exists 2%Z; split; [lra | lia] ].
Qed.

Lemma updateCellsFrom_facts settings draws cells : forall i,
  (Forall cellOk cells -> Forall cellOk (updateCellsFrom settings draws i cells))
  /\ map WindCell.id (updateCellsFrom settings draws i cells)
     = map WindCell.id cells
  /\ map WindCell.radius (updateCellsFrom settings draws i cells)
     = map WindCell.radius cells.
Proof.
  induction cells as [|c cells IH]; intros i; cbn [updateCellsFrom map].
  - repeat split; auto.
  - destruct (IH (S i)) as (H1 & H2 & H3). split; [|split].
    + intros H. inversion H; subst. constructor;
        [now apply updateCell_ok | now apply H1].
    + now rewrite H2.
    + now rewrite H3.
Qed.

(** X23.  [updateWindCells] keeps the cells of the wind store in their
    order with their ids and their radii, and keeps every strength a whole
    number from -2 to 2, over any number of calls and for all readings of
    the random generator; one call moves a cell by less than 1 along each
    axis and changes its strength by at most 1. *)
Theorem wind_cells_stay_well_formed currentSeason drawss state :
  Forall cellOk (cells state) ->
  let w := updateWindCellsMany currentSeason drawss state in
  Forall cellOk (cells w)
  /\ map WindCell.id (cells w) = map WindCell.id (cells state)
  /\ map WindCell.radius (cells w) = map WindCell.radius (cells state)
  /\ baseStrength w = baseStrength state /\ direction w = direction state
  /\ forall d cell,
       cellUpdateDrawOk d -> cellOk cell ->
       let cell' := updateCell (locationSettings currentSeason) d cell in
       -1 <= WindCell.x cell' - WindCell.x cell < 1
       /\ -1 <= WindCell.y cell' - WindCell.y cell < 1
       /\ Rabs (WindCell.strength cell' - WindCell.strength cell) <= 1.
Proof.
  intros Hok w.
  assert (H : Forall cellOk (cells w)
              /\ map WindCell.id (cells w) = map WindCell.id (cells state)
              /\ map WindCell.radius (cells w)
                 = map WindCell.radius (cells state)
              /\ baseStrength w = baseStrength state
              /\ direction w = direction state).
  { unfold w, updateWindCellsMany. clear w. revert state Hok.
    induction drawss as [|draws drawss IH]; intros state Hok;
      [repeat split; auto|].
    cbn [fold_left].
    destruct (updateCellsFrom_facts (locationSettings currentSeason) draws
                (cells state) 0) as (F1 & F2 & F3).
    destruct (IH (updateWindCells currentSeason draws state) (F1 Hok))
      as (G1 & G2 & G3 & G4 & G5).
    split; [exact G1|]. split; [now rewrite G2|]. split; [now rewrite G3|].
    split; [exact G4 | exact G5]. }
  destruct H as (H1 & H2 & H3 & H4 & H5).
  repeat (split; [assumption|]).
  intros d cell (D1 & D2 & _ & _) [_ (k & Ek & Hk)] cell'.
  unfold isRandom in *. unfold cell', updateCell.
  cbn [WindCell.x WindCell.y WindCell.strength].
  split; [lra|]. split; [lra|].
  assert (Hs : -2 <= WindCell.strength cell <= 2).
  { rewrite Ek. split; [apply (IZR_le (-2)) | apply (IZR_le k 2)]; lia. }
  destruct (Rltb (rChange d) _).
  - destruct (Rgtb (rUp d) 0.5);
      unfold Rmax, Rmin; repeat destruct (Rle_dec _ _);
      unfold Rabs; destruct (Rcase_abs _); lra.
  - unfold Rabs; destruct (Rcase_abs _); lra.
Qed.

Lemma wind_cells_stay_well_formed_witness :
  let state := initializeWind longbeach sampleWindDraw
                 (fun _ => sampleCellDraw) sampleWind in
  Forall cellOk (cells state)
  /\ Forall cellOk
       (cells (updateWindCellsMany longbeach
                 [fun _ => sampleCellUpdateDraw] state)).
Proof.
  intros state.
  assert (H : Forall cellOk (cells state)).
  { apply createWindCells_ok. intros _. exact sampleCellDraw_ok. }
  split; [exact H|].
  apply (wind_cells_stay_well_formed longbeach
           [fun _ => sampleCellUpdateDraw] state H).
Defined.

(* ================================================================== *)
(** * Properties of the wind helpers *)

(** X24.  The turbulence zone of [windUtils.ts] is a rectangle that
    starts at the boat and runs 160 along the direction [(sin w, cos w)]
    of the wind angle [w], 20 wide on either side of that line: a position
    is in the zone exactly when its offset from the boat, measured along
    that direction, is from 0 to 160 and, measured across it, at most 20.
    The rotation of the boat plays no part. *)
Theorem turbulence_zone_is_a_rectangle position boatPosition boatDirection
    windDirection :
  let w := windDirection * PI / 180 in
  let dx := Point.x position - Point.x boatPosition in
  let dy := Point.y position - Point.y boatPosition in
  let along := dx * sin w + dy * cos w in
  let across := dx * cos w - dy * sin w in
  WindUtils.isInTurbulenceZone position boatPosition boatDirection
    windDirection = true
  <-> 0 <= along <= 160 /\ Rabs across <= 20.
Proof.
  intros w dx dy along across. unfold WindUtils.isInTurbulenceZone.
  fold w. fold dx dy.
  set (s := sin w) in *. set (c := cos w) in *.
  set (bx := Point.x boatPosition) in *.
  set (by_ := Point.y boatPosition) in *.
  assert (Hsc : s * s + c * c = 1).
  { pose proof (sin2_cos2 w) as H. unfold Rsqr in H. exact H. }
  assert (Ht : (dx * (bx + s * 160 - bx) + dy * (by_ + c * 160 - by_))
               / ((bx + s * 160 - bx) * (bx + s * 160 - bx)
                  + (by_ + c * 160 - by_) * (by_ + c * 160 - by_))
               = along / 160).
  { replace ((bx + s * 160 - bx) * (bx + s * 160 - bx)
             + (by_ + c * 160 - by_) * (by_ + c * 160 - by_))
      with (25600 * (s * s + c * c)) by ring.
    rewrite Hsc. unfold along. field. }
  rewrite Ht.
  assert (Hd : (Point.x position
                - (bx + along / 160 * (bx + s * 160 - bx))) ^ 2
               + (Point.y position
                  - (by_ + along / 160 * (by_ + c * 160 - by_))) ^ 2
               = across ^ 2).
  { transitivity (across ^ 2
                  + (s * s + c * c - 1) * (along ^ 2 - dx ^ 2 - dy ^ 2)).
    - unfold across, along, dx, dy, bx, by_. field.
    - rewrite Hsc. ring. }
  rewrite Hd. unfold Rgtb.
  assert (Hsq : across ^ 2 <= 20 * 20 <-> Rabs across <= 20).
  { unfold Rabs. destruct (Rcase_abs across); split; intros; nra. }
  destruct (Rltb (along / 160) 0) eqn:E1.
  { apply Rltb_true_iff in E1. cbn [orb]. split; [discriminate|].
    intros [[H _] _]. lra. }
  apply Rltb_false_iff in E1.
  destruct (Rltb 1 (along / 160)) eqn:E2.
  { apply Rltb_true_iff in E2. cbn [orb]. split; [discriminate|].
    intros [[_ H] _]. lra. }
  apply Rltb_false_iff in E2. cbn [orb].
  rewrite Rleb_true_iff, Hsq. split; [intros H | intros [_ H]; exact H].
  split; [lra | exact H].
Qed.

Lemma getEffectiveWindStrength_cases position baseStrength boats windDirection :
  WindUtils.getEffectiveWindStrength position baseStrength boats windDirection
  = baseStrength
  \/ WindUtils.getEffectiveWindStrength position baseStrength boats
       windDirection
     = Rmax 1 (baseStrength - 1).
Proof.
  induction boats as [|b boats IH]; cbn [WindUtils.getEffectiveWindStrength];
    [now left|].
  destruct (WindUtils.isInTurbulenceZone _ _ _ _); [now right | exact IH].
Qed.

(** X25.  The wind a boat of [GameCanvas.tsx] sails in, the wind of the
    store at its place less the turbulence of the other boats, lies
    between 1 and 10 knots and at most 1 knot below the wind of the store;
    turbulence takes a base strength to the larger of 1 and the strength
    less 1, once however many zones hold the boat, so it raises a strength
    below 1 to 1. *)
Theorem effective_wind_stays_between_1_and_10 state position others :
  let base :=
    WindInfo.strength (getWindAt state (Point.x position) (Point.y position)) in
  1 <= effectiveWind state position others <= 10
  /\ base - 1 <= effectiveWind state position others <= base
  /\ forall baseStrength boats windDirection,
       let e := WindUtils.getEffectiveWindStrength position baseStrength
                  boats windDirection in
       (e = baseStrength \/ e = Rmax 1 (baseStrength - 1))
       /\ (baseStrength < 1 -> baseStrength <= e <= 1).
Proof.
  intros base.
  destruct (getWindAt_is_clamped_aux state (Point.x position) (Point.y position))
    as [Hb1 Hb2].
  fold base in Hb1, Hb2.
  assert (Hgen : forall b boats w,
             let e := WindUtils.getEffectiveWindStrength position b boats w in
             (e = b \/ e = Rmax 1 (b - 1)) /\ (b < 1 -> b <= e <= 1)).
  { intros b boats w e.
    destruct (getEffectiveWindStrength_cases position b boats w) as [E | E];
      fold e in E; (split; [auto|]); intros Hlt; rewrite E;
      unfold Rmax; try destruct (Rle_dec _ _); lra. }
  assert (He : effectiveWind state position others = base
               \/ effectiveWind state position others = Rmax 1 (base - 1)).
  { unfold effectiveWind. apply getEffectiveWindStrength_cases. }
  assert (Hm : Rmax 1 (base - 1) <= base /\ 1 <= Rmax 1 (base - 1)
               /\ base - 1 <= Rmax 1 (base - 1))
    by (unfold Rmax; destruct (Rle_dec _ _); lra).
  split; [destruct He as [-> | ->]; lra|].
  split; [destruct He as [-> | ->]; lra|].
  exact Hgen.
Qed.

(* ================================================================== *)
(** * Properties of the game settings *)

Lemma GameSettings_act_range a state :
  (1 <= GameSettings.boatCount state <= 4)%Z ->
  (1 <= GameSettings.boatCount (GameSettings.act a state) <= 4)%Z.
Proof.
  intros H. destruct a; cbn [GameSettings.act];
    unfold GameSettings.setBoatCount, GameSettings.incrementBoatCount,
      GameSettings.decrementBoatCount, GameSettings.toggleBoatMode;
    try destruct (_ =? 1)%Z; cbn [GameSettings.boatCount]; lia.
Qed.

(** X26.  The boat count of the game settings starts at 2 and stays
    between 1 and 4 under every sequence of its four actions; setting a
    count takes it into that range; [toggleBoatMode] goes to one boat from
    every other count and back to two boats, not to the count before; and
    [initializeRace] makes exactly as many boats as the settings count. *)
Theorem boat_count_stays_between_1_and_4 actions :
  let state := GameSettings.acts actions GameSettings.initial in
  (1 <= GameSettings.boatCount state <= 4)%Z
  /\ (forall count st,
        GameSettings.boatCount (GameSettings.setBoatCount count st)
        = if (count <? 1)%Z then 1%Z
          else if (4 <? count)%Z then 4%Z else count)
  /\ (forall st,
        GameSettings.boatCount st <> 1%Z ->
        GameSettings.boatCount (GameSettings.toggleBoatMode st) = 1%Z
        /\ GameSettings.boatCount
             (GameSettings.toggleBoatMode (GameSettings.toggleBoatMode st))
           = 2%Z)
  /\ forall cfg st,
       List.length (boats (initializeRace (setupWith state cfg) st))
       = Z.to_nat (GameSettings.boatCount state).
Proof.
  intros state.
  assert (H : (1 <= GameSettings.boatCount state <= 4)%Z).
  { unfold state, GameSettings.acts.
    assert (H0 : (1 <= GameSettings.boatCount GameSettings.initial <= 4)%Z)
      by (cbn; lia).
    revert H0. generalize GameSettings.initial.
    induction actions as [|a actions IH]; intros s0 H0; [exact H0|].
    cbn [fold_left]. apply IH. now apply GameSettings_act_range. }
  split; [exact H|]. split; [|split].
  - intros count st. cbn [GameSettings.setBoatCount GameSettings.boatCount].
    destruct (Z.ltb_spec count 1); destruct (Z.ltb_spec 4 count); lia.
  - intros st Hne. unfold GameSettings.toggleBoatMode.
    destruct (Z.eqb_spec (GameSettings.boatCount st) 1) as [E|E];
      [contradiction|].
    cbn. split; reflexivity.
  - intros cfg st. cbn [initializeRace boats]. unfold initialBoats.
    cbn [setupWith settingsBoatCount].
    destruct (Z.gtb_spec (GameSettings.boatCount state) 1) as [H1|H1];
      [ destruct (Z.gtb_spec (GameSettings.boatCount state) 2) as [H2|H2];
        [ destruct (Z.gtb_spec (GameSettings.boatCount state) 3) as [H3|H3];
          [ replace (GameSettings.boatCount state) with 4%Z by lia
          | replace (GameSettings.boatCount state) with 3%Z by lia ]
        | replace (GameSettings.boatCount state) with 2%Z by lia ]
      | replace (GameSettings.boatCount state) with 1%Z by lia ];
      reflexivity.
Qed.

(* ================================================================== *)
(** * The movement of a boat and the pace of the stages *)

(** X27.  The tentative position of a boat is its position, moved by its
    speed times the duration along its heading, with North up the screen,
    and moved by ten times the speed of the current times the duration
    against the direction the current is named by: a current of direction
    0 carries the boats down the screen.  The own movement has the length
    of speed times duration.  With the current the canvas takes from the
    wind store, the drift has the length of the strength in knots times
    the duration, and after [initializeWind] at Newport Harbor there is no
    drift at all. *)
Theorem tentative_position_adds_heading_and_current f ix :
  let b := boatStateOf f ix in
  let heading := BoatState.rotation b * PI / 180 in
  let from := Current.direction (current f) * PI / 180 in
  let ownX := sin heading * (BoatState.speed b * deltaTime f) in
  let ownY := - cos heading * (BoatState.speed b * deltaTime f) in
  let driftX := - sin from * (Current.speed (current f) * 10 * deltaTime f) in
  let driftY := cos from * (Current.speed (current f) * 10 * deltaTime f) in
  tentativePosition f ix
  = (BoatState.x b + ownX + driftX, BoatState.y b + ownY + driftY)
  /\ ownX ^ 2 + ownY ^ 2 = (BoatState.speed b * deltaTime f) ^ 2
  /\ (forall state,
        current f = currentOfStore state ->
        driftX ^ 2 + driftY ^ 2 = (currentStrength state * deltaTime f) ^ 2)
  /\ (forall d draws state,
        current f = currentOfStore (initializeWind newportharbor d draws state) ->
        tentativePosition f ix
        = (BoatState.x b + ownX, BoatState.y b + ownY)).
Proof.
  intros b heading from ownX ownY driftX driftY.
  assert (E : tentativePosition f ix
              = (BoatState.x b + ownX + driftX, BoatState.y b + ownY + driftY)).
  { unfold tentativePosition. fold b.
    replace ((Current.direction (current f) + 180) * PI / 180)
      with (from + PI) by (unfold from; field).
    rewrite neg_sin, neg_cos.
    unfold ownX, ownY, driftX, driftY, heading. f_equal; ring. }
  split; [exact E|]. split; [|split].
  - unfold ownX, ownY.
    transitivity ((sin heading * sin heading + cos heading * cos heading)
                  * (BoatState.speed b * deltaTime f) ^ 2); [ring|].
    pose proof (cos_sin_unit heading) as H.
    replace (sin heading * sin heading + cos heading * cos heading) with 1
      by lra.
    ring.
  - intros state Ec. unfold driftX, driftY. rewrite Ec.
    cbn [currentOfStore Current.speed].
    transitivity ((sin from * sin from + cos from * cos from)
                  * (currentStrength state / 10 * 10 * deltaTime f) ^ 2);
      [ring|].
    pose proof (cos_sin_unit from) as H.
    replace (sin from * sin from + cos from * cos from) with 1 by lra.
    field.
  - intros d draws state Ec. rewrite E. unfold driftX, driftY. rewrite Ec.
    cbn [currentOfStore Current.speed initializeWind currentStrength
         locationSettings currentMin currentMax].
    r_eval.
    f_equal; lra.
Qed.

(** The stage of a boat after a frame against its stage before and the
    stage its checks compare. *)
Lemma frame_stage_bound f sys ix :
  (stageIndex (stageOf ix (snd (frame f sys)))
   <= Nat.max (Nat.max 1 (stageIndex (stageOf ix (snd sys))))
        (S (stageIndex (comparedStage f ix (snd sys)))))%nat.
Proof.
  unfold frame, stageTracking.
  destruct (RacePhase_eqb _ _ && _); [|lia].
  set (st := forceStartLeg f (snd sys)).
  set (sysA := boatProgression B1 f (boat1Stage st) (fst sys, st)).
  set (sysB := if (boatCount f >=? 2)%Z
               then boatProgression B2 f (boat2Stage st) sysA else sysA).
  set (sysC := if (boatCount f >=? 3)%Z
               then boatProgression B3 f (comparedStage f B3 (snd sys)) sysB
               else sysB).
  set (sysD := if (boatCount f >=? 4)%Z
               then boatProgression B4 f (comparedStage f B4 (snd sys)) sysC
               else sysC).
  assert (Hforce : forall kx,
             (stageIndex (stageOf kx st)
              <= Nat.max 1 (stageIndex (stageOf kx (snd sys))))%nat).
  { intros kx. destruct (forceStartLeg_stageOf f (snd sys) kx)
      as [E | [E1 E2]]; fold st in E || fold st in E2.
    - rewrite E. lia.
    - rewrite E2. cbn [stageIndex]. lia. }
  assert (Hstep : forall kx stage sys0,
             stageOf kx (snd sys0) = stageOf kx st ->
             (stageIndex (stageOf kx (snd (boatProgression kx f stage sys0)))
              <= Nat.max (Nat.max 1 (stageIndex (stageOf kx (snd sys))))
                   (S (stageIndex stage)))%nat).
  { intros kx stage sys0 E0.
    destruct (boatProgression_writes kx f stage sys0) as [E | E]; rewrite E.
    - rewrite E0. specialize (Hforce kx). lia.
    - lia. }
  assert (EA : forall kx, kx <> B1 -> stageOf kx (snd sysA) = stageOf kx st).
  { intros kx Hk. unfold sysA.
    now rewrite boatProgression_other by congruence. }
  assert (EB : forall kx, kx <> B2 ->
                 stageOf kx (snd sysB) = stageOf kx (snd sysA)).
  { intros kx Hk. unfold sysB. destruct (boatCount f >=? 2)%Z; [|reflexivity].
    now rewrite boatProgression_other by congruence. }
  assert (EC : forall kx, kx <> B3 ->
                 stageOf kx (snd sysC) = stageOf kx (snd sysB)).
  { intros kx Hk. unfold sysC. destruct (boatCount f >=? 3)%Z; [|reflexivity].
    now rewrite boatProgression_other by congruence. }
  assert (ED : forall kx, kx <> B4 ->
                 stageOf kx (snd sysD) = stageOf kx (snd sysC)).
  { intros kx Hk. unfold sysD. destruct (boatCount f >=? 4)%Z; [|reflexivity].
    now rewrite boatProgression_other by congruence. }
  fold sysD. destruct ix.
  - rewrite (ED B1), (EC B1), (EB B1) by discriminate. unfold sysA.
    apply (Hstep B1). reflexivity.
  - rewrite (ED B2), (EC B2) by discriminate. unfold sysB.
    destruct (boatCount f >=? 2)%Z.
    + apply (Hstep B2). apply EA; discriminate.
    + rewrite (EA B2) by discriminate. specialize (Hforce B2). lia.
  - rewrite (ED B3) by discriminate. unfold sysC.
    destruct (boatCount f >=? 3)%Z.
    + apply (Hstep B3).
      rewrite (EB B3) by discriminate. apply EA; discriminate.
    + rewrite (EB B3), (EA B3) by discriminate. specialize (Hforce B3). lia.
  - unfold sysD. destruct (boatCount f >=? 4)%Z.
    + apply (Hstep B4).
      rewrite (EC B4), (EB B4) by discriminate. apply EA; discriminate.
    + rewrite (EC B4), (EB B4), (EA B4) by discriminate.
      specialize (Hforce B4). lia.
Qed.

(** With the closure of a render of the store, the checks compare a stage
    of the store, after the forced start for boats 1 and 2. *)
Lemma comparedStage_fresh f ix st :
  (stageIndex (comparedStage (withClosureOf st f) ix st)
   <= Nat.max 1 (stageIndex (stageOf ix st)))%nat.
Proof.
  destruct ix; cbn [comparedStage].
  1,2: match goal with
       | |- context [stageOf ?k (forceStartLeg ?g ?s)] =>
           destruct (forceStartLeg_stageOf g s k) as [-> | [_ ->]]
       end; cbn [stageIndex]; lia.
  all: cbn [withClosureOf closureBoat3Stage closureBoat4Stage stageOf];
    unfold renderedStage;
    match goal with
    | |- context [RaceStage_eqb ?x StartLeg] => destruct x
    end; cbn [RaceStage_eqb stageIndex]; lia.
Qed.

Lemma roundsTopMark_staleFrame : roundsTopMark staleFrame B3 = true.
Proof.
  unfold roundsTopMark.
  cbn [staleFrame boatStateOf topMarkRef boatRadius
       BoatState.x BoatState.y Mark.x Mark.y].
  r_eval. reflexivity.
Qed.

(** X28.  A frame writes for a boat at most the stage that follows the
    one its checks compare: after a frame the stage index of a boat is at
    most the larger of its index before, counted from the Start Leg that
    the frame forces, and the index of the compared stage plus one.  So
    frames that follow one another, each with the closure of a render of
    the store the frame before has left, skip no leg: over [n] of them the
    stage index of a boat grows by at most [n], and they need at least five
    frames to take a boat from the Start Leg to Finished.  A frame whose
    closure is older than the store can skip legs: when the stages were
    initialized again during the race, the store of boat 3 holds the Start
    Leg, and a closure that still holds the Second Upwind Leg takes the
    boat at the top mark from the Start Leg to the Finish Leg in one
    frame. *)
Theorem frames_advance_one_leg_at_a_time :
  (forall f sys ix,
     (stageIndex (stageOf ix (snd (frame f sys)))
      <= Nat.max (Nat.max 1 (stageIndex (stageOf ix (snd sys))))
           (S (stageIndex (comparedStage f ix (snd sys)))))%nat)
  /\ (forall fs sys ix,
        (stageIndex (stageOf ix (snd (freshFrames fs sys)))
         <= Nat.max 1 (stageIndex (stageOf ix (snd sys)))
            + List.length fs)%nat)
  /\ (forall fs sys ix,
        stageOf ix (snd sys) = StartLeg ->
        stageOf ix (snd (freshFrames fs sys)) = Finished ->
        (5 <= List.length fs)%nat)
  /\ (forall f sys,
        phase (snd sys) = Racing -> isPaused f = false ->
        inPlay f B3 = true ->
        stageOf B3 (snd sys) = StartLeg ->
        closureBoat3Stage f = SecondUpwindLeg ->
        roundsTopMark f B3 = true ->
        stageOf B3 (snd (frame f sys)) = FinishLeg).
Proof.
  assert (H : forall fs sys ix,
             (stageIndex (stageOf ix (snd (freshFrames fs sys)))
              <= Nat.max 1 (stageIndex (stageOf ix (snd sys)))
                 + List.length fs)%nat).
  { induction fs as [|f fs IH]; intros sys ix.
    - unfold freshFrames. cbn [fold_left List.length]. lia.
    - unfold freshFrames. cbn [fold_left List.length].
      pose proof (IH (frame (withClosureOf (snd sys) f) sys) ix) as H1.
      unfold freshFrames in H1.
      pose proof (frame_stage_bound (withClosureOf (snd sys) f) sys ix) as H2.
      pose proof (comparedStage_fresh f ix (snd sys)) as H3.
      lia. }
  split; [exact frame_stage_bound|]. split; [exact H|]. split.
  - intros fs sys ix E1 E2. pose proof (H fs sys ix) as H1.
    rewrite E1, E2 in H1. cbn [stageIndex] in H1. lia.
  - intros f sys Ep Epause Hplay Es Ec Ht.
    destruct (frame_stageOf f sys B3 Ep Epause Hplay) as (sys0 & _ & ->).
    cbn [comparedStage]. cbn [stageOf] in Es. rewrite Es, Ec.
    unfold renderedStage. cbn [RaceStage_eqb].
    unfold boatProgression. cbn [RaceStage_eqb andb]. rewrite Ht.
    cbn [fst snd]. apply stageOf_setStage_same.
Qed.

Lemma frames_advance_one_leg_at_a_time_witness :
  let sys := (initialRefs,
              initializeStages 4
                (set_boat3Stage SecondUpwindLeg (snd sampleSystem))) in
  phase (snd sys) = Racing /\ isPaused staleFrame = false
  /\ inPlay staleFrame B3 = true
  /\ stageOf B3 (snd sys) = StartLeg
  /\ closureBoat3Stage staleFrame = SecondUpwindLeg
  /\ roundsTopMark staleFrame B3 = true
  /\ stageOf B3 (snd (frame staleFrame sys)) = FinishLeg
  /\ (stageIndex (stageOf B1 (snd (freshFrames [startFrame; shadowFrame] sys)))
      <= 1 + 2)%nat.
Proof.
  intros sys.
  destruct frames_advance_one_leg_at_a_time as (_ & T2 & _ & T4).
  split; [reflexivity|]. split; [reflexivity|]. split; [reflexivity|].
  split; [reflexivity|]. split; [reflexivity|].
  split; [exact roundsTopMark_staleFrame|].
  split; [exact (T4 staleFrame sys eq_refl eq_refl eq_refl eq_refl eq_refl
                    roundsTopMark_staleFrame)|].
  exact (T2 [startFrame; shadowFrame] sys B1).
Defined.

Local Close Scope R_scope.
